(** * Sh1ffy: workbench font injection and private theme import

    A shallow embedding of the Sh1ffy VS Code extension
    (font manager, theme manager) and the properties of its
    string transformations and file-system effects. *)

From Stdlib Require Import ZArith NArith Lia Bool Ascii String DecimalString.
From stdpp Require Import base option list gmap.

Open Scope Z_scope.
Open Scope list_scope.

(** ** JavaScript strings

    A JavaScript string is a sequence of UTF-16 code units.  Every
    operation the extension performs on strings ([s[i]], [indexOf],
    [slice], [startsWith], regular expressions without the [u] flag)
    works on code units, so a string is a list of code units. *)

Abbreviation char := N (only parsing).
Abbreviation str := (list N) (only parsing).

Module JS.

(** A literal written in the source, as code units (ASCII only). *)
Fixpoint lit (s : string) : str :=
  match s with
  | EmptyString => []
  | String a r => N_of_ascii a :: lit r
  end.

Definition ch_quote : char := 34%N.      (* double quote *)
Definition ch_apos : char := 39%N.       (* single quote *)
Definition ch_slash : char := 47%N.      (* / *)
Definition ch_star : char := 42%N.       (* * *)
Definition ch_backslash : char := 92%N.  (* \ *)
Definition ch_lf : char := 10%N.         (* \n *)
Definition ch_cr : char := 13%N.         (* \r *)
Definition ch_gt : char := 62%N.         (* > *)
Definition ch_dot : char := 46%N.        (* . *)

Definition str_eqb (a b : str) : bool := bool_decide (a = b).

(** [s.startsWith(p)] *)
Fixpoint startsWith (s p : str) {struct p} : bool :=
  match p, s with
  | [], _ => true
  | _ :: _, [] => false
  | x :: p', y :: s' => (x =? y)%N && startsWith s' p'
  end.

(** [s.endsWith(p)] *)
Definition endsWith (s p : str) : bool := startsWith (rev s) (rev p).

(** [s.indexOf(p)]: the least index at which [p] occurs, or -1. *)
Fixpoint indexOf_from (s p : str) (i : Z) : Z :=
  if startsWith s p then i
  else match s with
       | [] => -1
       | _ :: s' => indexOf_from s' p (i + 1)
       end.

Definition indexOf (s p : str) : Z := indexOf_from s p 0.

(** [s.includes(p)] *)
Definition includes (s p : str) : bool := negb (indexOf s p =? -1).

(** [s.slice(start, end)] with JavaScript's treatment of negative and
    out-of-range indices; [None] for an omitted [end]. *)
Definition clamp_index (len k : Z) : Z :=
  if k <? 0 then Z.max (len + k) 0 else Z.min k len.

Definition slice (s : str) (start : Z) (stop : option Z) : str :=
  let len := Z.of_nat (length s) in
  let from := clamp_index len start in
  let to := match stop with None => len | Some e => clamp_index len e end in
  take (Z.to_nat (to - from)) (drop (Z.to_nat from) s).

(** White space and line terminators, as matched by [\s] and removed by
    [trim()]. *)
Definition isSpace (c : char) : bool :=
  ((9 <=? c) && (c <=? 13) || (c =? 32) || (c =? 160) || (c =? 5760)
   || (8192 <=? c) && (c <=? 8202) || (c =? 8232) || (c =? 8233)
   || (c =? 8239) || (c =? 8287) || (c =? 12288) || (c =? 65279))%N.

Fixpoint trimStart (s : str) : str :=
  match s with
  | c :: s' => if isSpace c then trimStart s' else s
  | [] => []
  end.

Definition trimEnd (s : str) : str := rev (trimStart (rev s)).

Definition trim (s : str) : str := trimEnd (trimStart s).

(** A natural number in decimal, as in a template literal. *)
Definition decimal (n : nat) : str := lit (NilZero.string_of_uint (Nat.to_uint n)).

End JS.

Import JS.

(** ** The JSONC comment stripper (theme-manager, [stripJsonComments]) *)

Module Strip.

(** The local variables of [stripJsonComments]. *)
Record state := mkState {
  output : str;
  inString : bool;
  stringChar : option char;
  inLineComment : bool;
  inBlockComment : bool
}.

Definition initial : state := mkState [] false None false false.

Definition emit (st : state) (ch : char) : state :=
  mkState (output st ++ [ch]) (inString st) (stringChar st)
          (inLineComment st) (inBlockComment st).

Definition set_inLineComment (st : state) (b : bool) : state :=
  mkState (output st) (inString st) (stringChar st) b (inBlockComment st).

Definition set_inBlockComment (st : state) (b : bool) : state :=
  mkState (output st) (inString st) (stringChar st) (inLineComment st) b.

Definition set_string (st : state) (b : bool) (q : option char) : state :=
  mkState (output st) b q (inLineComment st) (inBlockComment st).

(** [while (j >= 0 && input[j] === "\\") { backslashes++; j--; }]
    The index [j] may reach -1; each round decreases it, so [j + 1]
    rounds are enough. *)
Fixpoint count_backslashes (rounds : nat) (input : str) (j : Z) (backslashes : nat) : nat :=
  match rounds with
  | O => backslashes
  | S rounds' =>
      if (0 <=? j) && bool_decide (input !! Z.to_nat j = Some ch_backslash)
      then count_backslashes rounds' input (j - 1) (S backslashes)
      else backslashes
  end.

Definition is_quote (ch : char) : bool := ((ch =? ch_quote) || (ch =? ch_apos))%N.

Definition is_newline (ch : char) : bool := ((ch =? ch_lf) || (ch =? ch_cr))%N.

(** The quote handling at the end of the loop body. *)
Definition on_quote (input : str) (i : nat) (ch : char) (st : state) : state :=
  if is_quote ch then
    if negb (inString st) then set_string st true (Some ch)
    else if bool_decide (stringChar st = Some ch) then
      let backslashes := count_backslashes i input (Z.of_nat i - 1) 0 in
      if (backslashes mod 2 =? 0)%nat then set_string st false None else st
    else st
  else st.

(** One round of the [for] loop at index [i] (with [i < input.length],
    [ch = input[i]]): the new state and the index of the next round,
    that is [i + 1], or [i + 2] where the body runs [i++]. *)
Definition body (input : str) (i : nat) (ch : char) (st : state) : state * nat :=
  let next := input !! (i + 1)%nat in
  if inLineComment st then
    if is_newline ch
    then (emit (set_inLineComment st false) ch, i + 1)%nat
    else (st, i + 1)%nat
  else if inBlockComment st then
    if (ch =? ch_star)%N && bool_decide (next = Some ch_slash)
    then (set_inBlockComment st false, i + 2)%nat
    else (st, i + 1)%nat
  else if negb (inString st) && (ch =? ch_slash)%N && bool_decide (next = Some ch_slash)
    then (set_inLineComment st true, i + 2)%nat
  else if negb (inString st) && (ch =? ch_slash)%N && bool_decide (next = Some ch_star)
    then (set_inBlockComment st true, i + 2)%nat
  else (emit (on_quote input i ch st) ch, i + 1)%nat.

(** [for (let i = 0; i < input.length; i++) { ... }] from index [i]. *)
Fixpoint loop (fuel : nat) (input : str) (i : nat) (st : state) : state :=
  match fuel with
  | O => st
  | S fuel' =>
      match input !! i with
      | None => st
      | Some ch => let '(st', i') := body input i ch st in loop fuel' input i' st'
      end
  end.

Definition stripJsonComments (input : str) : str :=
  output (loop (length input) input 0 initial).

End Strip.

(** ** The lexical structure of JSONC text

    The reference against which the stripper is checked.  A text is a
    sequence of segments: single characters of ordinary text, string
    literals (delimited by double or single quotes, with backslash
    escapes), line comments and block comments.  A string literal or a
    block comment that is not closed extends to the end of the text. *)

Module Lexical.

Inductive segment :=
| Plain (c : char)
| StringLit (q : char) (body : str) (closed : bool)
| LineComment (body : str)
| BlockComment (body : str) (closed : bool).

Definition source_of (s : segment) : str :=
  match s with
  | Plain c => [c]
  | StringLit q body closed => q :: body ++ (if closed then [q] else [])
  | LineComment body => ch_slash :: ch_slash :: body
  | BlockComment body closed =>
      ch_slash :: ch_star :: body ++ (if closed then [ch_star; ch_slash] else [])
  end.

(** What remains of a segment once comments are removed. *)
Definition kept_of (s : segment) : str :=
  match s with
  | Plain c => [c]
  | StringLit _ _ _ => source_of s
  | LineComment _ => []
  | BlockComment _ _ => []
  end.

Definition is_comment (s : segment) : bool :=
  match s with
  | LineComment _ | BlockComment _ _ => true
  | _ => false
  end.

Definition source (segs : list segment) : str := flat_map source_of segs.
Definition kept (segs : list segment) : str := flat_map kept_of segs.

(** The characters between the quotes of a string literal delimited by
    [q]: characters other than [q] and the backslash, and escape pairs
    (a backslash and the character after it).  An unclosed literal may
    end in a lone backslash ([dangling]). *)
Fixpoint string_body (dangling : bool) (q : char) (body : str) : bool :=
  match body with
  | [] => true
  | c :: r =>
      if (c =? ch_backslash)%N then
        match r with
        | [] => dangling
        | _ :: r' => string_body dangling q r'
        end
      else negb (c =? q)%N && string_body dangling q r
  end.

(** Whether the text contains the two characters that close a block comment. *)
Fixpoint has_block_end (s : str) : bool :=
  match s with
  | [] => false
  | c :: r =>
      ((c =? ch_star)%N && match r with c2 :: _ => (c2 =? ch_slash)%N | [] => false end)
      || has_block_end r
  end.

Definition is_nil (s : str) : bool := match s with [] => true | _ => false end.

(** [segment_ok s rest]: the segment [s] is well delimited when followed
    by the text [rest]. *)
Definition segment_ok (s : segment) (rest : str) : bool :=
  match s with
  | Plain c =>
      negb (Strip.is_quote c)
      && negb ((c =? ch_slash)%N
               && match rest with
                  | c2 :: _ => (c2 =? ch_slash)%N || (c2 =? ch_star)%N
                  | [] => false
                  end)
  | StringLit q body closed =>
      Strip.is_quote q && string_body (negb closed) q body && (closed || is_nil rest)
  | LineComment body =>
      forallb (fun c => negb (Strip.is_newline c)) body
      && match rest with c :: _ => Strip.is_newline c | [] => true end
  | BlockComment body closed =>
      negb (has_block_end body) && (closed || is_nil rest)
  end.

Fixpoint lexical (segs : list segment) : bool :=
  match segs with
  | [] => true
  | s :: r => segment_ok s (source r) && lexical r
  end.

(** The stripper as a scan over the remaining text.  [before] is the text
    already read, latest character first (the stripper looks back for
    backslashes when it meets a quote). *)
Inductive mode := Neutral | InString (q : char) | InLine | InBlock.

Fixpoint trailing_backslashes (before : str) : nat :=
  match before with
  | c :: r => if (c =? ch_backslash)%N then S (trailing_backslashes r) else O
  | [] => O
  end.

Fixpoint scan (before rest : str) (m : mode) {struct rest} : str :=
  match rest with
  | [] => []
  | ch :: r =>
      match m with
      | InLine =>
          if Strip.is_newline ch then ch :: scan (ch :: before) r Neutral
          else scan (ch :: before) r InLine
      | InBlock =>
          match r with
          | c2 :: r2 =>
              if (ch =? ch_star)%N && (c2 =? ch_slash)%N
              then scan (c2 :: ch :: before) r2 Neutral
              else scan (ch :: before) r InBlock
          | [] => []
          end
      | InString q =>
          if Strip.is_quote ch && (ch =? q)%N && (trailing_backslashes before mod 2 =? 0)%nat
          then ch :: scan (ch :: before) r Neutral
          else ch :: scan (ch :: before) r (InString q)
      | Neutral =>
          match r with
          | c2 :: r2 =>
              if (ch =? ch_slash)%N && (c2 =? ch_slash)%N
              then scan (c2 :: ch :: before) r2 InLine
              else if (ch =? ch_slash)%N && (c2 =? ch_star)%N
              then scan (c2 :: ch :: before) r2 InBlock
              else if Strip.is_quote ch then ch :: scan (ch :: before) r (InString ch)
              else ch :: scan (ch :: before) r Neutral
          | [] => [ch]
          end
      end
  end.

(** The values of the stripper's variables in each mode. *)
Definition state_of (m : mode) (out : str) : Strip.state :=
  match m with
  | Neutral => Strip.mkState out false None false false
  | InString q => Strip.mkState out true (Some q) false false
  | InLine => Strip.mkState out false None true false
  | InBlock => Strip.mkState out false None false true
  end.

End Lexical.

(** ** Regular expressions

    The two patterns of the font and theme managers that quantify over
    characters are run by a backtracking matcher, as JavaScript does.
    [m s k] tries the ways in which the pattern can match a prefix of
    [s], in priority order, and returns the first one for which the
    continuation [k] accepts the text that follows; the result is the
    text left after the whole match. *)

Module Regex.

Definition matcher := str -> (str -> option str) -> option str.

(** A literal. *)
Definition re_lit (l : str) : matcher :=
  fun s k => if startsWith s l then k (drop (length l) s) else None.

(** [c*] for a character class [c]: as many characters as possible,
    then fewer. *)
Fixpoint re_star (c : char -> bool) (s : str) (k : str -> option str) : option str :=
  match s with
  | x :: s' =>
      if c x then
        match re_star c s' k with
        | Some r => Some r
        | None => k s
        end
      else k s
  | [] => k s
  end.

(** [c+] *)
Definition re_plus (c : char -> bool) : matcher :=
  fun s k =>
    match s with
    | x :: s' => if c x then re_star c s' k else None
    | [] => None
    end.

(** [c*?]: as few characters as possible, then more. *)
Fixpoint re_star_lazy (c : char -> bool) (s : str) (k : str -> option str) : option str :=
  match k s with
  | Some r => Some r
  | None =>
      match s with
      | x :: s' => if c x then re_star_lazy c s' k else None
      | [] => None
      end
  end.

Definition re_seq (a b : matcher) : matcher :=
  fun s k => a s (fun s' => b s' k).

(** [$] without the [m] flag: the end of the text. *)
Definition re_end : matcher :=
  fun s k => match s with [] => k [] | _ :: _ => None end.

(** [s.replace(pattern, replacement)] for a pattern without the [g] flag:
    the leftmost match is replaced. *)
Fixpoint replace_first (m : matcher) (replacement : str) (s : str) : str :=
  match m s Some with
  | Some rest => replacement ++ rest
  | None =>
      match s with
      | x :: s' => x :: replace_first m replacement s'
      | [] => []
      end
  end.

End Regex.

(** ** JSON documents

    The values [JSON.parse] returns.  Numbers are only tested for being
    zero and for not being strings, so an integer stands for the
    double.  The fields of an object are kept in enumeration order. *)

#[local] Unset Elimination Schemes.
Inductive json :=
| JNull
| JBool (b : bool)
| JNum (n : Z)
| JStr (s : str)
| JArr (items : list json)
| JObj (fields : list (list N * json)).
#[local] Set Elimination Schemes.

Module Json.

(** [!!v] *)
Definition truthy (v : json) : bool :=
  match v with
  | JNull => false
  | JBool b => b
  | JNum n => negb (n =? 0)
  | JStr s => match s with [] => false | _ => true end
  | JArr _ | JObj _ => true
  end.

(** [!!v] for a value that may be [undefined]. *)
Definition truthy_opt (v : option json) : bool :=
  match v with Some v => truthy v | None => false end.

Fixpoint lookup_field (k : str) (fields : list (list N * json)) : option json :=
  match fields with
  | [] => None
  | (k', v) :: r => if bool_decide (k = k') then Some v else lookup_field k r
  end.

(** [obj[k] = v] on the own properties of an object: an existing key
    keeps its place, a new key goes last. *)
Fixpoint set_field (k : str) (v : json) (fields : list (list N * json)) : list (list N * json) :=
  match fields with
  | [] => [(k, v)]
  | (k', v') :: r =>
      if bool_decide (k = k') then (k, v) :: r else (k', v') :: set_field k v r
  end.

(** Reading a property [v.k] where [k] is not the name of a built-in
    property: [None] is [undefined]; the outer [None] is the TypeError
    raised on [null]. *)
Definition get (v : json) (k : str) : option (option json) :=
  match v with
  | JNull => None
  | JObj fields => Some (lookup_field k fields)
  | _ => Some None
  end.

End Json.

(** ** The host: Node's [path] module, [JSON] and [String.prototype.toLowerCase]

    These are library functions, not code of the extension: the model
    is parameterised by them. *)

Record host := mkHost {
  path_join : str -> str -> str;
  path_basename : str -> str;
  path_extname : str -> str;
  path_dirname : str -> str;
  toLowerCase : str -> str;
  JSON_parse : str -> option json;        (* None: SyntaxError *)
  JSON_stringify : json -> str            (* JSON.stringify(v, null, 2) *)
}.

(** ** The world: files, settings, and the user *)

Inductive node :=
| File (content : str)
| Dir.

Inductive severity := Information | Warning | Error.

(** What the user does when a dialog is shown. *)
Inductive answer :=
| Dismissed
| Button (label : str)
| Text (value : str)
| Uris (paths : list (list N))
| Picked (indexes : list nat).

Inductive exn :=
| IOError (path : str)
| SyntaxError
| TypeError
| ThrownError (message : str).

Record world := mkWorld {
  files : gmap (list N) node;
  workbenchFont : option str;           (* setting sh1ffy.workbenchFont *)
  colorTheme : option str;              (* setting workbench.colorTheme *)
  cachedWorkbenchPath : option str;     (* module variable of the font manager *)
  appRoot : str;                        (* vscode.env.appRoot *)
  answers : list answer;                (* the user's answers, in order *)
  shown : list (severity * list N);     (* messages shown, latest first *)
  reloads : nat                         (* workbench.action.reloadWindow commands run *)
}.

Definition with_files (w : world) (f : gmap (list N) node) : world :=
  mkWorld f (workbenchFont w) (colorTheme w) (cachedWorkbenchPath w) (appRoot w)
          (answers w) (shown w) (reloads w).

Definition with_workbenchFont (w : world) (v : option str) : world :=
  mkWorld (files w) v (colorTheme w) (cachedWorkbenchPath w) (appRoot w)
          (answers w) (shown w) (reloads w).

Definition with_colorTheme (w : world) (v : option str) : world :=
  mkWorld (files w) (workbenchFont w) v (cachedWorkbenchPath w) (appRoot w)
          (answers w) (shown w) (reloads w).

Definition with_cachedWorkbenchPath (w : world) (v : option str) : world :=
  mkWorld (files w) (workbenchFont w) (colorTheme w) v (appRoot w)
          (answers w) (shown w) (reloads w).

Definition with_answers (w : world) (a : list answer) : world :=
  mkWorld (files w) (workbenchFont w) (colorTheme w) (cachedWorkbenchPath w) (appRoot w)
          a (shown w) (reloads w).

Definition with_shown (w : world) (m : list (severity * list N)) : world :=
  mkWorld (files w) (workbenchFont w) (colorTheme w) (cachedWorkbenchPath w) (appRoot w)
          (answers w) m (reloads w).

Definition with_reloads (w : world) (n : nat) : world :=
  mkWorld (files w) (workbenchFont w) (colorTheme w) (cachedWorkbenchPath w) (appRoot w)
          (answers w) (shown w) n.

(** ** Computations: state and exceptions

    A computation runs in a world and either returns a value or throws;
    what it did to the world before throwing stays done. *)

Module Run.

Inductive outcome (A : Type) :=
| Ok (a : A)
| Throw (e : exn).
Arguments Ok {A} a.
Arguments Throw {A} e.

Definition M (A : Type) : Type := world -> outcome A * world.

Definition ret {A} (a : A) : M A := fun w => (Ok a, w).

Definition throw {A} (e : exn) : M A := fun w => (Throw e, w).

Definition bind {A B} (m : M A) (k : A -> M B) : M B :=
  fun w =>
    match m w with
    | (Ok a, w') => k a w'
    | (Throw e, w') => (Throw e, w')
    end.

(** [try { m } catch (error) { handler }] *)
Definition try_catch {A} (m : M A) (handler : exn -> M A) : M A :=
  fun w =>
    match m w with
    | (Ok a, w') => (Ok a, w')
    | (Throw e, w') => handler e w'
    end.

Definition get_world : M world := fun w => (Ok w, w).

Definition modify (f : world -> world) : M unit := fun w => (Ok tt, f w).

(** [for (const x of xs) { body }] *)
Fixpoint for_each {A} (xs : list A) (body : A -> M unit) : M unit :=
  match xs with
  | [] => ret tt
  | x :: r => bind (body x) (fun _ => for_each r body)
  end.

End Run.

Import Run.

Declare Scope run_scope.
Delimit Scope run_scope with run.
Notation "x <- m ;; k" := (bind m (fun x => k))
  (at level 100, m at next level, right associativity) : run_scope.
Notation "m ;;; k" := (bind m (fun _ => k))
  (at level 100, right associativity) : run_scope.
Open Scope run_scope.

Section Sh1ffy.

Variable h : host.

(** *** File system ([node:fs]) *)

Definition existsSync (p : str) : M bool :=
  fun w => (Ok (bool_decide (is_Some (files w !! p))), w).

Definition readFileSync (p : str) : M (list N) :=
  fun w =>
    match files w !! p with
    | Some (File content) => (Ok content, w)
    | _ => (Throw (IOError p), w)
    end.

(** A file can be written where a file already is, or where nothing is
    and the parent is a directory. *)
Definition writable (fs : gmap (list N) node) (p : str) : bool :=
  match fs !! p with
  | Some (File _) => true
  | Some Dir => false
  | None => match fs !! path_dirname h p with Some Dir => true | _ => false end
  end.

Definition writeFileSync (p data : str) : M unit :=
  fun w =>
    if writable (files w) p
    then (Ok tt, with_files w (<[p := File data]> (files w)))
    else (Throw (IOError p), w).

Definition unlinkSync (p : str) : M unit :=
  fun w =>
    match files w !! p with
    | Some (File _) => (Ok tt, with_files w (delete p (files w)))
    | _ => (Throw (IOError p), w)
    end.

Definition copyFileSync (src dst : str) : M unit :=
  data <- readFileSync src ;; writeFileSync dst data.

(** The directories [mkdir] makes with [recursive: true]: [p] and every
    directory above it that is missing, up to the first one that
    exists.  A file in the way is an error ([None]), and then nothing
    is made.  A path that is its own parent is a root of the file
    system: it is there without an entry and is never made.  Every
    round goes from a path to its parent; [fuel] bounds the rounds. *)
Fixpoint mkdirp (fuel : nat) (fs : gmap (list N) node) (p : str)
  : option (gmap (list N) node) :=
  match fs !! p with
  | Some Dir => Some fs
  | Some (File _) => None
  | None =>
      let parent := path_dirname h p in
      if bool_decide (parent = p) then Some fs
      else
        match fuel with
        | O => None
        | S fuel =>
            match mkdirp fuel fs parent with
            | Some fs' => Some (<[p := Dir]> fs')
            | None => None
            end
        end
  end.

(** [fs.mkdirSync(p, { recursive: true })].  A parent is shorter than
    its path, so [length p] rounds reach a directory that exists or a
    root. *)
Definition mkdirSync (p : str) : M unit :=
  fun w =>
    match mkdirp (length p) (files w) p with
    | Some fs => (Ok tt, with_files w fs)
    | None => (Throw (IOError p), w)
    end.

Definition is_file (n : node) : bool :=
  match n with File _ => true | Dir => false end.

(** The entries of directory [d]: name and [isFile()]. *)
Definition children (fs : gmap (list N) node) (d : str) : list (list N * bool) :=
  map (fun pn : list N * node => (path_basename h (fst pn), is_file (snd pn)))
      (List.filter
         (fun pn : list N * node =>
            bool_decide (path_dirname h (fst pn) = d) && negb (bool_decide (fst pn = d)))
         (map_to_list fs)).

(** [fs.readdirSync(d, { withFileTypes: true })] *)
Definition readdirSync (d : str) : M (list (list N * bool)) :=
  fun w =>
    match files w !! d with
    | Some Dir => (Ok (children (files w) d), w)
    | _ => (Throw (IOError d), w)
    end.

(** *** The editor's user interface ([vscode.window], [vscode.commands]) *)

Definition next_answer : M answer :=
  fun w =>
    match answers w with
    | [] => (Ok Dismissed, w)
    | a :: r => (Ok a, with_answers w r)
    end.

(** [show...Message(text, ...items)]: the item the user clicks, or
    [undefined].  A message without items waits for no answer. *)
Definition showMessage (sev : severity) (text : str) (items : list (list N))
  : M (option (list N)) :=
  modify (fun w => with_shown w ((sev, text) :: shown w)) ;;;
  match items with
  | [] => ret None
  | _ =>
      a <- next_answer ;;
      ret (match a with
           | Button l => if bool_decide (l ∈ items) then Some l else None
           | _ => None
           end)
  end.

Definition showInputBox : M (option (list N)) :=
  a <- next_answer ;;
  ret (match a with Text v => Some v | _ => None end).

Definition showOpenDialog : M (option (list (list N))) :=
  a <- next_answer ;;
  ret (match a with Uris l => Some l | _ => None end).

(** [showQuickPick(items, { canPickMany: true })]: the chosen items. *)
Definition showQuickPickMany {A} (items : list A) : M (option (list A)) :=
  a <- next_answer ;;
  ret (match a with
       | Picked ixs => Some (omap (fun i => items !! i) ixs)
       | _ => None
       end).

(** [showQuickPick(items)] whose result is not used. *)
Definition showQuickPickOne {A} (items : list A) : M unit :=
  _ <- next_answer ;; ret tt.

(** [vscode.commands.executeCommand("workbench.action.reloadWindow")] *)
Definition reloadWindow : M unit :=
  modify (fun w => with_reloads w (S (reloads w))).

Definition quoted (s : str) : str := [ch_quote] ++ s ++ [ch_quote].

(** ** The font manager *)

Definition STYLE_ID : str := lit "sh1ffy-tweaks".

Definition STYLE_TAG_OPEN : str := lit "<style id=" ++ quoted STYLE_ID ++ lit ">".

(** *** Configuration helpers *)

Definition getWorkbenchFont : M (option (list N)) :=
  fun w => (Ok (workbenchFont w), w).

Definition setWorkbenchFont (font : option str) : M unit :=
  modify (fun w => with_workbenchFont w font).

(** [!font] for a string that may be [undefined]. *)
Definition no_font (font : option str) : bool :=
  match font with
  | Some (_ :: _) => false
  | _ => true
  end.

(** *** Reload notification (font manager) *)

Definition font_showReloadNotification (message : str) : M unit :=
  action <- showMessage Information message [lit "Reload Window"] ;;
  if bool_decide (action = Some (lit "Reload Window")) then reloadWindow else ret tt.

(** *** Workbench HTML helpers *)

Definition getWorkbenchPath : M (list N) :=
  w <- get_world ;;
  match cachedWorkbenchPath w with
  | Some (c :: p) => ret (c :: p)
  | _ =>
      let sandboxRelative := lit "out/vs/code/electron-sandbox/workbench/workbench.html" in
      let browserRelative := lit "out/vs/code/electron-browser/workbench/workbench.html" in
      let resolved := path_join h (appRoot w) sandboxRelative in
      found <- existsSync resolved ;;
      let resolved := if found then resolved else path_join h (appRoot w) browserRelative in
      modify (fun w => with_cachedWorkbenchPath w (Some resolved)) ;;;
      ret resolved
  end.

Definition getWorkbenchHtml : M (list N) :=
  p <- getWorkbenchPath ;; readFileSync p.

Definition saveWorkbenchHtml (html : str) : M unit :=
  p <- getWorkbenchPath ;; writeFileSync p html.

(** [fontFamily.replace(/"/g, '\\"')] *)
Definition escape_quotes (s : str) : str :=
  flat_map (fun c => if (c =? ch_quote)%N then [ch_backslash; ch_quote] else [c]) s.

Definition lines (l : list (list N)) : str :=
  match l with
  | [] => []
  | x :: r => x ++ flat_map (fun y => ch_lf :: y) r
  end.

(** The template literal of [getStyleMarkup], before [.trim()]. *)
Definition css_template (safeFont : str) : str :=
  lines [ [];
          lit "*:not(";
          lit "  .monaco-editor-background,";
          lit "  .monaco-editor-background *,";
          lit "  .sticky-widget-lines-scrollable,";
          lit "  .sticky-widget-lines-scrollable *,";
          lit "  .notebookOverlay,";
          lit "  .notebookOverlay *";
          lit "),";
          lit ".extensions-search-container *,";
          lit ".settings-editor * {";
          lit "  font-family: " ++ quoted safeFont ++ lit ";";
          lit "}";
          [] ].

Definition getStyleMarkup (fontFamily : str) : str :=
  let safeFont := escape_quotes fontFamily in
  let css := trim (css_template safeFont) in
  lines [ lit "<style id=" ++ quoted STYLE_ID ++ lit ">";
          css;
          lit "</style>" ].

Definition injectStyle (html styleMarkup : str) : str :=
  let headCloseIndex := indexOf html (lit "</head>") in
  if headCloseIndex =? -1 then
    html ++ [ch_lf] ++ styleMarkup ++ [ch_lf]
  else
    slice html 0 (Some headCloseIndex) ++ styleMarkup ++ [ch_lf]
      ++ slice html headCloseIndex None.

(** The pattern [<style\s+id="sh1ffy-tweaks"[^>]*>[\s\S]*?<\/style>]. *)
Definition style_pattern : Regex.matcher :=
  Regex.re_seq (Regex.re_lit (lit "<style"))
 (Regex.re_seq (Regex.re_plus isSpace)
 (Regex.re_seq (Regex.re_lit (lit "id=" ++ quoted STYLE_ID))
 (Regex.re_seq (Regex.re_star (fun c => negb (c =? ch_gt)%N))
 (Regex.re_seq (Regex.re_lit (lit ">"))
 (Regex.re_seq (Regex.re_star_lazy (fun _ => true))
               (Regex.re_lit (lit "</style>"))))))).

Definition removeStyle (html : str) : str :=
  Regex.replace_first style_pattern [] html.

(** *** Action handlers *)

Definition handleReloadFontConfiguration : M unit :=
  font <- getWorkbenchFont ;;
  match font with
  | Some (c :: f) =>
      let font := c :: f in
      try_catch
        (html <- getWorkbenchHtml ;;
         let html := if includes html STYLE_TAG_OPEN then removeStyle html else html in
         let styleMarkup := getStyleMarkup font in
         let newHtml := injectStyle html styleMarkup in
         saveWorkbenchHtml newHtml ;;;
         font_showReloadNotification
           (lit "Sh1ffy: Workbench font reloaded with " ++ quoted font
            ++ lit ". Reload the window to see the result."))
        (fun _ =>
           _ <- showMessage Error
                  (lit "Sh1ffy: Failed to reload the workbench font configuration.") [] ;;
           ret tt)
  | _ =>
      _ <- showMessage Warning
             (lit "Sh1ffy: No workbench font is configured. Set one first.") [] ;;
      ret tt
  end.

(** [handleEnableCustomFont]; [onSetFont] is what the "Set font" button
    runs, that is [handleSetCustomFont]. *)
Definition enableCustomFont (onSetFont : M unit) : M unit :=
  font <- getWorkbenchFont ;;
  match font with
  | Some (c :: f) =>
      let font := c :: f in
      try_catch
        (html <- getWorkbenchHtml ;;
         if includes html STYLE_TAG_OPEN then
           _ <- showMessage Information
                  (lit "Sh1ffy: Workbench font tweaks are already enabled.") [] ;;
           ret tt
         else
           let styleMarkup := getStyleMarkup font in
           let newHtml := injectStyle html styleMarkup in
           saveWorkbenchHtml newHtml ;;;
           font_showReloadNotification
             (lit "Sh1ffy: Workbench font " ++ quoted font
              ++ lit " enabled. Reload the window to apply it."))
        (fun _ =>
           _ <- showMessage Error
                  (lit "Sh1ffy: Failed to enable the workbench font. See logs for details.") [] ;;
           ret tt)
  | _ =>
      action <- showMessage Warning (lit "Sh1ffy: No workbench font is configured.")
                  [lit "Set font"] ;;
      if bool_decide (action = Some (lit "Set font")) then onSetFont else ret tt
  end.

(** [handleSetCustomFont]; [onEnable] and [onReload] are the handlers
    run by the follow-up button. *)
Definition setCustomFont (onEnable onReload : M unit) : M unit :=
  _ <- getWorkbenchFont ;;
  value <- showInputBox ;;
  match value with
  | None => ret tt
  | Some value =>
      let trimmed := trim value in
      match trimmed with
      | [] =>
          _ <- showMessage Warning
                 (lit "Sh1ffy: Font name was empty. No changes were made.") [] ;;
          ret tt
      | _ :: _ =>
          setWorkbenchFont (Some trimmed) ;;;
          hasStyle <-
            try_catch
              (html <- getWorkbenchHtml ;; ret (Some (includes html STYLE_TAG_OPEN)))
              (fun _ =>
                 _ <- showMessage Information
                        (lit "Sh1ffy: Workbench font saved as " ++ quoted trimmed
                         ++ lit ". Use " ++ quoted (lit "Enable WorkBench Font")
                         ++ lit " from the Sh1ffy menu to apply it.") [] ;;
                 ret None) ;;
          match hasStyle with
          | None => ret tt
          | Some hasStyle =>
              let buttonLabel :=
                if hasStyle then lit "Reload with new font" else lit "Enable and reload" in
              let message :=
                if hasStyle
                then lit "Sh1ffy: Workbench font updated to " ++ quoted trimmed
                     ++ lit ". Reload to apply it now."
                else lit "Sh1ffy: Workbench font set to " ++ quoted trimmed
                     ++ lit ". Enable and reload to apply it." in
              action <- showMessage Information message [buttonLabel] ;;
              match action with
              | None => ret tt
              | Some _ => if hasStyle then onReload else onEnable
              end
          end
      end
  end.

(** The two handlers call each other.  [handleSetCustomFont] calls
    [handleEnableCustomFont] only after it has stored a non-empty font,
    so that call never reaches the "Set font" button again. *)
Definition handleSetCustomFont : M unit :=
  setCustomFont (enableCustomFont (ret tt)) handleReloadFontConfiguration.

Definition handleEnableCustomFont : M unit :=
  enableCustomFont handleSetCustomFont.

Definition handleDisableCustomFont : M unit :=
  try_catch
    (html <- getWorkbenchHtml ;;
     if negb (includes html STYLE_TAG_OPEN) then
       _ <- showMessage Information
              (lit "Sh1ffy: Workbench font tweaks are already disabled.") [] ;;
       ret tt
     else
       let newHtml := removeStyle html in
       saveWorkbenchHtml newHtml ;;;
       font_showReloadNotification
         (lit "Sh1ffy: Workbench font tweaks removed. Reload the window to revert the UI."))
    (fun _ =>
       _ <- showMessage Error
              (lit "Sh1ffy: Failed to disable the workbench font. See logs for details.") [] ;;
       ret tt).

Definition handleResetToDefaults : M unit :=
  confirmation <- showMessage Warning
                    (lit "Reset Sh1ffy workbench font configuration to defaults?")
                    [lit "Reset"] ;;
  if negb (bool_decide (confirmation = Some (lit "Reset"))) then ret tt
  else
    try_catch
      (setWorkbenchFont None ;;;
       changed <-
         try_catch
           (html <- getWorkbenchHtml ;;
            if includes html STYLE_TAG_OPEN then
              let newHtml := removeStyle html in
              saveWorkbenchHtml newHtml ;;; ret true
            else ret false)
           (fun _ => ret false) ;;
       if (changed : bool) then
         font_showReloadNotification
           (lit "Sh1ffy: Workbench font configuration reset. Reload the window to restore the default UI font.")
       else
         _ <- showMessage Information
                (lit "Sh1ffy: Workbench font configuration reset to defaults.") [] ;;
         ret tt)
      (fun _ =>
         _ <- showMessage Error
                (lit "Sh1ffy: Failed to reset the workbench font configuration.") [] ;;
         ret tt).

End Sh1ffy.

(** ** The theme manager *)

Record Sh1ffyThemeEntry := mkEntry {
  entry_id : str;
  entry_label : str;
  entry_uiTheme : str;
  entry_path : str;          (* relative to the extension root *)
  entry_typeLabel : str
}.

Definition THEME_LABEL_PREFIX : str := lit "sh1ffy " ++ [8226%N] ++ lit " ".
Definition THEMES_DIR_RELATIVE : str := lit "themes".
Definition SH1FFY_THEME_TAG : str := lit "sh1ffy-managed".
Definition PACKAGE_JSON_BACKUP : str := lit "package.json.sh1ffy.bak".

(** *** Utility helpers *)

(** [name.replace(/\.[^.]+$/, empty)]: the last extension is dropped. *)
Definition ext_pattern : Regex.matcher :=
  Regex.re_seq (Regex.re_lit [ch_dot])
 (Regex.re_seq (Regex.re_plus (fun c => negb (c =? ch_dot)%N)) Regex.re_end).

Definition strip_ext (name : str) : str := Regex.replace_first ext_pattern [] name.

Definition is_safe_char (c : char) : bool :=
  ((97 <=? c) && (c <=? 122) || (48 <=? c) && (c <=? 57))%N.

(** [s.replace(/[^a-z0-9]+/g, "-")]: each run of other characters
    becomes one dash. *)
Fixpoint dash_runs (in_run : bool) (s : str) : str :=
  match s with
  | [] => []
  | c :: r =>
      if is_safe_char c then c :: dash_runs false r
      else if in_run then dash_runs true r
      else 45%N :: dash_runs true r
  end.

Fixpoint drop_dashes (s : str) : str :=
  match s with
  | c :: r => if (c =? 45)%N then drop_dashes r else s
  | [] => []
  end.

(** [s.replace(/^-+|-+$/g, empty)]: leading and trailing dashes are dropped. *)
Definition trim_dashes (s : str) : str := rev (drop_dashes (rev (drop_dashes s))).

Section ThemeManager.

Variable h : host.

Definition toSafeId (input : str) : str :=
  trim_dashes (dash_runs false (toLowerCase h input)).

Definition setColorThemeById (themeId : str) : M unit :=
  modify (fun w => with_colorTheme w (Some themeId)).

(** The theme manager's own reload notification runs the reload
    command twice. *)
Definition theme_showReloadNotification (message : str) : M unit :=
  action <- showMessage Information message [lit "Reload Window"] ;;
  if bool_decide (action = Some (lit "Reload Window"))
  then reloadWindow ;;; reloadWindow
  else ret tt.

(** *** Theme file and contribution helpers *)

(** [{ ...value }] for an object or an array. *)
Definition spread (v : json) : list (list N * json) :=
  match v with
  | JObj fields => fields
  | JArr items => imap (fun i x => (decimal i, x)) items
  | _ => []
  end.

(** [typeof v === "string" && v.trim().length > 0 ? v : fallback] *)
Definition name_or (v : option json) (fallback : str) : str :=
  match v with
  | Some (JStr s) => match trim s with [] => fallback | _ :: _ => s end
  | _ => fallback
  end.

Definition normalizeThemeObject (themeObject : json) (fileName : str) : list (list N * json) :=
  let clone := spread themeObject in
  let baseNameFromFile := strip_ext fileName in
  let originalName := name_or (Json.lookup_field (lit "name") clone) baseNameFromFile in
  let prefixedName :=
    if startsWith originalName THEME_LABEL_PREFIX then originalName
    else THEME_LABEL_PREFIX ++ originalName in
  let clone := Json.set_field (lit "name") (JStr prefixedName) clone in
  if negb (Json.truthy_opt (Json.lookup_field (lit "type") clone))
     && negb (Json.truthy_opt (Json.lookup_field (lit "uiTheme") clone))
  then Json.set_field (lit "type") (JStr (lit "dark")) clone
  else clone.

(** A property read that throws on [null]. *)
Definition get_prop (v : json) (k : str) : M (option json) :=
  match Json.get v k with
  | Some r => ret r
  | None => throw TypeError
  end.

Definition parse_json (raw : str) : M json :=
  match JSON_parse h raw with
  | Some v => ret v
  | None => throw SyntaxError
  end.

(** The [switch] on [type.toLowerCase()]: [uiTheme] and [typeLabel]. *)
Definition classify (lowered : str) : list N * list N :=
  if bool_decide (lowered = lit "light") || bool_decide (lowered = lit "vs")
  then (lit "vs", lit "Light")
  else if bool_decide (lowered = lit "hc") || bool_decide (lowered = lit "hc-black")
          || bool_decide (lowered = lit "high-contrast")
  then (lit "hc-black", lit "High Contrast")
  else (lit "vs-dark", lit "Dark").

(** The body of the [try] block of [readImportedThemesFromDisk]. *)
Definition readThemeFile (themesDir fileName : str) : M Sh1ffyThemeEntry :=
  let filePath := path_join h themesDir fileName in
  raw <- readFileSync filePath ;;
  obj <- parse_json raw ;;
  name <- get_prop obj (lit "name") ;;
  let label := name_or name (strip_ext fileName) in
  let baseId := toSafeId label in
  let id := lit "sh1ffy." ++ baseId in
  ty <- get_prop obj (lit "type") ;;
  (* const type: string = obj.type ?? "dark"; type.toLowerCase() *)
  type <- match ty with
          | None | Some JNull => ret (lit "dark")
          | Some (JStr s) => ret s
          | Some _ => throw TypeError
          end ;;
  let '(uiTheme, typeLabel) := classify (toLowerCase h type) in
  let relativePath := path_join h THEMES_DIR_RELATIVE fileName in
  ret (mkEntry id label uiTheme
         (map (fun c => if (c =? ch_backslash)%N then ch_slash else c) relativePath)
         typeLabel).

(** A loop that pushes the result of each round that does not throw. *)
Fixpoint collect {A B} (xs : list A) (f : A -> M B) : M (list B) :=
  match xs with
  | [] => ret []
  | x :: r =>
      first <- try_catch (b <- f x ;; ret (Some b)) (fun _ => ret None) ;;
      rest <- collect r f ;;
      ret (match first with Some b => b :: rest | None => rest end)
  end.

Definition readImportedThemesFromDisk (extensionRoot : str) : M (list Sh1ffyThemeEntry) :=
  let themesDir := path_join h extensionRoot THEMES_DIR_RELATIVE in
  found <- existsSync themesDir ;;
  if negb found then ret []
  else
    entries <- readdirSync h themesDir ;;
    let files :=
      map fst (List.filter
                 (fun e : list N * bool => snd e && endsWith (fst e) (lit ".json"))
                 entries) in
    collect files (readThemeFile themesDir).

Definition readPackageJson (extensionRoot : str) : M json :=
  let pkgPath := path_join h extensionRoot (lit "package.json") in
  raw <- readFileSync pkgPath ;;
  parse_json raw.

Definition writePackageJson (extensionRoot : str) (pkg : json) : M unit :=
  let pkgPath := path_join h extensionRoot (lit "package.json") in
  let backupPath := path_join h extensionRoot PACKAGE_JSON_BACKUP in
  hasBackup <- existsSync backupPath ;;
  hasPkg <- existsSync pkgPath ;;
  (if negb hasBackup && hasPkg then copyFileSync h pkgPath backupPath else ret tt) ;;;
  let json := JSON_stringify h pkg in
  writeFileSync h pkgPath json.

(** [entry && entry._sh1ffyTag !== SH1FFY_THEME_TAG] *)
Definition keep_entry (entry : json) : bool :=
  Json.truthy entry
  && match Json.get entry (lit "_sh1ffyTag") with
     | Some (Some (JStr t)) => negb (bool_decide (t = SH1FFY_THEME_TAG))
     | _ => true
     end.

Definition contribution (theme : Sh1ffyThemeEntry) : json :=
  JObj [ (lit "id", JStr (entry_id theme));
         (lit "label", JStr (entry_label theme));
         (lit "uiTheme", JStr (entry_uiTheme theme));
         (lit "path", JStr (lit "./" ++ entry_path theme));
         (lit "_sh1ffyTag", JStr SH1FFY_THEME_TAG) ].

(** The package object after the assignments of
    [syncPackageJsonThemes], as [JSON.stringify] will see it; [None]
    where one of them raises a TypeError.

    - [pkg] is [null]: reading [pkg.contributes] throws.
    - [pkg] is another primitive: [pkg.contributes] is [undefined] and
      stays so; reading [pkg.contributes.themes] throws.
    - [pkg] is an array: the properties are set on the array object and
      are not serialised.
    - [pkg.contributes] is a truthy primitive: [themes] stays
      [undefined] and [existing.filter] throws.
    - [pkg.contributes] is an array: as for an array [pkg]. *)
Definition rebuild_package (pkg : json) (themesOnDisk : list Sh1ffyThemeEntry) : option json :=
  match pkg with
  | JNull | JBool _ | JNum _ | JStr _ => None
  | JArr _ => Some pkg
  | JObj fields =>
      let contributes :=
        match Json.lookup_field (lit "contributes") fields with
        | Some c => if Json.truthy c then c else JObj []
        | None => JObj []
        end in
      match contributes with
      | JObj cfields =>
          let existing :=
            match Json.lookup_field (lit "themes") cfields with
            | Some (JArr items) => items
            | _ => []
            end in
          let filtered := List.filter keep_entry existing in
          let sh1ffyEntries := map contribution themesOnDisk in
          let cfields := Json.set_field (lit "themes") (JArr (filtered ++ sh1ffyEntries)) cfields in
          Some (JObj (Json.set_field (lit "contributes") (JObj cfields) fields))
      | JArr _ => Some pkg
      | _ => None
      end
  end.

Definition syncPackageJsonThemes (extensionRoot : str) : M unit :=
  pkg <- readPackageJson extensionRoot ;;
  themesOnDisk <- readImportedThemesFromDisk extensionRoot ;;
  match rebuild_package pkg themesOnDisk with
  | Some pkg => writePackageJson extensionRoot pkg
  | None => throw TypeError
  end.

(** *** Core entrypoints *)

Definition is_object (v : json) : bool :=
  match v with JObj _ | JArr _ => true | _ => false end.

(** The body of the [try] block in the loop of [handleImportThemes]:
    the label of the imported theme, or [None] after [continue]. *)
Definition importThemeFile (themesDir : str) (existingThemes : list Sh1ffyThemeEntry)
    (uri : str) : M (option (list N)) :=
  let absolutePath := uri in
  let originalFileName := path_basename h absolutePath in
  let originalExt := toLowerCase h (path_extname h originalFileName) in
  fileContent <- readFileSync absolutePath ;;
  let stripped := Strip.stripJsonComments fileContent in
  themeObject <- parse_json stripped ;;
  if negb (is_object themeObject) then
    throw (ThrownError (lit "Theme file does not contain a valid JSON object."))
  else
    let normalized := normalizeThemeObject themeObject originalFileName in
    let json := JSON_stringify h (JObj normalized) in
    let targetExt := lit ".json" in
    let baseNameWithoutExt := strip_ext originalFileName in
    let targetFileName :=
      if bool_decide (originalExt = lit ".json") then originalFileName
      else baseNameWithoutExt ++ targetExt in
    let label :=
      match Json.lookup_field (lit "name") normalized with
      | Some (JStr s) => s
      | _ => baseNameWithoutExt
      end in
    let alreadyExisting :=
      List.find (fun t => bool_decide (entry_label t = label)) existingThemes in
    proceed <-
      match alreadyExisting with
      | Some _ =>
          decision <- showMessage Warning
                        (lit "A Sh1ffy theme named " ++ quoted label
                         ++ lit " already exists. Overwrite its file and contribution entry?")
                        [lit "Overwrite"; lit "Skip"] ;;
          ret (bool_decide (decision = Some (lit "Overwrite")))
      | None => ret true
      end ;;
    if negb proceed then ret None
    else
      let targetPath := path_join h themesDir targetFileName in
      writeFileSync h targetPath json ;;;
      ret (Some label).

(** The loop of [handleImportThemes]: the labels imported and the files
    that failed. *)
Fixpoint importLoop (themesDir : str) (existingThemes : list Sh1ffyThemeEntry)
    (uris : list (list N)) : M (list (list N) * list (list N)) :=
  match uris with
  | [] => ret ([], [])
  | uri :: r =>
      first <- try_catch
                 (l <- importThemeFile themesDir existingThemes uri ;; ret (inl l))
                 (fun _ => ret (inr uri)) ;;
      rest <- importLoop themesDir existingThemes r ;;
      ret (match first with
           | inl (Some label) => (label :: fst rest, snd rest)
           | inl None => rest
           | inr failed => (fst rest, failed :: snd rest)
           end)
  end.

Fixpoint join_with (sep : str) (l : list (list N)) : str :=
  match l with
  | [] => []
  | [x] => x
  | x :: r => x ++ sep ++ join_with sep r
  end.

Definition handleImportThemes (extensionRoot : str) : M unit :=
  uris <- showOpenDialog ;;
  match uris with
  | None | Some [] => ret tt
  | Some uris =>
      let themesDir := path_join h extensionRoot THEMES_DIR_RELATIVE in
      found <- existsSync themesDir ;;
      (if negb found then mkdirSync h themesDir else ret tt) ;;;
      existingThemes <- readImportedThemesFromDisk extensionRoot ;;
      imported <- importLoop themesDir existingThemes uris ;;
      let importedNames := fst imported in
      let errors := snd imported in
      syncPackageJsonThemes extensionRoot ;;;
      match importedNames with
      | [label] =>
          action <- showMessage Information
                      (lit "Sh1ffy: Imported theme " ++ quoted label ++ lit ".")
                      [lit "Apply now"; lit "Reload Window"] ;;
          if bool_decide (action = Some (lit "Apply now")) then
            try_catch
              (setColorThemeById label ;;;
               theme_showReloadNotification
                 (lit "Sh1ffy: Theme " ++ quoted label
                  ++ lit " applied. Reload the window to fully apply changes."))
              (fun _ =>
                 _ <- showMessage Error
                        (lit "Sh1ffy: Failed to apply the imported theme. See logs for details.") [] ;;
                 ret tt)
          else if bool_decide (action = Some (lit "Reload Window")) then
            reloadWindow ;;; reloadWindow
          else ret tt
      | _ :: _ :: _ =>
          theme_showReloadNotification
            (lit "Sh1ffy: Imported " ++ decimal (length importedNames)
             ++ lit " themes. Reload the window to see them in the Color Theme list.")
      | [] => ret tt
      end ;;;
      match errors with
      | [] => ret tt
      | _ :: _ =>
          _ <- showMessage Warning
                 (lit "Sh1ffy: Some themes could not be imported. See logs for details."
                  ++ [ch_lf] ++ lit "Files: " ++ join_with (lit ", ") errors) [] ;;
          ret tt
      end
  end.

(** The loop of [handleRemoveThemes] over the picked themes. *)
Definition removeThemeFile (extensionRoot themesDir : str) (theme : Sh1ffyThemeEntry) : M unit :=
  let absolutePath := path_join h extensionRoot (entry_path theme) in
  try_catch
    (found <- existsSync absolutePath ;;
     if startsWith absolutePath themesDir && found then unlinkSync absolutePath else ret tt)
    (fun _ => ret tt).

Definition handleRemoveThemes (extensionRoot : str) : M unit :=
  let themesDir := path_join h extensionRoot THEMES_DIR_RELATIVE in
  themes <- readImportedThemesFromDisk extensionRoot ;;
  match themes with
  | [] =>
      _ <- showMessage Information (lit "Sh1ffy: No imported themes found.") [] ;;
      ret tt
  | _ :: _ =>
      picks <- showQuickPickMany themes ;;
      match picks with
      | None | Some [] => ret tt
      | Some picks =>
          confirmation <-
            showMessage Warning
              (lit "Remove " ++ decimal (length picks)
               ++ lit " theme(s) from Sh1ffy? This will delete their files from the extension folder and remove their Color Theme entries.")
              [lit "Remove"] ;;
          if negb (bool_decide (confirmation = Some (lit "Remove"))) then ret tt
          else
            for_each picks (removeThemeFile extensionRoot themesDir) ;;;
            syncPackageJsonThemes extensionRoot ;;;
            theme_showReloadNotification
              (lit "Sh1ffy: Selected themes removed. Reload the window to update the Color Theme list.")
      end
  end.

Definition handleListThemes (extensionRoot : str) : M unit :=
  themes <- readImportedThemesFromDisk extensionRoot ;;
  match themes with
  | [] =>
      _ <- showMessage Information (lit "Sh1ffy: No imported themes found.") [] ;;
      ret tt
  | _ :: _ => showQuickPickOne themes
  end.

Definition handleRepairContributions (extensionRoot : str) : M unit :=
  try_catch
    (syncPackageJsonThemes extensionRoot ;;;
     theme_showReloadNotification
       (lit "Sh1ffy: Theme contributions repaired. Reload the window to apply changes."))
    (fun _ =>
       _ <- showMessage Error
              (lit "Sh1ffy: Failed to repair theme contributions. See logs for details.") [] ;;
       ret tt).

Definition handleRestorePackageJsonBackup (extensionRoot : str) : M unit :=
  let pkgPath := path_join h extensionRoot (lit "package.json") in
  let backupPath := path_join h extensionRoot PACKAGE_JSON_BACKUP in
  found <- existsSync backupPath ;;
  if negb found then
    _ <- showMessage Warning (lit "Sh1ffy: No package.json backup was found.") [] ;;
    ret tt
  else
    confirmation <-
      showMessage Warning
        (lit "Restore package.json from the Sh1ffy backup? This will overwrite the current package.json.")
        [lit "Restore"] ;;
    if negb (bool_decide (confirmation = Some (lit "Restore"))) then ret tt
    else
      try_catch
        (backupContents <- readFileSync backupPath ;;
         writeFileSync h pkgPath backupContents ;;;
         theme_showReloadNotification
           (lit "Sh1ffy: package.json restored from backup. Reload the window to apply changes."))
        (fun _ =>
           _ <- showMessage Error
                  (lit "Sh1ffy: Failed to restore package.json backup. See logs for details.") [] ;;
           ret tt).

End ThemeManager.

(** ** A reference host

    POSIX paths, ASCII case folding and a JSON reader and printer for
    documents whose numbers are integers.  The general theorems hold for
    every host; this one is used to run the model on concrete inputs. *)

Module Reference.

Fixpoint split_on (sep : char) (s : str) : list (list N) :=
  match s with
  | [] => [[]]
  | c :: r =>
      if (c =? sep)%N then [] :: split_on sep r
      else match split_on sep r with
           | seg :: segs => (c :: seg) :: segs
           | [] => [[c]]
           end
  end.

Definition join_segments (segs : list (list N)) : str :=
  match segs with
  | [] => []
  | x :: r => x ++ flat_map (fun y => ch_slash :: y) r
  end.

(** Node's [normalizeString]: [stack] holds the segments kept so far,
    latest first. *)
Fixpoint normalize_segments (allowAboveRoot : bool) (segs stack : list (list N))
  : list (list N) :=
  match segs with
  | [] => rev stack
  | seg :: r =>
      if bool_decide (seg = []) || bool_decide (seg = lit ".")
      then normalize_segments allowAboveRoot r stack
      else if bool_decide (seg = lit "..") then
        match stack with
        | top :: below =>
            if bool_decide (top = lit "..")
            then normalize_segments allowAboveRoot r (seg :: stack)
            else normalize_segments allowAboveRoot r below
        | [] =>
            if allowAboveRoot
            then normalize_segments allowAboveRoot r [seg]
            else normalize_segments allowAboveRoot r []
        end
      else normalize_segments allowAboveRoot r (seg :: stack)
  end.

Definition is_absolute (p : str) : bool :=
  match p with c :: _ => (c =? ch_slash)%N | [] => false end.

Definition normalize (p : str) : str :=
  match p with
  | [] => lit "."
  | _ =>
      let isAbsolute := is_absolute p in
      let trailingSeparator := is_absolute (rev p) in
      let body := join_segments (normalize_segments (negb isAbsolute) (split_on ch_slash p) []) in
      match body with
      | [] => if isAbsolute then lit "/" else if trailingSeparator then lit "./" else lit "."
      | _ =>
          (if isAbsolute then lit "/" else [])
          ++ body ++ (if trailingSeparator then lit "/" else [])
      end
  end.

Definition join (a b : str) : str :=
  match a, b with
  | [], [] => lit "."
  | [], _ => normalize b
  | _, [] => normalize a
  | _, _ => normalize (a ++ [ch_slash] ++ b)
  end.

Definition basename (p : str) : str :=
  match rev (List.filter (fun seg : list N => negb (bool_decide (seg = [])))
                         (split_on ch_slash p)) with
  | name :: _ => name
  | [] => []
  end.

(** The text from the last dot of [name], or nothing when there is no
    dot after the first character. *)
Fixpoint from_last_dot (name : str) : option (list N) :=
  match name with
  | [] => None
  | c :: r =>
      match from_last_dot r with
      | Some ext => Some ext
      | None => if (c =? ch_dot)%N then Some name else None
      end
  end.

Definition extname (p : str) : str :=
  let name := basename p in
  if bool_decide (name = lit "..") then []
  else match name with
       | [] => []
       | _ :: r => match from_last_dot r with Some ext => ext | None => [] end
       end.

Fixpoint drop_slashes (s : str) : str :=
  match s with
  | c :: r => if (c =? ch_slash)%N then drop_slashes r else s
  | [] => []
  end.

Fixpoint drop_to_slash (s : str) : str :=
  match s with
  | c :: r => if (c =? ch_slash)%N then s else drop_to_slash r
  | [] => []
  end.

Definition dirname (p : str) : str :=
  match p with
  | [] => lit "."
  | _ =>
      match drop_to_slash (drop_slashes (rev p)) with
      | [] => if is_absolute p then lit "/" else lit "."
      | _ :: above =>
          match above with
          | [] => lit "/"
          | _ => rev above
          end
      end
  end.

Definition lower (s : str) : str :=
  map (fun c => if ((65 <=? c) && (c <=? 90))%N then (c + 32)%N else c) s.

(** *** Printing JSON with an indentation of two spaces *)

Definition hex_digit (n : N) : char :=
  if (n <? 10)%N then (48 + n)%N else (87 + n)%N.

Definition escape_char (c : char) : str :=
  if (c =? ch_quote)%N then [ch_backslash; ch_quote]
  else if (c =? ch_backslash)%N then [ch_backslash; ch_backslash]
  else if (c =? 8)%N then lit "\b"
  else if (c =? 12)%N then lit "\f"
  else if (c =? ch_lf)%N then lit "\n"
  else if (c =? ch_cr)%N then lit "\r"
  else if (c =? 9)%N then lit "\t"
  else if (c <? 32)%N then lit "\u00" ++ [hex_digit (c / 16); hex_digit (c mod 16)]
  else [c].

Definition print_string (s : str) : str := quoted (flat_map escape_char s).

Definition print_number (n : Z) : str := lit (NilZero.string_of_int (Z.to_int n)).

Definition spaces (n : nat) : str := repeat 32%N n.

Definition bracket (opening closing : str) (indent : nat) (items : list (list N)) : str :=
  match items with
  | [] => opening ++ closing
  | _ =>
      opening ++ [ch_lf]
      ++ join_with ([44%N; ch_lf]) (map (fun x => spaces (indent + 2) ++ x) items)
      ++ [ch_lf] ++ spaces indent ++ closing
  end.

Fixpoint print (indent : nat) (v : json) : str :=
  match v with
  | JNull => lit "null"
  | JBool true => lit "true"
  | JBool false => lit "false"
  | JNum n => print_number n
  | JStr s => print_string s
  | JArr items =>
      bracket (lit "[") (lit "]") indent (map (print (indent + 2)) items)
  | JObj fields =>
      bracket (lit "{") (lit "}") indent
        (map (fun kv => let '(k, x) := kv in
                        print_string k ++ lit ": " ++ print (indent + 2) x) fields)
  end.

Definition stringify (v : json) : str := print 0 v.

(** *** Reading JSON *)

Definition is_ws (c : char) : bool :=
  ((c =? 32) || (c =? 9) || (c =? 10) || (c =? 13))%N.

Fixpoint skip_ws (s : str) : str :=
  match s with
  | c :: r => if is_ws c then skip_ws r else s
  | [] => []
  end.

Definition hex_value (c : char) : option N :=
  if ((48 <=? c) && (c <=? 57))%N then Some (c - 48)%N
  else if ((97 <=? c) && (c <=? 102))%N then Some (c - 87)%N
  else if ((65 <=? c) && (c <=? 70))%N then Some (c - 55)%N
  else None.

(** The characters of a string after its opening quote. *)
Fixpoint read_string (s acc : str) : option (list N * list N) :=
  match s with
  | [] => None
  | c :: r =>
      if (c =? ch_quote)%N then Some (rev acc, r)
      else if (c <? 32)%N then None
      else if (c =? ch_backslash)%N then
        match r with
        | e :: r' =>
            if (e =? ch_quote)%N || (e =? ch_backslash)%N || (e =? ch_slash)%N
            then read_string r' (e :: acc)
            else if (e =? 98)%N then read_string r' (8%N :: acc)
            else if (e =? 102)%N then read_string r' (12%N :: acc)
            else if (e =? 110)%N then read_string r' (ch_lf :: acc)
            else if (e =? 114)%N then read_string r' (ch_cr :: acc)
            else if (e =? 116)%N then read_string r' (9%N :: acc)
            else if (e =? 117)%N then
              match r' with
              | a :: b :: c' :: d :: r'' =>
                  match hex_value a, hex_value b, hex_value c', hex_value d with
                  | Some a, Some b, Some c', Some d =>
                      read_string r'' ((((a * 16 + b) * 16 + c') * 16 + d)%N :: acc)
                  | _, _, _, _ => None
                  end
              | _ => None
              end
            else None
        | [] => None
        end
      else read_string r (c :: acc)
  end.

Definition is_digit (c : char) : bool := ((48 <=? c) && (c <=? 57))%N.

Fixpoint read_digits (s : str) (acc : Z) : Z * list N :=
  match s with
  | c :: r => if is_digit c then read_digits r (acc * 10 + Z.of_N (c - 48)) else (acc, s)
  | [] => (acc, [])
  end.

(** An integer literal; a fraction or an exponent is not read. *)
Definition read_number (s : str) : option (Z * list N) :=
  let '(negative, s) :=
    match s with
    | c :: r => if (c =? 45)%N then (true, r) else (false, s)
    | [] => (false, s)
    end in
  match s with
  | c :: r =>
      if is_digit c then
        let '(n, rest) :=
          if (c =? 48)%N then (0, r) else read_digits s 0 in
        match rest with
        | x :: _ =>
            if is_digit x || (x =? 46)%N || (x =? 101)%N || (x =? 69)%N then None
            else Some (if negative then - n else n, rest)
        | [] => Some (if negative then - n else n, rest)
        end
      else None
  | [] => None
  end.

Fixpoint read_value (fuel : nat) (s : str) : option (json * list N) :=
  match fuel with
  | O => None
  | S fuel =>
      match skip_ws s with
      | [] => None
      | c :: r =>
          if (c =? ch_quote)%N then
            match read_string r [] with
            | Some (x, rest) => Some (JStr x, rest)
            | None => None
            end
          else if (c =? 91)%N then
            match skip_ws r with
            | 93%N :: rest => Some (JArr [], rest)
            | _ =>
                match read_items fuel r with
                | Some (items, rest) => Some (JArr items, rest)
                | None => None
                end
            end
          else if (c =? 123)%N then
            match skip_ws r with
            | 125%N :: rest => Some (JObj [], rest)
            | _ =>
                match read_members fuel r [] with
                | Some (fields, rest) => Some (JObj fields, rest)
                | None => None
                end
            end
          else if startsWith (c :: r) (lit "null") then Some (JNull, drop 4 (c :: r))
          else if startsWith (c :: r) (lit "true") then Some (JBool true, drop 4 (c :: r))
          else if startsWith (c :: r) (lit "false") then Some (JBool false, drop 5 (c :: r))
          else
            match read_number (c :: r) with
            | Some (n, rest) => Some (JNum n, rest)
            | None => None
            end
      end
  end
with read_items (fuel : nat) (s : str) : option (list json * list N) :=
  match fuel with
  | O => None
  | S fuel =>
      match read_value fuel s with
      | Some (v, rest) =>
          match skip_ws rest with
          | 44%N :: rest' =>
              match read_items fuel rest' with
              | Some (items, rest'') => Some (v :: items, rest'')
              | None => None
              end
          | 93%N :: rest' => Some ([v], rest')
          | _ => None
          end
      | None => None
      end
  end
with read_members (fuel : nat) (s : str) (acc : list (list N * json))
  : option (list (list N * json) * list N) :=
  match fuel with
  | O => None
  | S fuel =>
      match skip_ws s with
      | 34%N :: r =>
          match read_string r [] with
          | Some (k, rest) =>
              match skip_ws rest with
              | 58%N :: rest' =>
                  match read_value fuel rest' with
                  | Some (v, rest'') =>
                      let acc := Json.set_field k v acc in
                      match skip_ws rest'' with
                      | 44%N :: more => read_members fuel more acc
                      | 125%N :: after => Some (acc, after)
                      | _ => None
                      end
                  | None => None
                  end
              | _ => None
              end
          | None => None
          end
      | _ => None
      end
  end.

Definition parse (s : str) : option json :=
  match read_value (S (length s)) s with
  | Some (v, rest) => match skip_ws rest with [] => Some v | _ => None end
  | None => None
  end.

Definition posix : host :=
  mkHost join basename extname dirname lower parse stringify.

End Reference.

(** ** Auxiliary definitions for the statements *)

(** A JSONC text, segment by segment. *)
Definition sample_jsonc : list Lexical.segment :=
  [ Lexical.Plain 123%N; Lexical.StringLit ch_quote (lit "a//b") true; Lexical.Plain 58%N;
    Lexical.BlockComment (lit " x ") true; Lexical.Plain 49%N; Lexical.LineComment (lit " c");
    Lexical.Plain ch_lf; Lexical.Plain 125%N ].

(** [keeps R m]: running [m] takes every world to one related to it by [R]. *)
Definition keeps {A} (R : relation world) (m : M A) : Prop :=
  forall w, R w (snd (m w)).

(** The path [getWorkbenchPath] resolves in world [w]. *)
Definition workbenchPathOf (h : host) (w : world) : str :=
  match cachedWorkbenchPath w with
  | Some (c :: p) => c :: p
  | _ =>
      let sandbox :=
        path_join h (appRoot w) (lit "out/vs/code/electron-sandbox/workbench/workbench.html") in
      if bool_decide (is_Some (files w !! sandbox)) then sandbox
      else path_join h (appRoot w) (lit "out/vs/code/electron-browser/workbench/workbench.html")
  end.

(** The style rule of the injected block: the CSS of [getStyleMarkup]
    up to the font name, the (escaped) font name, and what follows it. *)
Definition css_before : str :=
  lines [ lit "*:not(";
          lit "  .monaco-editor-background,";
          lit "  .monaco-editor-background *,";
          lit "  .sticky-widget-lines-scrollable,";
          lit "  .sticky-widget-lines-scrollable *,";
          lit "  .notebookOverlay,";
          lit "  .notebookOverlay *";
          lit "),";
          lit ".extensions-search-container *,";
          lit ".settings-editor * {";
          lit "  font-family: " ++ [ch_quote] ].

Definition css_after : str := [ch_quote] ++ lit ";" ++ [ch_lf] ++ lit "}".

Definition css_rule (safeFont : str) : str := css_before ++ safeFont ++ css_after.

(** [p] occurs in [s]. *)
Definition occurs (p s : str) : Prop := exists pre post, s = pre ++ p ++ post.

(** The world after [getWorkbenchPath] has cached the path. *)
Definition cache_path (h : host) (w : world) : world :=
  with_cachedWorkbenchPath w (Some (workbenchPathOf h w)).

(** *** The paths the extension writes *)

(** The places where workbench.html can be: the two layouts under the
    application root, or the path already cached. *)
Definition font_paths (h : host) (w : world) (p : str) : Prop :=
  p = path_join h (appRoot w) (lit "out/vs/code/electron-sandbox/workbench/workbench.html")
  \/ p = path_join h (appRoot w) (lit "out/vs/code/electron-browser/workbench/workbench.html")
  \/ cachedWorkbenchPath w = Some p.

(** [only_touches_workbench h w w']: from [w] to [w'] nothing changed
    in the file system outside the places of workbench.html. *)
Definition only_touches_workbench (h : host) : relation world :=
  fun w w' =>
    appRoot w' = appRoot w
    /\ (forall p, cachedWorkbenchPath w' = Some p -> font_paths h w p)
    /\ (forall p, ~ font_paths h w p -> files w' !! p = files w !! p).

(** Steps that leave the files, the application root and the cached
    path alone. *)
Definition same_disk : relation world :=
  fun w w' => files w' = files w /\ appRoot w' = appRoot w
              /\ cachedWorkbenchPath w' = cachedWorkbenchPath w.

(** [changes_only S w w']: from [w] to [w'] every path outside [S]
    holds what it held. *)
Definition changes_only (S : str -> Prop) : relation world :=
  fun w w' => forall p, ~ S p -> files w' !! p = files w !! p.

(** package.json of the extension and its backup. *)
Definition package_paths (h : host) (extensionRoot : str) (p : str) : Prop :=
  p = path_join h extensionRoot (lit "package.json")
  \/ p = path_join h extensionRoot PACKAGE_JSON_BACKUP.

(** [d], its parent, the parent of its parent, and so on. *)
Definition at_or_above (h : host) (d p : str) : Prop :=
  exists n, p = Nat.iter n (path_dirname h) d.

(** The name under which [handleImportThemes] stores a file named
    [originalFileName]: the name itself when its extension is [.json]
    in any letter case, else the name with [.json] in place of its
    last extension. *)
Definition targetFileName (h : host) (originalFileName : str) : str :=
  if bool_decide (toLowerCase h (path_extname h originalFileName) = lit ".json")
  then originalFileName
  else strip_ext originalFileName ++ lit ".json".

(** The path at which [handleImportThemes] stores the file [uri]: the
    themes directory joined with the target name of the base name. *)
Definition import_target (h : host) (extensionRoot uri : str) : str :=
  path_join h (path_join h extensionRoot THEMES_DIR_RELATIVE)
            (targetFileName h (path_basename h uri)).

(** The paths [handleImportThemes] can change in world [w], package.json
    and its backup apart: the themes directory and the directories above
    it, where they are missing and no root, and for each file the user
    selects the path at which it is stored. *)
Definition import_paths (h : host) (extensionRoot : str) (w : world) (p : str) : Prop :=
  let themesDir := path_join h extensionRoot THEMES_DIR_RELATIVE in
  (at_or_above h themesDir p /\ files w !! p = None /\ path_dirname h p <> p)
  \/ (exists uris rest uri,
        answers w = Uris uris :: rest /\ uri ∈ uris
        /\ p = import_target h extensionRoot uri).

(** The paths [handleRemoveThemes] can change in world [w], package.json
    and its backup apart: for each theme the user picks, the extension
    root joined with the path stored in the entry, when that path passes
    the test of the handler. *)
Definition removal_paths (h : host) (extensionRoot : str) (w : world) (p : str) : Prop :=
  let themesDir := path_join h extensionRoot THEMES_DIR_RELATIVE in
  exists themes ixs rest i theme,
    fst (readImportedThemesFromDisk h extensionRoot w) = Ok themes
    /\ answers w = Picked ixs :: rest /\ i ∈ ixs /\ themes !! i = Some theme
    /\ p = path_join h extensionRoot (entry_path theme)
    /\ startsWith p themesDir = true.

(** *** Theme contributions *)

(** The entry is an object whose [_sh1ffyTag] is the Sh1ffy tag. *)
Definition carries_tag (entry : json) : bool :=
  match entry with
  | JObj fields =>
      match Json.lookup_field (lit "_sh1ffyTag") fields with
      | Some (JStr t) => bool_decide (t = SH1FFY_THEME_TAG)
      | _ => false
      end
  | _ => false
  end.

(** [pkg.contributes.themes], when it is an array. *)
Definition themes_of (pkg : json) : list json :=
  match pkg with
  | JObj fields =>
      match Json.lookup_field (lit "contributes") fields with
      | Some (JObj cfields) =>
          match Json.lookup_field (lit "themes") cfields with
          | Some (JArr items) => items
          | _ => []
          end
      | _ => []
      end
  | _ => []
  end.

(** *** Concrete worlds *)

Module Demo.

Definition host := Reference.posix.

Definition extensionRoot : str := lit "/ext".
Definition pkgPath : str := lit "/ext/package.json".
Definition backupPath : str := lit "/ext/package.json.sh1ffy.bak".
Definition themesDir : str := lit "/ext/themes".
Definition workbenchPath : str :=
  lit "/app/out/vs/code/electron-sandbox/workbench/workbench.html".

(** [{"name": "sh1ffy"}] *)
Definition package_text : str :=
  lit "{" ++ quoted (lit "name") ++ lit ": " ++ quoted (lit "sh1ffy") ++ lit "}".

Definition world_of (fs : list (list N * node)) (font : option str) (ans : list answer)
  : world :=
  mkWorld (list_to_map fs) font None None (lit "/app") ans [] 0.

(** An installed extension without imported themes, and the editor. *)
Definition installed : list (list N * node) :=
  [ (lit "/ext", Dir);
    (pkgPath, File package_text);
    (lit "/app/out/vs/code/electron-sandbox/workbench", Dir);
    (workbenchPath, File (lit "<html><head></head><body></body></html>")) ].

(** The user enables the font "Fira Code". *)
Definition enabling : world := world_of installed (Some (lit "Fira Code")) [].

(** The user enables a font whose name holds double quotes:
    [My "Font"]. *)
Definition enabling_quoted : world :=
  world_of installed (Some (lit "My " ++ quoted (lit "Font"))) [].

(** The user imports [/home/me/night.jsonc]. *)
Definition importing_jsonc : world :=
  world_of (installed ++
            [ (lit "/home/me", Dir);
              (lit "/home/me/night.jsonc",
               File (lit "{ // my theme" ++ [ch_lf] ++ quoted (lit "type") ++ lit ": "
                     ++ quoted (lit "light") ++ lit " }")) ])
           None [Uris [lit "/home/me/night.jsonc"]].

(** The user imports [/home/me/Night.JSON], a file holding [{}]. *)
Definition importing_uppercase : world :=
  world_of (installed ++
            [ (lit "/home/me", Dir);
              (lit "/home/me/Night.JSON", File (lit "{}")) ])
           None [Uris [lit "/home/me/Night.JSON"]].

(** One imported theme; the user picks it and confirms its removal. *)
Definition removing : world :=
  world_of (installed ++
            [ (themesDir, Dir);
              (lit "/ext/themes/a.json", File (lit "{}")) ])
           None [Picked [0%nat]; Button (lit "Remove")].

(** The themes directory holds a file whose name contains backslashes,
    next to a directory [themes-old]; the user picks that theme and
    confirms its removal. *)
Definition removing_outside : world :=
  world_of (installed ++
            [ (themesDir, Dir);
              (lit "/ext/themes/..\themes-old\x.json", File (lit "{}"));
              (lit "/ext/themes-old", Dir);
              (lit "/ext/themes-old/x.json", File (lit "{}")) ])
           None [Picked [0%nat]; Button (lit "Remove")].

(** The user repairs the theme contributions. *)
Definition repairing : world := world_of installed None [].

(** After the repair, the user restores the backup. *)
Definition restoring : world :=
  with_answers (snd (handleRepairContributions host extensionRoot repairing))
               [Button (lit "Restore")].

(** package.json is [{"contributes": {"themes": [null]}}]. *)
Definition null_entry_text : str :=
  lit "{" ++ quoted (lit "contributes") ++ lit ": {" ++ quoted (lit "themes")
  ++ lit ": [null]}}".

Definition repairing_null_entry : world :=
  world_of [ (lit "/ext", Dir); (pkgPath, File null_entry_text) ] None [].

(** package.json lists a theme of the extension itself, and one theme
    has been imported. *)
Definition own_theme_text : str :=
  lit "{" ++ quoted (lit "contributes") ++ lit ": {" ++ quoted (lit "themes")
  ++ lit ": [{" ++ quoted (lit "label") ++ lit ": " ++ quoted (lit "Own") ++ lit "}]}}".

Definition syncing : world :=
  world_of [ (lit "/ext", Dir); (pkgPath, File own_theme_text);
             (themesDir, Dir); (lit "/ext/themes/a.json", File (lit "{}")) ] None [].

(** What [syncing] holds: the parsed package.json, the themes on disk,
    and the package.json object rebuilt from them. *)
Definition syncing_pkg : json := Eval vm_compute in
    match fst (readPackageJson host extensionRoot syncing) with
    | Ok pkg => pkg
    | _ => JNull
    end.

Definition syncing_themes : list Sh1ffyThemeEntry := Eval vm_compute in
    match fst (readImportedThemesFromDisk host extensionRoot syncing) with
    | Ok themes => themes
    | _ => []
    end.

Definition syncing_pkg1 : json := Eval vm_compute in
    match rebuild_package syncing_pkg syncing_themes with
    | Some pkg1 => pkg1
    | None => JNull
    end.

(** A workbench HTML with a style element of the Sh1ffy id written
    with a space before the closing bracket. *)
Definition html_with_variant_tag : str :=
  lit "<style id=" ++ quoted STYLE_ID ++ lit " ></style>".

End Demo.

(** *** The removal pattern, stage by stage *)

(** The text after the first occurrence of [p]. *)
Fixpoint after_first (p s : str) : option (list N) :=
  if startsWith s p then Some (drop (length p) s)
  else match s with
       | [] => None
       | _ :: s' => after_first p s'
       end.

(** The text after the first closing bracket. *)
Fixpoint after_gt (s : str) : option (list N) :=
  match s with
  | [] => None
  | c :: s' => if (c =? ch_gt)%N then Some s' else after_gt s'
  end.

Definition STYLE_ATTR : str := lit "id=" ++ quoted STYLE_ID.

(** The text after an opening [<style], white space and the id attribute. *)
Definition after_open (s : str) : option (list N) :=
  if startsWith s (lit "<style") then
    match drop 6 s with
    | c :: s1 =>
        if isSpace c then
          let s2 := trimStart s1 in
          if startsWith s2 STYLE_ATTR then Some (drop (length STYLE_ATTR) s2) else None
        else None
    | [] => None
    end
  else None.

(** What is left of [s] after a match of the removal pattern at its start. *)
Definition match_style (s : str) : option (list N) :=
  match after_open s with
  | Some s3 =>
      match after_gt s3 with
      | Some s5 => after_first (lit "</style>") s5
      | None => None
      end
  | None => None
  end.

(** The marker without its closing bracket. *)
Definition STYLE_TAG_UNCLOSED : str := lit "<style id=" ++ quoted STYLE_ID.

(** The first character of [y] is none of the characters of [p] after
    the first: no occurrence of [p] can start before [y] and end in it. *)
Definition no_overrun (p y : str) : Prop :=
  match y with
  | [] => True
  | c :: _ => c ∉ tail p
  end.

(** [y] can follow a text without completing an opening style tag
    begun in it. *)
Definition follows_cleanly (y : str) : Prop :=
  no_overrun (lit "<style") y /\ no_overrun STYLE_ATTR y
  /\ startsWith (trimStart y) STYLE_ATTR = false.

(** What the removal leaves of the injected block: nothing, or, when the
    (escaped) font name itself holds a closing style tag, what comes
    after the first one, since the removal stops at that tag: the rest
    of the font name and the rest of the block. *)
Definition leftover (safeFont : str) : str :=
  match after_first (lit "</style>") safeFont with
  | Some rest => rest ++ css_after ++ ch_lf :: lit "</style>"
  | None => []
  end.

(** Every double quote has a backslash before it. *)
Definition quotes_escaped (s : str) : Prop :=
  forall a b, s = a ++ ch_quote :: b -> exists a', a = a' ++ [ch_backslash].

(** [Escaped s e]: [e] is [s] with a backslash put before each double
    quote, and nothing else changed. *)
Inductive Escaped : str -> str -> Prop :=
| Escaped_nil : Escaped [] []
| Escaped_quote s e :
    Escaped s e -> Escaped (ch_quote :: s) (ch_backslash :: ch_quote :: e)
| Escaped_other c s e :
    c <> ch_quote -> Escaped s e -> Escaped (c :: s) (c :: e).

(** What precedes the injected block in [injectStyle]'s result is
    nothing or a newline. *)
Definition is_gap (gap : str) : Prop := gap = [] \/ gap = [ch_lf].


(** *** Identifiers *)

(** The characters an identifier made by [toSafeId] consists of. *)
Definition is_id_char (c : char) : bool := is_safe_char c || (c =? 45)%N.

(** An identifier as [toSafeId] makes them: lower-case letters, digits
    and single dashes between them. *)
Definition safe_id (s : str) : Prop :=
  Forall (fun c => is_id_char c = true) s
  /\ head s <> Some 45%N
  /\ last s <> Some 45%N
  /\ ~ occurs [45%N; 45%N] s.

(** *** Settings *)

(** Steps that leave the font setting alone, the colour theme setting
    alone, or both. *)
Definition same_font : relation world :=
  fun w w' => workbenchFont w' = workbenchFont w.

Definition same_colorTheme : relation world :=
  fun w w' => colorTheme w' = colorTheme w.

Definition same_settings : relation world :=
  fun w w' => same_font w w' /\ same_colorTheme w w'.

(** Steps that only talk to the user: nothing changes but the answers
    still to come and the messages shown. *)
Definition only_talks : relation world :=
  fun w w' =>
    files w' = files w /\ workbenchFont w' = workbenchFont w
    /\ colorTheme w' = colorTheme w
    /\ cachedWorkbenchPath w' = cachedWorkbenchPath w
    /\ appRoot w' = appRoot w /\ reloads w' = reloads w.

(** *** Theme entries *)



(** ** The entry point ([extension.ts]) and the action lists *)

(** [showQuickPick(items)] for one item: the item chosen, or
    [undefined]. *)
Definition showQuickPick {A} (items : list A) : M (option A) :=
  a <- next_answer ;;
  ret (match a with
       | Picked [i] => items !! i
       | _ => None
       end).

Record FontAction := mkFontAction {
  font_action_id : str;
  font_action_label : str;
  font_action_description : str;
  font_action_handler : M unit
}.

Record ThemeAction := mkThemeAction {
  theme_action_id : str;
  theme_action_label : str;
  theme_action_description : str;
  theme_action_handler : str -> M unit    (* from the extension root of the context *)
}.

Definition getFontActions (h : host) : list FontAction :=
  [ mkFontAction (lit "set") (lit "Set WorkBench Font")
      (lit "Choose the workbench UI font family") (handleSetCustomFont h);
    mkFontAction (lit "enable") (lit "Enable WorkBench Font")
      (lit "Apply Sh1ffy font tweaks to the workbench UI") (handleEnableCustomFont h);
    mkFontAction (lit "disable") (lit "Disable WorkBench Font")
      (lit "Remove Sh1ffy font tweaks from the workbench UI") (handleDisableCustomFont h);
    mkFontAction (lit "reload") (lit "Reload Font Configuration")
      (lit "Reapply the current Sh1ffy workbench font configuration")
      (handleReloadFontConfiguration h);
    mkFontAction (lit "reset") (lit "Reset to Defaults")
      (lit "Clear Sh1ffy font configuration and restore default UI font")
      (handleResetToDefaults h) ].

Definition getThemeActions (h : host) : list ThemeAction :=
  [ mkThemeAction (lit "import") (lit "Import Theme(s)")
      (lit "Import JSON/JSONC color themes into Sh1ffy") (handleImportThemes h);
    mkThemeAction (lit "remove") (lit "Remove Theme(s)")
      (lit "Remove previously imported Sh1ffy themes") (handleRemoveThemes h);
    mkThemeAction (lit "list") (lit "List Themes")
      (lit "Show currently imported Sh1ffy themes with metadata") (handleListThemes h);
    mkThemeAction (lit "repair") (lit "Repair Theme Contributions")
      (lit "Rescan the themes folder and fix package.json theme entries")
      (handleRepairContributions h);
    mkThemeAction (lit "restorePackageJson") (lit "Restore package.json Backup")
      (lit "Restore the original package.json from the Sh1ffy backup")
      (handleRestorePackageJsonBackup h) ].

(** The command [sh1ffy.workbenchFontActions]. *)
Definition workbenchFontActions (h : host) : M unit :=
  let actions := getFontActions h in
  picked <- showQuickPick
              (map (fun action =>
                      (font_action_label action, font_action_description action, action))
                   actions) ;;
  match picked with
  | None => ret tt
  | Some (_, _, action) => font_action_handler action
  end.

(** The command [sh1ffy.colorThemeActions]; [extensionRoot] is
    [context.extensionUri.fsPath]. *)
Definition colorThemeActions (h : host) (extensionRoot : str) : M unit :=
  let actions := getThemeActions h in
  picked <- showQuickPick
              (map (fun action =>
                      (theme_action_label action, theme_action_description action, action))
                   actions) ;;
  match picked with
  | None => ret tt
  | Some (_, _, action) => theme_action_handler action extensionRoot
  end.

(** *** Finer frames *)

(** Steps that create and change no file: what is there afterwards was
    there before. *)
Definition only_deletes : relation world :=
  fun w w' => forall p n, files w' !! p = Some n -> files w !! p = Some n.

(** The paths the action at place [i] of the theme menu can change when
    it runs in world [w], the world after the menu: those of the
    import, of the removal, none for the listing, package.json and its
    backup for the repair, package.json for the restore. *)
Definition theme_action_paths (h : host) (extensionRoot : str) (i : nat) (w : world)
    (p : str) : Prop :=
  match i with
  | 0%nat => import_paths h extensionRoot w p \/ package_paths h extensionRoot p
  | 1%nat => removal_paths h extensionRoot w p \/ package_paths h extensionRoot p
  | 3%nat => package_paths h extensionRoot p
  | 4%nat => p = path_join h extensionRoot (lit "package.json")
  | _ => False
  end.

(** The entry [theme] is what the scan of the themes directory reads
    from its file [fileName] in world [w]. *)
Definition read_from (h : host) (extensionRoot : str) (w : world)
    (theme : Sh1ffyThemeEntry) (fileName : str) : Prop :=
  let themesDir := path_join h extensionRoot THEMES_DIR_RELATIVE in
  (exists content, files w !! path_join h themesDir fileName = Some (File content))
  /\ fst (readThemeFile h themesDir fileName w) = Ok theme.
(** * Properties *)

(** ** The comment stripper *)

Section StripFacts.
Import Strip Lexical.

Lemma count_backslashes_trailing rounds input (k acc : nat) :
  (k <= rounds)%nat -> (k <= length input)%nat ->
  count_backslashes rounds input (Z.of_nat k - 1) acc
  = (acc + trailing_backslashes (rev (take k input)))%nat.
Proof.
  revert k acc. induction rounds as [|rounds IH]; intros k acc Hk Hlen.
  - assert (k = O) by lia. subst. simpl. lia.
  - destruct k as [|k].
    + simpl. lia.
    + cbn [count_backslashes].
      replace (Z.of_nat (S k) - 1) with (Z.of_nat k) by lia.
      rewrite Nat2Z.id.
      destruct (lookup_lt_is_Some_2 input k ltac:(lia)) as [c Hc].
      rewrite (take_S_r _ _ _ Hc), rev_app_distr. cbn [rev app trailing_backslashes].
      rewrite Hc.
      replace (0 <=? Z.of_nat k) with true by (symmetry; apply Z.leb_le; lia).
      cbn [andb].
      destruct (N.eqb_spec c ch_backslash) as [->|Hne].
      * rewrite bool_decide_eq_true_2 by reflexivity.
        replace (Z.of_nat k) with (Z.of_nat k - 1 + 1) at 1 by lia.
        replace (Z.of_nat k - 1 + 1) with (Z.of_nat k) by lia.
        rewrite IH by lia. lia.
      * rewrite bool_decide_eq_false_2 by congruence. lia.
Qed.
Lemma drop_lookup_cons (input : str) i ch :
  input !! i = Some ch -> drop i input = ch :: drop (S i) input.
Proof. intros H. by apply drop_S. Qed.

Lemma drop_lookup_nil (input : str) i :
  input !! i = None -> drop i input = [].
Proof. intros H. apply drop_ge. by apply lookup_ge_None. Qed.

Lemma rev_take_S (input : str) i ch :
  input !! i = Some ch -> rev (take (S i) input) = ch :: rev (take i input).
Proof. intros H. by rewrite (take_S_r _ _ _ H), rev_app_distr. Qed.

Lemma emit_on_quote_neutral input i ch out :
  emit (on_quote input i ch (state_of Neutral out)) ch
  = state_of (if is_quote ch then InString ch else Neutral) (out ++ [ch]).
Proof. unfold on_quote. by destruct (is_quote ch). Qed.

Lemma emit_on_quote_string input i ch q out :
  (i <= length input)%nat ->
  emit (on_quote input i ch (state_of (InString q) out)) ch
  = state_of (if is_quote ch && (ch =? q)%N
                 && (trailing_backslashes (rev (take i input)) mod 2 =? 0)%nat
              then Neutral else InString q) (out ++ [ch]).
Proof.
  intros Hi. unfold on_quote. cbn [inString stringChar state_of negb].
  destruct (is_quote ch); [|reflexivity]. cbn [andb].
  destruct (N.eqb_spec ch q) as [->|Hne]; cbn [andb].
  - rewrite bool_decide_eq_true_2 by reflexivity.
    rewrite (count_backslashes_trailing i input i 0) by lia. cbn [Nat.add].
    by destruct (_ =? 0)%nat.
  - by rewrite bool_decide_eq_false_2 by congruence.
Qed.

Lemma scan_neutral_2 b ch c2 r2 :
  scan b (ch :: c2 :: r2) Neutral
  = if (ch =? ch_slash)%N && (c2 =? ch_slash)%N then scan (c2 :: ch :: b) r2 InLine
    else if (ch =? ch_slash)%N && (c2 =? ch_star)%N then scan (c2 :: ch :: b) r2 InBlock
    else if is_quote ch then ch :: scan (ch :: b) (c2 :: r2) (InString ch)
    else ch :: scan (ch :: b) (c2 :: r2) Neutral.
Proof. reflexivity. Qed.

Lemma scan_neutral_1 b ch : scan b [ch] Neutral = [ch].
Proof. reflexivity. Qed.

Lemma scan_string b ch r q :
  scan b (ch :: r) (InString q)
  = if is_quote ch && (ch =? q)%N && (trailing_backslashes b mod 2 =? 0)%nat
    then ch :: scan (ch :: b) r Neutral
    else ch :: scan (ch :: b) r (InString q).
Proof. reflexivity. Qed.

Lemma scan_line b ch r :
  scan b (ch :: r) InLine
  = if is_newline ch then ch :: scan (ch :: b) r Neutral else scan (ch :: b) r InLine.
Proof. reflexivity. Qed.

Lemma scan_block_2 b ch c2 r2 :
  scan b (ch :: c2 :: r2) InBlock
  = if (ch =? ch_star)%N && (c2 =? ch_slash)%N then scan (c2 :: ch :: b) r2 Neutral
    else scan (ch :: b) (c2 :: r2) InBlock.
Proof. reflexivity. Qed.

Lemma scan_block_1 b ch : scan b [ch] InBlock = [].
Proof. reflexivity. Qed.

Lemma scan_nil b m : scan b [] m = [].
Proof. by destruct m. Qed.

Ltac refold_state :=
  repeat match goal with
  | |- context [mkState ?o false None false false] =>
      change (mkState o false None false false) with (state_of Neutral o)
  | |- context [mkState ?o true (Some ?q) false false] =>
      change (mkState o true (Some q) false false) with (state_of (InString q) o)
  | |- context [mkState ?o false None true false] =>
      change (mkState o false None true false) with (state_of InLine o)
  | |- context [mkState ?o false None false true] =>
      change (mkState o false None false true) with (state_of InBlock o)
  end.

Lemma loop_scan fuel input i m out :
  (length input <= i + fuel)%nat -> (i <= length input)%nat ->
  output (loop fuel input i (state_of m out))
  = out ++ scan (rev (take i input)) (drop i input) m.
Proof.
  revert i m out. induction fuel as [|fuel IH]; intros i m out Hfuel Hi.
  - rewrite drop_ge by lia. rewrite scan_nil, app_nil_r. by destruct m.
  - cbn [loop]. destruct (input !! i) as [ch|] eqn:Hch.
    2:{ rewrite (drop_lookup_nil _ _ Hch), scan_nil, app_nil_r. by destruct m. }
    assert (Hlt : (i < length input)%nat) by (by eapply lookup_lt_Some).
    rewrite (drop_lookup_cons _ _ _ Hch).
    assert (Hstep : forall m' out',
              output (loop fuel input (i + 1) (state_of m' out'))
              = out' ++ scan (ch :: rev (take i input)) (drop (S i) input) m').
    { intros m' out'. replace (i + 1)%nat with (S i) by lia.
      rewrite IH by lia. by rewrite (rev_take_S _ _ _ Hch). }
    destruct (input !! (i + 1)%nat) as [c2|] eqn:H2.
    + (* a next character exists *)
      replace (i + 1)%nat with (S i) in H2 by lia.
      assert (Hd : drop (S i) input = c2 :: drop (S (S i)) input)
        by (by apply drop_lookup_cons).
      assert (Hstep2 : forall m' out',
              output (loop fuel input (i + 2) (state_of m' out'))
              = out' ++ scan (c2 :: ch :: rev (take i input)) (drop (S (S i)) input) m').
      { intros m' out'. replace (i + 2)%nat with (S (S i)) by lia.
        apply lookup_lt_Some in H2 as Hl.
        rewrite IH by lia.
        by rewrite (rev_take_S _ _ _ H2), (rev_take_S _ _ _ Hch). }
      unfold body. replace (input !! (i + 1)%nat) with (Some c2)
        by (by replace (i + 1)%nat with (S i) by lia).
      rewrite Hd.
      destruct m as [|q| |];
        cbn [state_of inLineComment inBlockComment inString negb andb]; refold_state.
      * rewrite scan_neutral_2.
        destruct (N.eqb_spec ch ch_slash) as [->|Hne]; cbn [andb].
        -- destruct (N.eqb_spec c2 ch_slash) as [->|Hne2].
           { rewrite bool_decide_eq_true_2 by reflexivity. apply (Hstep2 InLine out). }
           rewrite bool_decide_eq_false_2 by congruence.
           destruct (N.eqb_spec c2 ch_star) as [->|Hne3].
           { rewrite bool_decide_eq_true_2 by reflexivity. apply (Hstep2 InBlock out). }
           rewrite bool_decide_eq_false_2 by congruence.
           rewrite (emit_on_quote_neutral input i ch_slash out).
           change (is_quote ch_slash) with false. cbv iota.
           rewrite Hstep, Hd. by rewrite <- app_assoc.
        -- rewrite (emit_on_quote_neutral input i ch out).
           destruct (is_quote ch); rewrite Hstep, Hd; by rewrite <- app_assoc.
      * rewrite scan_string.
        rewrite (emit_on_quote_string input i ch q out) by lia.
        destruct (is_quote ch && (ch =? q)%N && _); rewrite Hstep, Hd; by rewrite <- app_assoc.
      * rewrite scan_line. destruct (is_newline ch).
        -- change (emit (set_inLineComment (state_of InLine out) false) ch)
             with (state_of Neutral (out ++ [ch])).
           rewrite Hstep, Hd. by rewrite <- app_assoc.
        -- rewrite (Hstep InLine out). by rewrite Hd.
      * rewrite scan_block_2. destruct (ch =? ch_star)%N; cbn [andb].
        -- destruct (N.eqb_spec c2 ch_slash) as [->|Hne2].
           ++ rewrite bool_decide_eq_true_2 by reflexivity. apply (Hstep2 Neutral out).
           ++ rewrite bool_decide_eq_false_2 by congruence.
              rewrite (Hstep InBlock out). by rewrite Hd.
        -- rewrite (Hstep InBlock out). by rewrite Hd.
    + (* ch is the last character *)
      replace (i + 1)%nat with (S i) in H2 by lia.
      assert (Hd : drop (S i) input = []) by (by apply drop_lookup_nil).
      unfold body. replace (input !! (i + 1)%nat) with (@None N)
        by (by replace (i + 1)%nat with (S i) by lia).
      rewrite Hd.
      destruct m as [|q| |];
        cbn [state_of inLineComment inBlockComment inString negb andb]; refold_state.
      * rewrite scan_neutral_1. rewrite !andb_false_r. cbv iota.
        rewrite (emit_on_quote_neutral input i ch out).
        destruct (is_quote ch); rewrite Hstep, Hd, scan_nil; by rewrite app_nil_r.
      * rewrite scan_string.
        rewrite (emit_on_quote_string input i ch q out) by lia.
        destruct (is_quote ch && (ch =? q)%N && _); rewrite Hstep, Hd; by rewrite <- app_assoc.
      * rewrite scan_line. destruct (is_newline ch).
        -- change (emit (set_inLineComment (state_of InLine out) false) ch)
             with (state_of Neutral (out ++ [ch])).
           rewrite Hstep, Hd. by rewrite <- app_assoc.
        -- rewrite (Hstep InLine out). by rewrite Hd.
      * rewrite scan_block_1. rewrite andb_false_r. rewrite (Hstep InBlock out). by rewrite Hd.
Qed.

Lemma stripJsonComments_scan input :
  stripJsonComments input = scan [] input Neutral.
Proof.
  unfold stripJsonComments.
  change initial with (state_of Neutral []).
  rewrite loop_scan by lia. reflexivity.
Qed.

(** *** Each kind of segment, as the scan sees it *)

Lemma is_quote_not_backslash q : is_quote q = true -> q <> ch_backslash.
Proof. intros H ->. discriminate. Qed.

Lemma is_quote_not_slash q : is_quote q = true -> (q =? ch_slash)%N = false.
Proof.
  unfold is_quote. intros H.
  destruct (N.eqb_spec q ch_slash) as [->|]; [discriminate|reflexivity].
Qed.

Lemma is_newline_plain c :
  is_newline c = true -> is_quote c = false /\ (c =? ch_slash)%N = false.
Proof.
  unfold is_newline, is_quote. intros H.
  apply orb_true_iff in H as [H|H]; apply N.eqb_eq in H; subst; by split.
Qed.

(** A character that opens neither a string nor a comment is copied. *)
Lemma scan_plain b c rest :
  segment_ok (Plain c) rest = true ->
  scan b (c :: rest) Neutral = c :: scan (c :: b) rest Neutral.
Proof.
  cbn [segment_ok]. intros H. apply andb_true_iff in H as [Hq Hc].
  apply negb_true_iff in Hq, Hc.
  destruct rest as [|c2 r2].
  - by rewrite scan_neutral_1, scan_nil.
  - rewrite scan_neutral_2, Hq.
    destruct (c =? ch_slash)%N; cbn [andb] in *.
    + apply orb_false_iff in Hc as [-> ->]. reflexivity.
    + reflexivity.
Qed.

(** Inside a string literal: the body is copied, and an unescaped
    delimiter closes the literal. *)
Lemma scan_string_body n : forall dangling q body tail b,
  (length body <= n)%nat ->
  is_quote q = true ->
  string_body dangling q body = true ->
  (trailing_backslashes b mod 2 =? 0)%nat = true ->
  (if dangling then tail = [] else exists rest, tail = q :: rest) ->
  exists b', (trailing_backslashes b' mod 2 =? 0)%nat = true /\
    scan b (body ++ tail) (InString q)
    = body ++ (if dangling then [] else scan b' tail (InString q)).
Proof.
  induction n as [|n IH]; intros dangling q body tail b Hn Hq Hbody Hb Htail.
  - destruct body; [|simpl in Hn; lia]. cbn [app].
    destruct dangling; [subst; rewrite scan_nil|]; eauto.
  - destruct body as [|c r]; cbn [app].
    { destruct dangling; [subst; rewrite scan_nil|]; eauto. }
    cbn [string_body] in Hbody.
    destruct (N.eqb_spec c ch_backslash) as [->|Hc].
    + (* an escape pair *)
      assert (Hbq : (ch_backslash =? q)%N = false).
      { apply N.eqb_neq. intros <-. discriminate. }
      destruct r as [|x r'].
      * (* lone backslash at the end of an unclosed literal *)
        destruct dangling; [|discriminate]. subst tail. cbn [app].
        rewrite scan_string. change (is_quote ch_backslash) with false. cbn [andb].
        rewrite scan_nil. exists b. by split.
      * rewrite scan_string. change (is_quote ch_backslash) with false. cbn [andb app].
        rewrite scan_string.
        assert (Hodd : (trailing_backslashes (ch_backslash :: b) mod 2 =? 0)%nat = false).
        { cbn [trailing_backslashes]. change (ch_backslash =? ch_backslash)%N with true.
          cbv iota. apply Nat.eqb_eq in Hb. apply Nat.eqb_neq.
          rewrite <- Nat.add_1_r, Nat.Div0.add_mod, Hb. cbn. lia. }
        rewrite Hodd, andb_false_r.
        destruct (IH dangling q r' tail (x :: ch_backslash :: b)) as (b' & Hb' & Heq);
          [simpl in Hn; lia | done | done | | done | ].
        { cbn [trailing_backslashes].
          destruct (x =? ch_backslash)%N; [|reflexivity].
          change (ch_backslash =? ch_backslash)%N with true. cbv iota.
          apply Nat.eqb_eq in Hb. apply Nat.eqb_eq.
          replace (S (S (trailing_backslashes b))) with (trailing_backslashes b + 1 * 2)%nat by lia.
          by rewrite Nat.Div0.mod_add. }
        exists b'. split; [done|]. by rewrite Heq.
    + (* an ordinary character *)
      apply andb_true_iff in Hbody as [Hcq Hbody]. apply negb_true_iff in Hcq.
      rewrite scan_string, Hcq, andb_false_r. cbn [andb].
      destruct (IH dangling q r tail (c :: b)) as (b' & Hb' & Heq);
        [simpl in Hn; lia | done | done | | done | ].
      { cbn [trailing_backslashes]. apply N.eqb_neq in Hc. by rewrite Hc. }
      exists b'. split; [done|]. by rewrite Heq.
Qed.

Lemma scan_string_lit b q body closed rest :
  segment_ok (StringLit q body closed) rest = true ->
  exists b', scan b (source_of (StringLit q body closed) ++ rest) Neutral
             = source_of (StringLit q body closed) ++ scan b' rest Neutral.
Proof.
  cbn [segment_ok source_of]. intros H.
  apply andb_true_iff in H as [H Hlast]. apply andb_true_iff in H as [Hq Hbody].
  assert (Hopen : forall tl, scan b (q :: tl) Neutral = q :: scan (q :: b) tl (InString q)).
  { intros [|c2 r2].
    - by rewrite scan_neutral_1, scan_nil.
    - by rewrite scan_neutral_2, (is_quote_not_slash _ Hq), Hq. }
  assert (Hb0 : (trailing_backslashes (q :: b) mod 2 =? 0)%nat = true).
  { cbn [trailing_backslashes].
    destruct (N.eqb_spec q ch_backslash) as [->|]; [discriminate|reflexivity]. }
  cbn [app]. rewrite Hopen.
  destruct closed; cbn [negb orb] in *.
  - destruct (scan_string_body (length body) false q body ([q] ++ rest) (q :: b))
      as (b' & Hb' & Heq); [lia | done | done | done | by eexists | ].
    rewrite <- app_assoc, Heq. cbn [app].
    rewrite scan_string, Hq, N.eqb_refl, Hb'. cbn [andb].
    exists (q :: b'). by rewrite <- app_assoc.
  - destruct rest; [|discriminate].
    destruct (scan_string_body (length body) true q body [] (q :: b))
      as (b' & Hb' & Heq); [lia | done | done | done | done | ].
    exists []. rewrite scan_nil, !app_nil_r in *. by rewrite Heq.
Qed.

(** A line comment is dropped up to the line break. *)
Lemma scan_line_body body : forall b rest,
  forallb (fun c => negb (is_newline c)) body = true ->
  exists b', scan b (body ++ rest) InLine = scan b' rest InLine.
Proof.
  induction body as [|c r IH]; intros b rest H; [by eexists|].
  cbn [forallb] in H. apply andb_true_iff in H as [Hc Hr]. apply negb_true_iff in Hc.
  cbn [app]. rewrite scan_line, Hc. by apply IH.
Qed.

Lemma scan_line_comment b body rest :
  segment_ok (LineComment body) rest = true ->
  exists b', scan b (source_of (LineComment body) ++ rest) Neutral = scan b' rest Neutral.
Proof.
  cbn [segment_ok source_of]. intros H. apply andb_true_iff in H as [Hbody Hrest].
  cbn [app]. rewrite scan_neutral_2. change (ch_slash =? ch_slash)%N with true. cbn [andb].
  destruct (scan_line_body body (ch_slash :: ch_slash :: b) rest Hbody) as (b' & ->).
  destruct rest as [|c rest'].
  - exists []. by rewrite !scan_nil.
  - rewrite scan_line, Hrest.
    destruct (is_newline_plain _ Hrest) as [Hq Hs].
    exists b'. symmetry. apply scan_plain. cbn [segment_ok]. by rewrite Hq, Hs.
Qed.

(** A block comment is dropped up to and including its end. *)
Lemma scan_block_body body : forall b tail,
  has_block_end body = false ->
  (tail = [] \/ exists rest, tail = ch_star :: ch_slash :: rest) ->
  exists b', scan b (body ++ tail) InBlock = scan b' tail InBlock.
Proof.
  induction body as [|c r IH]; intros b tail H Htail; [by eexists|].
  cbn [has_block_end] in H. apply orb_false_iff in H as [Hc Hr].
  cbn [app]. destruct (r ++ tail) as [|c2 r2] eqn:Heq.
  - apply app_eq_nil in Heq as [-> ->]. exists b. by rewrite scan_block_1, scan_nil.
  - rewrite scan_block_2.
    assert (Hno : (c =? ch_star)%N && (c2 =? ch_slash)%N = false).
    { destruct r as [|c2' r'].
      - cbn [app] in Heq. destruct Htail as [->|[rest ->]]; [discriminate|].
        injection Heq as <- _. by rewrite andb_false_r.
      - cbn [app] in Heq. injection Heq as <- _. exact Hc. }
    rewrite Hno, <- Heq. by apply IH.
Qed.

Lemma scan_block_comment b body closed rest :
  segment_ok (BlockComment body closed) rest = true ->
  exists b', scan b (source_of (BlockComment body closed) ++ rest) Neutral
             = scan b' rest Neutral.
Proof.
  cbn [segment_ok source_of]. intros H. apply andb_true_iff in H as [Hbody Hlast].
  apply negb_true_iff in Hbody.
  cbn [app]. rewrite scan_neutral_2.
  change ((ch_slash =? ch_slash)%N && (ch_star =? ch_slash)%N) with false.
  change ((ch_slash =? ch_slash)%N && (ch_star =? ch_star)%N) with true. cbv iota.
  destruct closed; cbn [orb] in *.
  - rewrite <- app_assoc.
    destruct (scan_block_body body (ch_star :: ch_slash :: b)
                ([ch_star; ch_slash] ++ rest) Hbody) as (b' & ->); [right; by eexists|].
    cbn [app]. rewrite scan_block_2. by eexists.
  - destruct rest; [|discriminate].
    destruct (scan_block_body body (ch_star :: ch_slash :: b) [] Hbody) as (b' & Heq);
      [by left|].
    exists []. rewrite !app_nil_r in *. by rewrite Heq, !scan_nil.
Qed.

Lemma scan_lexical segs : forall b,
  lexical segs = true -> scan b (source segs) Neutral = kept segs.
Proof.
  induction segs as [|s segs IH]; intros b H; [by rewrite scan_nil|].
  cbn [lexical] in H. apply andb_true_iff in H as [Hs Hsegs].
  unfold source, kept in *. cbn [flat_map].
  destruct s as [c|q body closed|body|body closed].
  - cbn [source_of kept_of app]. rewrite (scan_plain _ _ _ Hs). f_equal. by apply IH.
  - destruct (scan_string_lit b _ _ _ _ Hs) as (b' & ->).
    cbn [kept_of]. f_equal. by apply IH.
  - destruct (scan_line_comment b _ _ Hs) as (b' & ->). cbn [kept_of app]. by apply IH.
  - destruct (scan_block_comment b _ _ _ Hs) as (b' & ->). cbn [kept_of app]. by apply IH.
Qed.

Lemma kept_no_comment segs :
  forallb (fun s => negb (is_comment s)) segs = true -> kept segs = source segs.
Proof.
  induction segs as [|s segs IH]; [done|].
  cbn [forallb]. intros H. apply andb_true_iff in H as [Hs Hr].
  unfold kept, source in *. cbn [flat_map]. rewrite (IH Hr).
  by destruct s.
Qed.

(** *** Every text has a lexical segmentation *)

Lemma split_string_body n : forall q s,
  (length s <= n)%nat -> is_quote q = true ->
  (exists body rest, s = body ++ q :: rest /\ string_body false q body = true)
  \/ string_body true q s = true.
Proof.
  induction n as [|n IH]; intros q s Hn Hq.
  - destruct s; [|simpl in Hn; lia]. by right.
  - destruct s as [|c r]; [by right|].
    destruct (N.eqb_spec c ch_backslash) as [->|Hc].
    + destruct r as [|x r']; [by right|].
      destruct (IH q r' ltac:(simpl in Hn; lia) Hq) as [(body & rest & -> & Hb)|Hopen].
      * left. exists (ch_backslash :: x :: body), rest. by split.
      * by right.
    + destruct (N.eqb_spec c q) as [->|Hcq].
      * left. by exists [], r.
      * destruct (IH q r ltac:(simpl in Hn; lia) Hq) as [(body & rest & -> & Hb)|Hopen].
        -- left. exists (c :: body), rest. split; [done|].
           cbn [string_body]. apply N.eqb_neq in Hc, Hcq. by rewrite Hc, Hcq.
        -- right. cbn [string_body]. apply N.eqb_neq in Hc, Hcq. by rewrite Hc, Hcq.
Qed.

Lemma split_line s :
  exists body rest, s = body ++ rest
    /\ forallb (fun c => negb (is_newline c)) body = true
    /\ match rest with c :: _ => is_newline c | [] => true end = true.
Proof.
  induction s as [|c r (body & rest & -> & Hb & Hr)].
  - by exists [], [].
  - destruct (is_newline c) eqn:Hc.
    + by exists [], (c :: body ++ rest).
    + exists (c :: body), rest. split; [done|]. split; [|done].
      cbn [forallb]. by rewrite Hc, Hb.
Qed.

Lemma split_block s :
  (exists body rest, s = body ++ ch_star :: ch_slash :: rest /\ has_block_end body = false)
  \/ has_block_end s = false.
Proof.
  induction s as [|c r IH]; [by right|].
  destruct ((c =? ch_star)%N
            && match r with c2 :: _ => (c2 =? ch_slash)%N | [] => false end) eqn:Hc.
  - apply andb_true_iff in Hc as [Hc1 Hc2]. apply N.eqb_eq in Hc1 as ->.
    destruct r as [|c2 r']; [discriminate|]. apply N.eqb_eq in Hc2 as ->.
    left. by exists [], r'.
  - destruct IH as [(body & rest & -> & Hb)|Hno].
    + left. exists (c :: body), rest. split; [done|].
      cbn [has_block_end]. rewrite Hb, orb_false_r.
      destruct body; [|exact Hc].
      cbn [app] in Hc. destruct (c =? ch_star)%N; [|done]. by cbn.
    + right. cbn [has_block_end]. by rewrite Hc, Hno.
Qed.

Lemma source_app s segs : source (s :: segs) = source_of s ++ source segs.
Proof. reflexivity. Qed.

Lemma lexical_total n : forall input,
  (length input <= n)%nat ->
  exists segs, lexical segs = true /\ source segs = input.
Proof.
  induction n as [|n IH]; intros input Hn.
  - destruct input; [|simpl in Hn; lia]. by exists [].
  - destruct input as [|c r]; [by exists []|].
    assert (Hr : (length r <= n)%nat) by (simpl in Hn; lia).
    destruct (is_quote c) eqn:Hq.
    { (* a string literal *)
      destruct (split_string_body (length r) c r ltac:(lia) Hq)
        as [(body & rest & -> & Hb)|Hopen].
      - destruct (IH rest) as (segs & Hlex & Hsrc).
        { rewrite length_app in Hr. simpl in Hr. lia. }
        exists (StringLit c body true :: segs). split.
        + cbn [lexical segment_ok negb]. by rewrite Hq, Hb, Hlex.
        + rewrite source_app, Hsrc. cbn [source_of app]. by rewrite <- app_assoc.
      - exists [StringLit c r false]. split.
        + cbn [lexical segment_ok negb]. by rewrite Hq, Hopen.
        + unfold source. cbn. by rewrite !app_nil_r. }
    destruct (N.eqb_spec c ch_slash) as [->|Hc].
    2:{ (* ordinary text *)
      destruct (IH r Hr) as (segs & Hlex & Hsrc).
      exists (Plain c :: segs). split; [|by rewrite source_app, Hsrc].
      cbn [lexical segment_ok]. apply N.eqb_neq in Hc. by rewrite Hq, Hc, Hlex. }
    destruct r as [|c2 r2].
    { exists [Plain ch_slash]. by split. }
    destruct (N.eqb_spec c2 ch_slash) as [->|Hc2].
    { (* a line comment *)
      destruct (split_line r2) as (body & rest & -> & Hb & Hrest).
      destruct (IH rest) as (segs & Hlex & Hsrc).
      { simpl in Hr. rewrite length_app in Hr. lia. }
      exists (LineComment body :: segs). split; [|by rewrite source_app, Hsrc].
      cbn [lexical segment_ok]. by rewrite Hb, Hsrc, Hrest, Hlex. }
    destruct (N.eqb_spec c2 ch_star) as [->|Hc3].
    { (* a block comment *)
      destruct (split_block r2) as [(body & rest & -> & Hb)|Hno].
      - destruct (IH rest) as (segs & Hlex & Hsrc).
        { simpl in Hr. rewrite length_app in Hr. simpl in Hr. lia. }
        exists (BlockComment body true :: segs). split.
        + cbn [lexical segment_ok orb]. by rewrite Hb, Hlex.
        + rewrite source_app, Hsrc. cbn [source_of app]. by rewrite <- app_assoc.
      - exists [BlockComment r2 false]. split.
        + cbn [lexical segment_ok]. by rewrite Hno.
        + unfold source. cbn. by rewrite !app_nil_r. }
    (* a slash that opens no comment *)
    destruct (IH (c2 :: r2) Hr) as (segs & Hlex & Hsrc).
    exists (Plain ch_slash :: segs). split; [|by rewrite source_app, Hsrc].
    cbn [lexical segment_ok]. rewrite Hsrc, Hlex.
    apply N.eqb_neq in Hc2, Hc3. by rewrite Hc2, Hc3.
Qed.

(** C1.  Every input text divides into ordinary characters, string
    literals, line comments (which end before the line break) and block
    comments; for any such division the stripper returns the text with
    the comment segments removed and every other segment, string
    literals included, copied unchanged, and a text whose division has
    no comment segment is returned as it is. *)
Theorem stripJsonComments_removes_comments (input : str) :
  (exists segs, lexical segs = true /\ source segs = input)
  /\ (forall segs, lexical segs = true -> source segs = input ->
        stripJsonComments input = kept segs
        /\ (forallb (fun s => negb (is_comment s)) segs = true ->
            stripJsonComments input = input)).
Proof.
  split; [by apply (lexical_total (length input))|].
  intros segs Hlex <-.
  rewrite stripJsonComments_scan, (scan_lexical _ _ Hlex).
  split; [done|]. apply kept_no_comment.
Qed.

Lemma stripJsonComments_removes_comments_witness :
  lexical sample_jsonc = true
  /\ stripJsonComments (source sample_jsonc) = kept sample_jsonc.
Proof.
  split; [reflexivity|].
  apply (proj2 (stripJsonComments_removes_comments (source sample_jsonc)) sample_jsonc);
    reflexivity.
Defined.
End StripFacts.
(** ** String search and slicing *)

Lemma startsWith_app p rest : startsWith (p ++ rest) p = true.
Proof. induction p as [|x p IH]; [done|]. cbn [app startsWith]. by rewrite N.eqb_refl, IH. Qed.

Lemma startsWith_inv s p : startsWith s p = true -> exists rest, s = p ++ rest.
Proof.
  revert s. induction p as [|x p IH]; intros s H; [by exists s|].
  destruct s as [|y s]; [done|]. cbn in H.
  apply andb_true_iff in H as [Hxy H]. apply N.eqb_eq in Hxy as ->.
  destruct (IH _ H) as [rest ->]. by exists rest.
Qed.

Lemma startsWith_false s p :
  startsWith s p = false -> forall rest, s <> p ++ rest.
Proof. intros H rest ->. by rewrite startsWith_app in H. Qed.

Lemma indexOf_from_unfold s p i :
  indexOf_from s p i
  = if startsWith s p then i
    else match s with [] => -1 | _ :: s' => indexOf_from s' p (i + 1) end.
Proof. by destruct s. Qed.

(** [indexOf] returns the position of the first occurrence. *)
Lemma indexOf_from_first p pre : forall s post i,
  s = pre ++ p ++ post ->
  (forall pre' post', s = pre' ++ p ++ post' -> (length pre <= length pre')%nat) ->
  indexOf_from s p i = i + Z.of_nat (length pre).
Proof.
  induction pre as [|c pre IH]; intros s post i -> Hmin.
  - cbn [app]. rewrite indexOf_from_unfold, startsWith_app. simpl. lia.
  - cbn [app indexOf_from].
    destruct (startsWith (c :: pre ++ p ++ post) p) eqn:Hs.
    + apply startsWith_inv in Hs as [rest Hrest].
      specialize (Hmin [] rest Hrest). simpl in Hmin. lia.
    + rewrite (IH _ post (i + 1) eq_refl).
      * simpl length. lia.
      * intros pre' post' E. specialize (Hmin (c :: pre') post').
        cbn [app] in Hmin. rewrite E in Hmin. specialize (Hmin eq_refl).
        simpl in Hmin. lia.
Qed.

Lemma indexOf_from_none p : forall s i,
  (forall pre post, s <> pre ++ p ++ post) -> indexOf_from s p i = -1.
Proof.
  induction s as [|c s IH]; intros i Hno.
  - cbn. destruct (startsWith [] p) eqn:Hs; [|done].
    apply startsWith_inv in Hs as [rest Hrest]. by destruct (Hno [] rest).
  - cbn [indexOf_from]. destruct (startsWith (c :: s) p) eqn:Hs.
    + apply startsWith_inv in Hs as [rest Hrest]. by destruct (Hno [] rest).
    + apply IH. intros pre post ->. by apply (Hno (c :: pre) post).
Qed.

Lemma indexOf_from_range p : forall s i,
  indexOf_from s p i = -1 \/ i <= indexOf_from s p i.
Proof.
  induction s as [|c s IH]; intros i; cbn [indexOf_from].
  - destruct (startsWith [] p); [right; lia | by left].
  - destruct (startsWith (c :: s) p); [right; lia|].
    destruct (IH (i + 1)); [by left | right; lia].
Qed.

Lemma slice_prefix (pre rest : str) :
  slice (pre ++ rest) 0 (Some (Z.of_nat (length pre))) = pre.
Proof.
  unfold slice, clamp_index. rewrite length_app.
  replace (Z.of_nat (length pre) <? 0) with false by (symmetry; apply Z.ltb_ge; lia).
  cbn [Z.ltb Z.compare].
  rewrite Z.min_l, Z.min_l by lia.
  rewrite Z.sub_0_r, Nat2Z.id. change (Z.to_nat 0) with O. rewrite drop_0.
  by rewrite take_app_length.
Qed.

Lemma slice_suffix (pre rest : str) :
  slice (pre ++ rest) (Z.of_nat (length pre)) None = rest.
Proof.
  unfold slice, clamp_index. rewrite length_app.
  replace (Z.of_nat (length pre) <? 0) with false by (symmetry; apply Z.ltb_ge; lia).
  rewrite Z.min_l by lia. rewrite Nat2Z.id, drop_app_length.
  apply take_ge. lia.
Qed.

(** C2.  [injectStyle] puts the markup and a line feed immediately
    before the first occurrence of the closing head tag; when the HTML
    has no closing head tag the markup is appended after the document,
    on a line of its own (a line feed before it and one after it). *)
Theorem injectStyle_before_first_head_close (html styleMarkup : str) :
  (forall pre post,
      html = pre ++ lit "</head>" ++ post ->
      (forall pre' post', html = pre' ++ lit "</head>" ++ post' ->
                          (length pre <= length pre')%nat) ->
      injectStyle html styleMarkup
      = pre ++ styleMarkup ++ [ch_lf] ++ lit "</head>" ++ post)
  /\ ((forall pre post, html <> pre ++ lit "</head>" ++ post) ->
      injectStyle html styleMarkup = html ++ [ch_lf] ++ styleMarkup ++ [ch_lf]).
Proof.
  split.
  - intros pre post Hhtml Hmin. unfold injectStyle, indexOf.
    rewrite (indexOf_from_first _ pre html post 0 Hhtml Hmin).
    replace (0 + Z.of_nat (length pre) =? -1) with false by (symmetry; apply Z.eqb_neq; lia).
    rewrite Z.add_0_l. subst html.
    by rewrite slice_prefix, slice_suffix.
  - intros Hno. unfold injectStyle, indexOf.
    by rewrite (indexOf_from_none _ html 0 Hno).
Qed.

Lemma injectStyle_before_first_head_close_witness :
  injectStyle (lit "<head></head><p></head>") (lit "<style></style>")
  = lit "<head>" ++ lit "<style></style>" ++ [ch_lf] ++ lit "</head>" ++ lit "<p></head>".
Proof.
  apply (proj1 (injectStyle_before_first_head_close _ _) (lit "<head>") (lit "<p></head>")).
  - reflexivity.
  - intros pre' post' E.
    destruct (le_lt_dec (length (lit "<head>")) (length pre')) as [Hle|Hlt]; [exact Hle|].
    exfalso. change (length (lit "<head>")) with 6%nat in Hlt.
    do 6 (destruct pre' as [|? pre']; [vm_compute in E; discriminate E|]).
    simpl in Hlt. lia.
Defined.
(** ** Reasoning about computations *)

Section Keeps.
Context (R : relation world) `{!PreOrder R}.

Lemma keeps_ret {A} (a : A) : keeps R (ret a).
Proof. intros w. reflexivity. Qed.

Lemma keeps_throw {A} e : keeps R (@throw A e).
Proof. intros w. reflexivity. Qed.

Lemma keeps_bind {A B} (m : M A) (k : A -> M B) :
  keeps R m -> (forall a, keeps R (k a)) -> keeps R (bind m k).
Proof.
  intros Hm Hk w. unfold bind. specialize (Hm w).
  destruct (m w) as [[a|e] w']; cbn in *; [|done].
  etransitivity; [exact Hm | apply Hk].
Qed.

Lemma keeps_try_catch {A} (m : M A) handler :
  keeps R m -> (forall e, keeps R (handler e)) -> keeps R (try_catch m handler).
Proof.
  intros Hm Hk w. unfold try_catch. specialize (Hm w).
  destruct (m w) as [[a|e] w']; cbn in *; [done|].
  etransitivity; [exact Hm | apply Hk].
Qed.

Lemma keeps_for_each {A} (xs : list A) body :
  (forall x, keeps R (body x)) -> keeps R (for_each xs body).
Proof.
  intros Hb. induction xs as [|x xs IH]; cbn [for_each].
  - apply keeps_ret.
  - apply keeps_bind; [apply Hb | intros _; exact IH].
Qed.

Lemma keeps_collect {A B} (xs : list A) (f : A -> M B) :
  (forall x, keeps R (f x)) -> keeps R (collect xs f).
Proof.
  intros Hf. induction xs as [|x xs IH]; cbn [collect].
  - apply keeps_ret.
  - apply keeps_bind.
    + apply keeps_try_catch; [|intros; apply keeps_ret].
      apply keeps_bind; [apply Hf | intros; apply keeps_ret].
    + intros first. apply keeps_bind; [exact IH | intros; apply keeps_ret].
Qed.

Lemma keeps_if {A} (b : bool) (m1 m2 : M A) :
  keeps R m1 -> keeps R m2 -> keeps R (if b then m1 else m2).
Proof. by destruct b. Qed.

End Keeps.

Lemma keeps_weaken {A} (R R' : relation world) (m : M A) :
  (forall w w', R w w' -> R' w w') -> keeps R m -> keeps R' m.
Proof. intros HR Hm w. apply HR, Hm. Qed.

(** *** Computations that only read *)

Lemma existsSync_reads p : keeps eq (existsSync p).
Proof. by intros w. Qed.

Lemma readFileSync_reads p : keeps eq (readFileSync p).
Proof. intros w. unfold readFileSync. by destruct (files w !! p) as [[]|]. Qed.

Lemma readdirSync_reads h d : keeps eq (readdirSync h d).
Proof. intros w. unfold readdirSync. by destruct (files w !! d) as [[]|]. Qed.

Lemma parse_json_reads h raw : keeps eq (parse_json h raw).
Proof. intros w. unfold parse_json. by destruct (JSON_parse h raw). Qed.

Lemma get_prop_reads v k : keeps eq (get_prop v k).
Proof. intros w. unfold get_prop. by destruct (Json.get v k). Qed.

Lemma readThemeFile_reads h themesDir fileName :
  keeps eq (readThemeFile h themesDir fileName).
Proof.
  unfold readThemeFile.
  apply keeps_bind; [tc_solve | apply readFileSync_reads | intros raw].
  apply keeps_bind; [tc_solve | apply parse_json_reads | intros obj].
  apply keeps_bind; [tc_solve | apply get_prop_reads | intros name].
  apply keeps_bind; [tc_solve | apply get_prop_reads | intros ty].
  apply keeps_bind; [tc_solve | | intros type].
  - destruct ty as [[]|]; first [apply keeps_ret | apply keeps_throw]; tc_solve.
  - destruct (classify _). apply keeps_ret; tc_solve.
Qed.

Lemma readImportedThemesFromDisk_reads h root :
  keeps eq (readImportedThemesFromDisk h root).
Proof.
  unfold readImportedThemesFromDisk.
  apply keeps_bind; [tc_solve | apply existsSync_reads | intros found].
  destruct found; cbn [negb]; [|apply keeps_ret; tc_solve].
  apply keeps_bind; [tc_solve | apply readdirSync_reads | intros entries].
  apply keeps_collect; [tc_solve|]. intros x. apply readThemeFile_reads.
Qed.

Lemma readPackageJson_reads h root : keeps eq (readPackageJson h root).
Proof.
  unfold readPackageJson.
  apply keeps_bind; [tc_solve | apply readFileSync_reads | intros raw].
  apply parse_json_reads.
Qed.

Lemma reads_run {A} (m : M A) w : keeps eq m -> m w = (fst (m w), w).
Proof. intros H. specialize (H w). destruct (m w) as [r w']. cbn in *. by subst. Qed.
(** ** Confirmation dialogs *)

Lemma showMessage_plain sev text w :
  showMessage sev text [] w = (Ok None, with_shown w ((sev, text) :: shown w)).
Proof. reflexivity. Qed.

Lemma showMessage_ask sev text item items w :
  showMessage sev text (item :: items) w
  = let w1 := with_shown w ((sev, text) :: shown w) in
    match answers w with
    | [] => (Ok None, w1)
    | a :: r =>
        (Ok (match a with
             | Button l => if bool_decide (l ∈ item :: items) then Some l else None
             | _ => None
             end), with_answers w1 r)
    end.
Proof.
  unfold showMessage, bind, modify, next_answer. cbn.
  by destruct (answers w).
Qed.

Lemma elem_of_singleton_button (l x : str) :
  bool_decide (l ∈ [x]) = bool_decide (l = x).
Proof. apply bool_decide_ext. rewrite list_elem_of_singleton. done. Qed.

(** C6.  [handleRemoveThemes] changes the files (deleting theme files,
    rewriting package.json) only when the user, after picking themes,
    answers "Remove" to the confirmation dialog, and
    [handleRestorePackageJsonBackup] changes them only when the user
    answers "Restore"; in every other case the files are as before. *)
Theorem removal_and_restore_need_confirmation (h : host) (extensionRoot : str) (w : world) :
  (files (snd (handleRemoveThemes h extensionRoot w)) <> files w ->
   exists ixs rest, answers w = Picked ixs :: Button (lit "Remove") :: rest)
  /\ (files (snd (handleRestorePackageJsonBackup h extensionRoot w)) <> files w ->
      exists rest, answers w = Button (lit "Restore") :: rest).
Proof.
  split.
  - unfold handleRemoveThemes. unfold bind at 1.
    rewrite (reads_run _ w (readImportedThemesFromDisk_reads h extensionRoot)).
    destruct (fst _) as [themes|e]; [|done].
    destruct themes as [|t themes]; [done|].
    unfold showQuickPickMany, next_answer, bind at 1 2.
    destruct (answers w) as [|a1 rest1] eqn:Ha; [done|].
    destruct a1 as [| | | |ixs]; try done.
    cbn [ret].
    destruct (omap _ ixs) as [|p picks]; [done|].
    unfold bind at 1. rewrite showMessage_ask. cbn [answers with_answers].
    destruct rest1 as [|a2 rest2]; [done|].
    destruct a2 as [|l| | |]; try done.
    rewrite elem_of_singleton_button.
    destruct (bool_decide_reflect (l = lit "Remove")) as [->|Hne].
    + intros _. by exists ixs, rest2.
    + rewrite bool_decide_eq_false_2 by congruence. done.
  - unfold handleRestorePackageJsonBackup. unfold bind at 1.
    cbn [existsSync].
    destruct (bool_decide _); cbn [negb]; [|done].
    unfold bind at 1. rewrite showMessage_ask. cbn zeta.
    destruct (answers w) as [|a rest]; [done|].
    destruct a as [|l| | |]; try done.
    rewrite elem_of_singleton_button.
    destruct (bool_decide_reflect (l = lit "Restore")) as [->|Hne].
    + intros _. by exists rest.
    + rewrite bool_decide_eq_false_2 by congruence. done.
Qed.

Lemma removal_and_restore_need_confirmation_witness :
  (files (snd (handleRemoveThemes Demo.host Demo.extensionRoot Demo.removing))
   <> files Demo.removing
   /\ exists ixs rest, answers Demo.removing = Picked ixs :: Button (lit "Remove") :: rest)
  /\ (files (snd (handleRestorePackageJsonBackup Demo.host Demo.extensionRoot Demo.restoring))
      <> files Demo.restoring
      /\ exists rest, answers Demo.restoring = Button (lit "Restore") :: rest).
Proof.
  split.
  - assert (H : files (snd (handleRemoveThemes Demo.host Demo.extensionRoot Demo.removing))
                <> files Demo.removing).
    { intros E. apply (f_equal (fun m => m !! lit "/ext/themes/a.json")) in E.
      vm_compute in E. discriminate E. }
    split; [exact H|].
    exact (proj1 (removal_and_restore_need_confirmation
                    Demo.host Demo.extensionRoot Demo.removing) H).
  - assert (H : files (snd (handleRestorePackageJsonBackup
                              Demo.host Demo.extensionRoot Demo.restoring))
                <> files Demo.restoring).
    { intros E. apply (f_equal (fun m => m !! Demo.pkgPath)) in E.
      vm_compute in E. discriminate E. }
    split; [exact H|].
    exact (proj2 (removal_and_restore_need_confirmation
                    Demo.host Demo.extensionRoot Demo.restoring) H).
Defined.
(** ** The font manager *)

Lemma indexOf_from_occurs p : forall s i,
  occurs p s -> 0 <= i -> 0 <= indexOf_from s p i.
Proof.
  induction s as [|c s IH]; intros i (pre & post & E) Hi; rewrite indexOf_from_unfold.
  - destruct pre; [|done]. cbn [app] in E. rewrite E, startsWith_app. lia.
  - destruct (startsWith (c :: s) p) eqn:Hs; [lia|].
    destruct pre as [|c' pre].
    + cbn [app] in E. rewrite E, startsWith_app in Hs. done.
    + cbn [app] in E. injection E as <- ->. apply IH; [by exists pre, post | lia].
Qed.

Lemma indexOf_from_found p : forall s i,
  indexOf_from s p i <> -1 -> occurs p s.
Proof.
  induction s as [|c s IH]; intros i H; rewrite indexOf_from_unfold in H.
  - destruct (startsWith [] p) eqn:Hs; [|done].
    apply startsWith_inv in Hs as [rest ->]. by exists [], rest.
  - destruct (startsWith (c :: s) p) eqn:Hs.
    + apply startsWith_inv in Hs as [rest ->]. by exists [], rest.
    + destruct (IH _ H) as (pre & post & ->). by exists (c :: pre), post.
Qed.

Lemma includes_true s p : includes s p = true <-> occurs p s.
Proof.
  unfold includes, indexOf. split.
  - intros H. apply negb_true_iff, Z.eqb_neq in H. by apply indexOf_from_found in H.
  - intros H. apply negb_true_iff, Z.eqb_neq.
    pose proof (indexOf_from_occurs p s 0 H). lia.
Qed.

Lemma includes_false s p : includes s p = false <-> ~ occurs p s.
Proof.
  rewrite <- includes_true. split; intros H.
  - intros H2. congruence.
  - destruct (includes s p); [exfalso; by apply H | done].
Qed.

(** *** The markup *)

Lemma trimEnd_snoc_space s c : isSpace c = true -> trimEnd (s ++ [c]) = trimEnd s.
Proof. intros H. unfold trimEnd. rewrite rev_app_distr. cbn. by rewrite H. Qed.

Lemma trimEnd_snoc_keep s c : isSpace c = false -> trimEnd (s ++ [c]) = s ++ [c].
Proof.
  intros H. unfold trimEnd. rewrite rev_app_distr. cbn [rev app trimStart].
  rewrite H. cbn [rev]. by rewrite rev_involutive.
Qed.

Lemma css_template_trim safeFont : trim (css_template safeFont) = css_rule safeFont.
Proof.
  assert (Ht : css_template safeFont = ch_lf :: css_rule safeFont ++ [ch_lf]).
  { unfold css_template, css_rule, css_before, css_after, lines, quoted.
    cbn [flat_map app]. rewrite ?app_nil_r. cbn [lit app]. cbn.
    by rewrite <- ?app_assoc. }
  rewrite Ht. unfold trim.
  assert (Hs : trimStart (ch_lf :: css_rule safeFont ++ [ch_lf]) = css_rule safeFont ++ [ch_lf])
    by reflexivity.
  rewrite Hs, trimEnd_snoc_space by reflexivity.
  unfold css_rule, css_after. change (lit "}") with ([] ++ [125%N]).
  rewrite !app_assoc. by apply trimEnd_snoc_keep.
Qed.

Lemma getStyleMarkup_eq fontFamily :
  getStyleMarkup fontFamily
  = STYLE_TAG_OPEN ++ [ch_lf] ++ css_rule (escape_quotes fontFamily) ++ [ch_lf] ++ lit "</style>".
Proof.
  unfold getStyleMarkup. rewrite css_template_trim.
  unfold lines, STYLE_TAG_OPEN. cbn [flat_map]. rewrite app_nil_r. by rewrite <- !app_assoc.
Qed.

(** *** The workbench file *)

Lemma bind_run {A B} (m : M A) (k : A -> M B) w a w' :
  m w = (Ok a, w') -> bind m k w = k a w'.
Proof. intros H. unfold bind. by rewrite H. Qed.

Lemma bind_run_throw {A B} (m : M A) (k : A -> M B) w e w' :
  m w = (Throw e, w') -> bind m k w = (Throw e, w').
Proof. intros H. unfold bind. by rewrite H. Qed.

Lemma try_catch_run {A} (m : M A) handler w a w' :
  m w = (Ok a, w') -> try_catch m handler w = (Ok a, w').
Proof. intros H. unfold try_catch. by rewrite H. Qed.

Lemma try_catch_run_throw {A} (m : M A) handler w e w' :
  m w = (Throw e, w') -> try_catch m handler w = handler e w'.
Proof. intros H. unfold try_catch. by rewrite H. Qed.

Lemma getWorkbenchPath_run h w :
  getWorkbenchPath h w = (Ok (workbenchPathOf h w), cache_path h w).
Proof.
  unfold getWorkbenchPath, workbenchPathOf, cache_path, bind, get_world.
  destruct w as [fs font theme cache root ans sh rl]. cbn.
  destruct cache as [[|c p]|]; cbn; try reflexivity.
  all: unfold existsSync, bind, modify, ret; cbn; by destruct (bool_decide _).
Qed.

Lemma workbenchPathOf_ext h w w' :
  files w' = files w -> appRoot w' = appRoot w ->
  cachedWorkbenchPath w' = cachedWorkbenchPath w ->
  workbenchPathOf h w' = workbenchPathOf h w.
Proof. unfold workbenchPathOf. by intros -> -> ->. Qed.

Lemma workbenchPathOf_cached h w :
  workbenchPathOf h (cache_path h w) = workbenchPathOf h w.
Proof.
  unfold workbenchPathOf at 1. cbn [cache_path cachedWorkbenchPath with_cachedWorkbenchPath].
  destruct (workbenchPathOf h w) as [|c p] eqn:E; [|done].
  cbn [files appRoot with_cachedWorkbenchPath].
  unfold workbenchPathOf in E. destruct (cachedWorkbenchPath w) as [[|? ?]|]; done.
Qed.

Lemma getWorkbenchHtml_run h w html :
  files w !! workbenchPathOf h w = Some (File html) ->
  getWorkbenchHtml h w = (Ok html, cache_path h w).
Proof.
  intros H. unfold getWorkbenchHtml, bind. rewrite getWorkbenchPath_run.
  unfold readFileSync. cbn [files cache_path with_cachedWorkbenchPath]. by rewrite H.
Qed.

Lemma saveWorkbenchHtml_run h w old html :
  files w !! workbenchPathOf h w = Some (File old) ->
  saveWorkbenchHtml h html w
  = (Ok tt, with_files (cache_path h w) (<[workbenchPathOf h w := File html]> (files w))).
Proof.
  intros H. unfold saveWorkbenchHtml, bind. rewrite getWorkbenchPath_run.
  unfold writeFileSync, writable. cbn [files cache_path with_cachedWorkbenchPath]. by rewrite H.
Qed.

Lemma font_showReloadNotification_run message w :
  exists w', font_showReloadNotification message w = (Ok tt, w') /\ files w' = files w.
Proof.
  unfold font_showReloadNotification, bind. rewrite showMessage_ask. cbn zeta.
  destruct (answers w) as [|a r]; cbn.
  - by eexists.
  - destruct (bool_decide _); by eexists.
Qed.

Lemma injectStyle_inserts html m :
  exists pre post gap,
    html = pre ++ post
    /\ injectStyle html m = pre ++ gap ++ m ++ [ch_lf] ++ post
    /\ (gap = [] \/ gap = [ch_lf] /\ post = []).
Proof.
  unfold injectStyle, indexOf.
  destruct (indexOf_from html (lit "</head>") 0 =? -1) eqn:E.
  - exists html, [], [ch_lf]. rewrite !app_nil_r. split; [done|]. split; [done|]. by right.
  - apply Z.eqb_neq in E.
    destruct (indexOf_from_range (lit "</head>") html 0) as [|Hge]; [done|].
    set (i := indexOf_from html (lit "</head>") 0) in *.
    exists (slice html 0 (Some i)), (slice html i None), [].
    split; [|split; [done | by left]].
    unfold slice, clamp_index.
    replace (i <? 0) with false by (symmetry; apply Z.ltb_ge; lia).
    cbn [Z.ltb Z.compare]. rewrite (Z.min_l 0) by lia. change (Z.to_nat 0) with O.
    rewrite drop_0, Z.sub_0_r.
    rewrite (take_ge (drop _ html)) by (rewrite length_drop; lia).
    by rewrite take_drop.
Qed.

(** *** Escaping *)

Lemma escape_quotes_Escaped font : Escaped font (escape_quotes font).
Proof.
  induction font as [|c font IH]; [constructor|].
  cbn [escape_quotes flat_map]. fold (escape_quotes font).
  destruct (N.eqb_spec c ch_quote) as [->|Hne]; cbn [app]; by constructor.
Qed.

(** The escaped text is determined by the text. *)
Lemma Escaped_functional s : forall e e', Escaped s e -> Escaped s e' -> e = e'.
Proof.
  induction s as [|c s IH]; intros e e' H H'; inversion H; inversion H'; subst;
    try done; f_equal; try f_equal; by apply IH.
Qed.

(** In the escaped text every double quote has a backslash before it. *)
Lemma Escaped_quotes_escaped s e : Escaped s e -> quotes_escaped e.
Proof.
  induction 1 as [|s e H IH|c s e Hc H IH]; intros a b E.
  - by destruct a.
  - destruct a as [|x a]; [done|]. injection E as <- E.
    destruct a as [|y a]; [by exists []|]. injection E as <- E.
    destruct (IH _ _ E) as [a' ->]. by exists (ch_backslash :: ch_quote :: a').
  - destruct a as [|x a]; [by injection E as E1 _|]. injection E as <- E.
    destruct (IH _ _ E) as [a' ->]. by exists (c :: a').
Qed.

(** C5.  With a font configured, [handleEnableCustomFont] on a workbench
    HTML without the Sh1ffy style tag writes the old HTML with the style
    block inserted (before the closing head tag, or after the document),
    the block being the tag, the CSS rule whose [font-family] is the
    font with a backslash put before each of its double quotes, and the
    closing tag; with the tag already present the files are left as they
    are. *)
Theorem handleEnableCustomFont_inserts_style (h : host) (w : world) (font html : str) :
  workbenchFont w = Some font -> font <> [] ->
  files w !! workbenchPathOf h w = Some (File html) ->
  let w' := snd (handleEnableCustomFont h w) in
  exists safeFont,
    Escaped font safeFont
    /\ let block := STYLE_TAG_OPEN ++ [ch_lf] ++ css_rule safeFont
                    ++ [ch_lf] ++ lit "</style>" in
       (~ occurs STYLE_TAG_OPEN html ->
        exists pre post gap,
          html = pre ++ post
          /\ (gap = [] \/ gap = [ch_lf] /\ post = [])
          /\ files w'
             = <[workbenchPathOf h w := File (pre ++ gap ++ block ++ [ch_lf] ++ post)]> (files w))
       /\ (occurs STYLE_TAG_OPEN html -> files w' = files w).
Proof.
  intros Hfont Hne Hhtml w'. subst w'.
  exists (escape_quotes font). split; [apply escape_quotes_Escaped|]. intros block.
  destruct font as [|c f]; [done|].
  assert (E1 : getWorkbenchFont w = (Ok (Some (c :: f)), w))
    by (unfold getWorkbenchFont; by rewrite Hfont).
  unfold handleEnableCustomFont, enableCustomFont.
  rewrite (bind_run _ _ _ _ _ E1). cbv beta iota.
  split.
  - intros Hno. apply includes_false in Hno.
    destruct (injectStyle_inserts html (getStyleMarkup (c :: f)))
      as (pre & post & gap & E2 & E3 & E4).
    exists pre, post, gap. split; [done|]. split; [done|].
    set (w1 := with_files (cache_path h (cache_path h w))
                 (<[workbenchPathOf h w := File (injectStyle html (getStyleMarkup (c :: f)))]>
                    (files w))).
    destruct (font_showReloadNotification_run
                (lit "Sh1ffy: Workbench font " ++ quoted (c :: f)
                 ++ lit " enabled. Reload the window to apply it.") w1) as (w2 & E5 & E6).
    erewrite try_catch_run.
    2:{ rewrite (bind_run _ _ _ _ _ (getWorkbenchHtml_run _ _ _ Hhtml)). rewrite Hno.
        erewrite bind_run; [exact E5|].
        rewrite (saveWorkbenchHtml_run h (cache_path h w) html)
          by (by rewrite workbenchPathOf_cached).
        by rewrite workbenchPathOf_cached. }
    cbn [snd]. rewrite E6. subst w1 block. cbn [files with_files].
    by rewrite <- getStyleMarkup_eq, <- E3.
  - intros Hocc. apply includes_true in Hocc.
    erewrite try_catch_run.
    2:{ rewrite (bind_run _ _ _ _ _ (getWorkbenchHtml_run _ _ _ Hhtml)). rewrite Hocc.
        erewrite bind_run; [|apply showMessage_plain]. reflexivity. }
    reflexivity.
Qed.

Lemma handleEnableCustomFont_inserts_style_witness :
  let html := lit "<html><head></head><body></body></html>" in
  let font := lit "My " ++ quoted (lit "Font") in
  let w' := snd (handleEnableCustomFont Demo.host Demo.enabling_quoted) in
  ~ occurs STYLE_TAG_OPEN html
  /\ (exists safeFont,
        Escaped font safeFont
        /\ exists pre post gap,
             html = pre ++ post
             /\ (gap = [] \/ gap = [ch_lf] /\ post = [])
             /\ files w'
                = <[workbenchPathOf Demo.host Demo.enabling_quoted
                    := File (pre ++ gap
                             ++ (STYLE_TAG_OPEN ++ [ch_lf] ++ css_rule safeFont
                                 ++ [ch_lf] ++ lit "</style>")
                             ++ [ch_lf] ++ post)]> (files Demo.enabling_quoted))
  /\ files w' !! Demo.workbenchPath
     = Some (File (lit "<html><head>" ++ STYLE_TAG_OPEN ++ [ch_lf]
                   ++ css_rule (lit "My " ++ [ch_backslash; ch_quote] ++ lit "Font"
                                ++ [ch_backslash; ch_quote])
                   ++ [ch_lf] ++ lit "</style>" ++ [ch_lf]
                   ++ lit "</head><body></body></html>")).
Proof.
  cbv zeta.
  assert (Hno : ~ occurs STYLE_TAG_OPEN (lit "<html><head></head><body></body></html>"))
    by (apply includes_false; reflexivity).
  split; [exact Hno|]. split; [|vm_compute; reflexivity].
  destruct (handleEnableCustomFont_inserts_style Demo.host Demo.enabling_quoted
              (lit "My " ++ quoted (lit "Font"))
              (lit "<html><head></head><body></body></html>")
              eq_refl ltac:(discriminate) ltac:(vm_compute; reflexivity))
    as (safeFont & Hesc & Hwrite & _).
  exists safeFont. split; [exact Hesc|]. exact (Hwrite Hno).
Defined.
(** ** What the operations write *)

#[global] Instance same_disk_preorder : PreOrder same_disk.
Proof.
  split.
  - by intros w.
  - intros w1 w2 w3 (H1 & H2 & H3) (H1' & H2' & H3'). repeat split; congruence.
Qed.

Lemma font_paths_mono h w1 w2 p :
  appRoot w2 = appRoot w1 ->
  (forall q, cachedWorkbenchPath w2 = Some q -> font_paths h w1 q) ->
  font_paths h w2 p -> font_paths h w1 p.
Proof. intros Ha Hc [->|[->|Hp]]; rewrite ?Ha; [by left | by right; left | by apply Hc]. Qed.

#[global] Instance only_touches_workbench_preorder h : PreOrder (only_touches_workbench h).
Proof.
  split.
  - intros w. split; [done|]. split; [|done]. intros p Hp. by right; right.
  - intros w1 w2 w3 (Ha & Hc & Hf) (Ha' & Hc' & Hf').
    split; [congruence|]. split.
    + intros p Hp. by eapply font_paths_mono, Hc'.
    + intros p Hp. rewrite Hf'; [by apply Hf|].
      intros ?. by eapply Hp, font_paths_mono.
Qed.

Lemma same_disk_workbench h w w' : same_disk w w' -> only_touches_workbench h w w'.
Proof.
  intros (Hf & Ha & Hc). split; [done|]. split.
  - intros p Hp. right; right. congruence.
  - intros p _. by rewrite Hf.
Qed.

Lemma eq_same_disk w w' : w = w' -> same_disk w w'.
Proof. by intros ->. Qed.

(** Structural steps of a proof that a computation keeps a relation. *)
Ltac keeps_step :=
  lazymatch goal with
  | |- keeps _ (bind _ _) => apply keeps_bind; [tc_solve | | intros ?]
  | |- keeps _ (try_catch _ _) => apply keeps_try_catch; [tc_solve | | intros ?]
  | |- keeps _ (ret _) => apply keeps_ret; tc_solve
  | |- keeps _ (throw _) => apply keeps_throw; tc_solve
  | |- keeps _ (for_each _ _) => apply keeps_for_each; [tc_solve | intros ?]
  | |- keeps _ (collect _ _) => apply keeps_collect; [tc_solve | intros ?]
  | |- keeps _ (if ?b then _ else _) => destruct b
  | |- keeps _ (match ?x with _ => _ end) => destruct x
  | |- keeps _ (let '(_, _) := ?x in _) => destruct x
  end.

(** *** The user interface and the settings leave the disk alone *)

Lemma next_answer_disk : keeps same_disk next_answer.
Proof. intros w. unfold next_answer. by destruct (answers w). Qed.

Lemma modify_disk f :
  (forall w, same_disk w (f w)) -> keeps same_disk (modify f).
Proof. intros H w. apply H. Qed.

Lemma showMessage_disk sev text items : keeps same_disk (showMessage sev text items).
Proof.
  unfold showMessage. keeps_step; [by apply modify_disk|].
  destruct items; repeat keeps_step. apply next_answer_disk.
Qed.

Lemma showInputBox_disk : keeps same_disk showInputBox.
Proof. unfold showInputBox. repeat keeps_step. apply next_answer_disk. Qed.

Lemma showOpenDialog_disk : keeps same_disk showOpenDialog.
Proof. unfold showOpenDialog. repeat keeps_step. apply next_answer_disk. Qed.

Lemma showQuickPickMany_disk {A} (items : list A) : keeps same_disk (showQuickPickMany items).
Proof. unfold showQuickPickMany. repeat keeps_step. apply next_answer_disk. Qed.

Lemma showQuickPickOne_disk {A} (items : list A) : keeps same_disk (showQuickPickOne items).
Proof. unfold showQuickPickOne. repeat keeps_step. apply next_answer_disk. Qed.

Lemma reloadWindow_disk : keeps same_disk reloadWindow.
Proof. by apply modify_disk. Qed.

Lemma getWorkbenchFont_disk : keeps same_disk getWorkbenchFont.
Proof. by intros w. Qed.

Lemma setWorkbenchFont_disk font : keeps same_disk (setWorkbenchFont font).
Proof. by apply modify_disk. Qed.

Lemma setColorThemeById_disk themeId : keeps same_disk (setColorThemeById themeId).
Proof. by apply modify_disk. Qed.

Lemma font_showReloadNotification_disk message :
  keeps same_disk (font_showReloadNotification message).
Proof.
  unfold font_showReloadNotification. repeat keeps_step;
    first [apply showMessage_disk | apply reloadWindow_disk].
Qed.

Lemma theme_showReloadNotification_disk message :
  keeps same_disk (theme_showReloadNotification message).
Proof.
  unfold theme_showReloadNotification. repeat keeps_step;
    first [apply showMessage_disk | apply reloadWindow_disk].
Qed.

(** *** The font manager writes workbench.html only *)

Lemma workbenchPathOf_font_path h w : font_paths h w (workbenchPathOf h w).
Proof.
  unfold workbenchPathOf, font_paths.
  destruct (cachedWorkbenchPath w) as [[|c p]|]; try destruct (bool_decide _); auto.
Qed.

Lemma getWorkbenchPath_workbench h : keeps (only_touches_workbench h) (getWorkbenchPath h).
Proof.
  intros w. rewrite getWorkbenchPath_run. cbn [snd]. split; [done|]. split; [|done].
  intros p. cbn. intros [= <-]. apply workbenchPathOf_font_path.
Qed.

Lemma readFileSync_workbench h p : keeps (only_touches_workbench h) (readFileSync p).
Proof.
  eapply keeps_weaken; [|apply readFileSync_reads].
  intros w w' ->. reflexivity.
Qed.

Lemma getWorkbenchHtml_workbench h : keeps (only_touches_workbench h) (getWorkbenchHtml h).
Proof.
  unfold getWorkbenchHtml. keeps_step;
    [apply getWorkbenchPath_workbench | apply readFileSync_workbench].
Qed.

Lemma saveWorkbenchHtml_workbench h html :
  keeps (only_touches_workbench h) (saveWorkbenchHtml h html).
Proof.
  intros w. unfold saveWorkbenchHtml, bind. rewrite getWorkbenchPath_run.
  unfold writeFileSync. cbn [files cache_path with_cachedWorkbenchPath].
  destruct (writable _ _ _); cbn [snd].
  - split; [done|]. split.
    + intros p. cbn. intros [= <-]. apply workbenchPathOf_font_path.
    + intros p Hp. cbn. apply lookup_insert_ne. intros <-.
      apply Hp, workbenchPathOf_font_path.
  - split; [done|]. split; [|done].
    intros p. cbn. intros [= <-]. apply workbenchPathOf_font_path.
Qed.

Ltac font_step :=
  first
    [ keeps_step
    | apply getWorkbenchHtml_workbench
    | apply saveWorkbenchHtml_workbench
    | (eapply keeps_weaken; [apply same_disk_workbench|]);
      first [ apply showMessage_disk | apply showInputBox_disk
            | apply getWorkbenchFont_disk | apply setWorkbenchFont_disk
            | apply font_showReloadNotification_disk ] ].

Lemma handleReloadFontConfiguration_workbench h :
  keeps (only_touches_workbench h) (handleReloadFontConfiguration h).
Proof. unfold handleReloadFontConfiguration. repeat font_step. Qed.

Lemma enableCustomFont_workbench h onSetFont :
  keeps (only_touches_workbench h) onSetFont ->
  keeps (only_touches_workbench h) (enableCustomFont h onSetFont).
Proof. intros H. unfold enableCustomFont. repeat font_step; exact H. Qed.

Lemma setCustomFont_workbench h onEnable onReload :
  keeps (only_touches_workbench h) onEnable ->
  keeps (only_touches_workbench h) onReload ->
  keeps (only_touches_workbench h) (setCustomFont h onEnable onReload).
Proof. intros H1 H2. unfold setCustomFont. repeat font_step; assumption. Qed.

Lemma handleSetCustomFont_workbench h :
  keeps (only_touches_workbench h) (handleSetCustomFont h).
Proof.
  apply setCustomFont_workbench.
  - apply enableCustomFont_workbench. apply keeps_ret. tc_solve.
  - apply handleReloadFontConfiguration_workbench.
Qed.

Lemma handleEnableCustomFont_workbench h :
  keeps (only_touches_workbench h) (handleEnableCustomFont h).
Proof. apply enableCustomFont_workbench, handleSetCustomFont_workbench. Qed.

Lemma handleDisableCustomFont_workbench h :
  keeps (only_touches_workbench h) (handleDisableCustomFont h).
Proof. unfold handleDisableCustomFont. repeat font_step. Qed.

Lemma handleResetToDefaults_workbench h :
  keeps (only_touches_workbench h) (handleResetToDefaults h).
Proof. unfold handleResetToDefaults. repeat font_step. Qed.
(** *** The theme manager: the paths each operation changes *)

#[global] Instance changes_only_preorder S : PreOrder (changes_only S).
Proof.
  split; [by intros w p|].
  intros w1 w2 w3 H1 H2 p Hp. by rewrite H2, H1.
Qed.

Lemma changes_only_mono (S S' : str -> Prop) w w' :
  (forall p, S p -> S' p) -> changes_only S w w' -> changes_only S' w w'.
Proof. intros HS H p Hp. apply H. intros ?. by apply Hp, HS. Qed.

Lemma changes_only_files S w w' : files w' = files w -> changes_only S w w'.
Proof. intros Hf p _. by rewrite Hf. Qed.

Lemma keeps_changes_mono {A} (S S' : str -> Prop) (m : M A) :
  (forall p, S p -> S' p) -> keeps (changes_only S) m -> keeps (changes_only S') m.
Proof. intros HS. apply keeps_weaken. intros w w'. by apply changes_only_mono. Qed.

Lemma reads_changes {A} S (m : M A) : keeps eq m -> keeps (changes_only S) m.
Proof. apply keeps_weaken. intros w w' ->. reflexivity. Qed.

Lemma disk_changes {A} S (m : M A) : keeps same_disk m -> keeps (changes_only S) m.
Proof. apply keeps_weaken. intros w w' (Hf & _). by apply changes_only_files. Qed.

(** A run that starts in [w], a world with the files of [w0]. *)
Lemma changes_only_bind {A B} S (m : M A) (k : A -> M B) w0 w :
  changes_only S w0 (snd (m w)) ->
  (forall a, keeps (changes_only S) (k a)) ->
  changes_only S w0 (snd (bind m k w)).
Proof.
  intros Hm Hk. unfold bind. destruct (m w) as [[a|e] w']; cbn [snd] in *; [|done].
  etransitivity; [exact Hm | apply Hk].
Qed.

Lemma keeps_for_each_in (R : relation world) `{!PreOrder R} {A} (xs : list A) body :
  (forall x, x ∈ xs -> keeps R (body x)) -> keeps R (for_each xs body).
Proof.
  induction xs as [|x xs IH]; intros Hb; cbn [for_each].
  - by apply keeps_ret.
  - apply keeps_bind; [done | apply Hb; by left | intros _].
    apply IH. intros y Hy. apply Hb. by right.
Qed.

Section ThemeFrames.
Context (h : host) (root : str).

Let themesDir := path_join h root THEMES_DIR_RELATIVE.
Let pkgPath := path_join h root (lit "package.json").

(** **** The file system calls *)

Lemma writeFileSync_changes (S : str -> Prop) p data :
  S p -> keeps (changes_only S) (writeFileSync h p data).
Proof.
  intros Hp w. unfold writeFileSync. destruct (writable _ _ _); [|reflexivity].
  intros q Hq. cbn. apply lookup_insert_ne. by intros <-.
Qed.

Lemma unlinkSync_changes (S : str -> Prop) p : S p -> keeps (changes_only S) (unlinkSync p).
Proof.
  intros Hp w. unfold unlinkSync. destruct (files w !! p) as [[]|]; try reflexivity.
  intros q Hq. cbn. apply lookup_delete_ne. by intros <-.
Qed.

Lemma copyFileSync_changes (S : str -> Prop) src dst :
  S dst -> keeps (changes_only S) (copyFileSync h src dst).
Proof.
  intros Hp. unfold copyFileSync. keeps_step.
  - apply reads_changes, readFileSync_reads.
  - by apply writeFileSync_changes.
Qed.

Lemma at_or_above_parent d p : at_or_above h (path_dirname h d) p -> at_or_above h d p.
Proof. intros [n ->]. exists (S n). by rewrite Nat.iter_succ_r. Qed.

(** [mkdir] changes nothing but paths at or above its own where
    nothing was, and never a root. *)
Lemma mkdirp_changes fuel : forall fs p fs',
  mkdirp h fuel fs p = Some fs' ->
  forall q, ~ (at_or_above h p q /\ fs !! q = None /\ path_dirname h q <> q) ->
    fs' !! q = fs !! q.
Proof.
  induction fuel as [|fuel IH]; intros fs p fs' H q Hq.
  - cbn in H. destruct (fs !! p) as [[]|]; [done|by injection H as <-|].
    case_bool_decide; [by injection H as <-|done].
  - cbn in H. destruct (fs !! p) as [[]|] eqn:Ep; [done|by injection H as <-|].
    case_bool_decide as Hroot; [by injection H as <-|].
    destruct (mkdirp h fuel fs (path_dirname h p)) as [fs1|] eqn:E1; [|done].
    injection H as <-.
    destruct (decide (q = p)) as [->|Hne].
    + exfalso. apply Hq. split; [by exists 0%nat|done].
    + rewrite lookup_insert_ne by done.
      apply (IH _ _ _ E1). intros (Ha & Hn & Hr). apply Hq.
      split; [by apply at_or_above_parent|done].
Qed.

(** What it makes are directories. *)
Lemma mkdirp_makes_directories fuel : forall fs p fs' q,
  mkdirp h fuel fs p = Some fs' -> fs !! q = None -> fs' !! q = None \/ fs' !! q = Some Dir.
Proof.
  induction fuel as [|fuel IH]; intros fs p fs' q H Hq.
  - cbn in H. destruct (fs !! p) as [[]|]; [done|injection H as <-; by left|].
    case_bool_decide; [injection H as <-; by left|done].
  - cbn in H. destruct (fs !! p) as [[]|] eqn:Ep; [done|injection H as <-; by left|].
    case_bool_decide as Hroot; [injection H as <-; by left|].
    destruct (mkdirp h fuel fs (path_dirname h p)) as [fs1|] eqn:E1; [|done].
    injection H as <-.
    destruct (decide (q = p)) as [->|Hne].
    + right. by rewrite lookup_insert_eq.
    + rewrite lookup_insert_ne by done. by apply (IH _ _ _ _ E1).
Qed.

Lemma mkdirSync_changes p w :
  changes_only (fun q => at_or_above h p q /\ files w !! q = None /\ path_dirname h q <> q)
               w (snd (mkdirSync h p w)).
Proof.
  unfold mkdirSync.
  destruct (mkdirp h (length p) (files w) p) as [fs'|] eqn:E; [|reflexivity].
  intros q Hq. cbn. by apply (mkdirp_changes _ _ _ _ E).
Qed.

(** **** package.json and its backup *)

Lemma writePackageJson_package pkg :
  keeps (changes_only (package_paths h root)) (writePackageJson h root pkg).
Proof.
  unfold writePackageJson.
  keeps_step; [apply reads_changes, existsSync_reads|].
  keeps_step; [apply reads_changes, existsSync_reads|].
  keeps_step.
  - destruct (_ && _); [|keeps_step]. apply copyFileSync_changes. by right.
  - apply writeFileSync_changes. by left.
Qed.

Lemma syncPackageJsonThemes_package :
  keeps (changes_only (package_paths h root)) (syncPackageJsonThemes h root).
Proof.
  unfold syncPackageJsonThemes.
  keeps_step; [apply reads_changes, readPackageJson_reads|].
  keeps_step; [apply reads_changes, readImportedThemesFromDisk_reads|].
  destruct (rebuild_package _ _); [apply writePackageJson_package | keeps_step].
Qed.

Ltac talk_leaf :=
  apply disk_changes;
  first [ apply showMessage_disk | apply showOpenDialog_disk
        | apply showQuickPickMany_disk | apply showQuickPickOne_disk
        | apply setColorThemeById_disk | apply theme_showReloadNotification_disk
        | apply reloadWindow_disk ].

Ltac read_leaf :=
  apply reads_changes;
  first [ apply existsSync_reads | apply readFileSync_reads | apply parse_json_reads
        | apply readPackageJson_reads | apply readImportedThemesFromDisk_reads ].

Ltac theme_auto := repeat first [ keeps_step | talk_leaf | read_leaf ].

(** **** Import *)

Lemma importThemeFile_changes existingThemes uri :
  keeps (changes_only (fun p => p = import_target h root uri))
        (importThemeFile h themesDir existingThemes uri).
Proof.
  unfold importThemeFile.
  keeps_step; [read_leaf|].
  keeps_step; [read_leaf|].
  keeps_step; [keeps_step|].
  keeps_step; [theme_auto|].
  keeps_step; [keeps_step|].
  keeps_step; [|keeps_step].
  by apply writeFileSync_changes.
Qed.

Lemma importLoop_changes existingThemes uris :
  keeps (changes_only (fun p => exists uri, uri ∈ uris /\ p = import_target h root uri))
        (importLoop h themesDir existingThemes uris).
Proof.
  induction uris as [|uri uris IH]; cbn [importLoop]; [keeps_step|].
  keeps_step.
  - keeps_step; [|keeps_step]. keeps_step; [|keeps_step].
    eapply keeps_changes_mono; [|apply importThemeFile_changes].
    intros p ->. exists uri. split; [by left|done].
  - keeps_step; [|keeps_step].
    eapply keeps_changes_mono; [|exact IH].
    intros p (u & Hu & ->). exists u. split; [by right|done].
Qed.

(** What follows the making of the themes directory. *)
Lemma import_rest_changes uris :
  keeps (changes_only (fun p => (exists uri, uri ∈ uris /\ p = import_target h root uri)
                                \/ package_paths h root p))
    (existingThemes <- readImportedThemesFromDisk h root ;;
     imported <- importLoop h themesDir existingThemes uris ;;
     let importedNames := fst imported in
     let errors := snd imported in
     syncPackageJsonThemes h root ;;;
     match importedNames with
     | [label] =>
         action <- showMessage Information
                     (lit "Sh1ffy: Imported theme " ++ quoted label ++ lit ".")
                     [lit "Apply now"; lit "Reload Window"] ;;
         if bool_decide (action = Some (lit "Apply now")) then
           try_catch
             (setColorThemeById label ;;;
              theme_showReloadNotification
                (lit "Sh1ffy: Theme " ++ quoted label
                 ++ lit " applied. Reload the window to fully apply changes."))
             (fun _ =>
                _ <- showMessage Error
                       (lit "Sh1ffy: Failed to apply the imported theme. See logs for details.") [] ;;
                ret tt)
         else if bool_decide (action = Some (lit "Reload Window")) then
           reloadWindow ;;; reloadWindow
         else ret tt
     | _ :: _ :: _ =>
         theme_showReloadNotification
           (lit "Sh1ffy: Imported " ++ decimal (length importedNames)
            ++ lit " themes. Reload the window to see them in the Color Theme list.")
     | [] => ret tt
     end ;;;
     match errors with
     | [] => ret tt
     | _ :: _ =>
         _ <- showMessage Warning
                (lit "Sh1ffy: Some themes could not be imported. See logs for details."
                 ++ [ch_lf] ++ lit "Files: " ++ join_with (lit ", ") errors) [] ;;
         ret tt
     end).
Proof.
  keeps_step; [read_leaf|].
  keeps_step.
  { eapply keeps_changes_mono; [|apply importLoop_changes]. intros p Hp. by left. }
  cbv zeta.
  keeps_step.
  { eapply keeps_changes_mono; [|apply syncPackageJsonThemes_package]. intros p Hp. by right. }
  keeps_step.
  - destruct (fst a0) as [|l1 [|l2 ls]]; theme_auto.
  - destruct (snd a0); theme_auto.
Qed.

Lemma handleImportThemes_changes w :
  changes_only (fun p => import_paths h root w p \/ package_paths h root p)
               w (snd (handleImportThemes h root w)).
Proof.
  unfold handleImportThemes. fold themesDir.
  unfold bind at 1, showOpenDialog, bind at 1, next_answer.
  destruct (answers w) as [|a rest] eqn:Ea; [reflexivity|].
  unfold ret at 1. cbv beta iota.
  destruct a as [|l|v|[|uri uris]|ixs]; try reflexivity;
    try (by apply changes_only_files).
  set (w1 := with_answers w rest).
  unfold bind at 1, existsSync. cbv beta iota.
  apply changes_only_bind.
  - destruct (negb _); [|by apply changes_only_files].
    eapply changes_only_mono; [|etransitivity; [|apply (mkdirSync_changes themesDir w1)]].
    + intros p Hp. left. left. exact Hp.
    + by apply changes_only_files.
  - intros _. eapply keeps_changes_mono; [|apply (import_rest_changes (uri :: uris))].
    intros p [(u & Hu & ->)|Hp]; [|by right].
    left. right. by exists (uri :: uris), rest, u.
Qed.

(** **** Removal *)

Lemma removeThemeFile_changes theme :
  keeps (changes_only (fun p => p = path_join h root (entry_path theme)
                                /\ startsWith p themesDir = true))
        (removeThemeFile h root themesDir theme).
Proof.
  unfold removeThemeFile.
  keeps_step; [|keeps_step].
  keeps_step; [read_leaf|].
  destruct (startsWith _ _) eqn:Hs; cbn [andb]; [|keeps_step].
  destruct a; [|keeps_step].
  by apply unlinkSync_changes.
Qed.

Lemma handleRemoveThemes_changes w :
  changes_only (fun p => removal_paths h root w p \/ package_paths h root p)
               w (snd (handleRemoveThemes h root w)).
Proof.
  unfold handleRemoveThemes. fold themesDir.
  unfold bind at 1.
  rewrite (reads_run _ w (readImportedThemesFromDisk_reads h root)).
  destruct (fst (readImportedThemesFromDisk h root w)) as [themes|e] eqn:Hthemes;
    [|reflexivity].
  destruct themes as [|t ts] eqn:Et.
  { apply changes_only_bind; [|intros; keeps_step].
    apply (disk_changes _ _ (showMessage_disk _ _ _)). }
  rewrite <- Et in *.
  unfold bind at 1, showQuickPickMany, bind at 1, next_answer.
  destruct (answers w) as [|a rest] eqn:Ea; [reflexivity|].
  unfold ret at 1. cbv beta iota.
  destruct a as [|l|v|uris|ixs]; try reflexivity; try (by apply changes_only_files).
  set (w1 := with_answers w rest).
  destruct (omap (fun i => themes !! i) ixs) as [|pk picks] eqn:Epicks;
    [by apply changes_only_files|].
  rewrite <- Epicks. clear Et.
  apply changes_only_bind.
  { etransitivity; [|apply (disk_changes _ _ (showMessage_disk _ _ _))].
    by apply changes_only_files. }
  intros confirmation. destruct (negb _); [keeps_step|].
  keeps_step.
  - apply keeps_for_each_in; [tc_solve|]. intros theme Hin.
    apply list_elem_of_omap in Hin as (i & Hi & Hth).
    eapply keeps_changes_mono; [|apply removeThemeFile_changes].
    intros p [-> Hs]. left. by exists themes, ixs, rest, i, theme.
  - keeps_step; [|talk_leaf].
    eapply keeps_changes_mono; [|apply syncPackageJsonThemes_package]. intros p Hp. by right.
Qed.

(** **** The other operations *)

Lemma handleListThemes_files w : files (snd (handleListThemes h root w)) = files w.
Proof.
  assert (H : keeps same_disk (handleListThemes h root)); [|by destruct (H w)].
  unfold handleListThemes.
  keeps_step;
    [eapply keeps_weaken; [apply eq_same_disk | apply readImportedThemesFromDisk_reads]|].
  destruct a; repeat keeps_step;
    first [apply showMessage_disk | apply showQuickPickOne_disk].
Qed.

Lemma handleRepairContributions_changes :
  keeps (changes_only (package_paths h root)) (handleRepairContributions h root).
Proof.
  unfold handleRepairContributions.
  keeps_step; [|theme_auto].
  keeps_step; [apply syncPackageJsonThemes_package | talk_leaf].
Qed.

Lemma handleRestorePackageJsonBackup_changes :
  keeps (changes_only (fun p => p = pkgPath)) (handleRestorePackageJsonBackup h root).
Proof.
  unfold handleRestorePackageJsonBackup.
  repeat first [ keeps_step | talk_leaf | read_leaf
               | by apply copyFileSync_changes | by apply writeFileSync_changes ].
Qed.

End ThemeFrames.

(** [mkdir] with an extension root two levels below the directories
    that exist: the two missing directories above the themes directory
    are made with it; and a file in the way makes it throw. *)
Lemma mkdirSync_makes_missing_ancestors :
  let w := Demo.world_of [ (lit "/ext", Dir); (lit "/ext/file", File []) ] None [] in
  let w' := snd (mkdirSync Demo.host (lit "/ext/gone/root/themes") w) in
  fst (mkdirSync Demo.host (lit "/ext/gone/root/themes") w) = Ok tt
  /\ files w' !! lit "/ext/gone" = Some Dir
  /\ files w' !! lit "/ext/gone/root" = Some Dir
  /\ files w' !! lit "/ext/gone/root/themes" = Some Dir
  /\ mkdirSync Demo.host (lit "/ext/file/themes") w = (Throw (IOError (lit "/ext/file/themes")), w).
Proof. cbv zeta. repeat split; vm_compute; reflexivity. Qed.

(** C7 (amended).  The font operations leave every path alone except
    workbench.html (in one of its two locations under the application
    root, or at the cached path).  Of the theme operations,
    - the import leaves every path alone except package.json, its
      backup package.json.sh1ffy.bak, the themes directory and the
      directories above it where they are missing, and, for each file
      the user selects, the themes directory joined with the target
      name of that file;
    - the removal leaves every path alone except package.json, its
      backup, and for each picked theme the extension root joined with
      the path stored in its entry, when that path passes the test of
      the handler;
    - the listing changes no file;
    - the repair leaves every path alone except package.json and its
      backup;
    - the restore leaves every path alone except package.json. *)
Theorem operations_touch_only_their_files (h : host) (extensionRoot : str) :
  let workbench := only_touches_workbench h in
  let package := package_paths h extensionRoot in
  (keeps workbench (handleSetCustomFont h)
   /\ keeps workbench (handleEnableCustomFont h)
   /\ keeps workbench (handleDisableCustomFont h)
   /\ keeps workbench (handleReloadFontConfiguration h)
   /\ keeps workbench (handleResetToDefaults h))
  /\ (forall w,
        changes_only (fun p => import_paths h extensionRoot w p \/ package p)
                     w (snd (handleImportThemes h extensionRoot w)))
  /\ (forall w,
        changes_only (fun p => removal_paths h extensionRoot w p \/ package p)
                     w (snd (handleRemoveThemes h extensionRoot w)))
  /\ (forall w, files (snd (handleListThemes h extensionRoot w)) = files w)
  /\ keeps (changes_only package) (handleRepairContributions h extensionRoot)
  /\ keeps (changes_only (fun p => p = path_join h extensionRoot (lit "package.json")))
           (handleRestorePackageJsonBackup h extensionRoot).
Proof.
  cbv zeta. repeat lazymatch goal with |- _ /\ _ => split end.
  - apply handleSetCustomFont_workbench.
  - apply handleEnableCustomFont_workbench.
  - apply handleDisableCustomFont_workbench.
  - apply handleReloadFontConfiguration_workbench.
  - apply handleResetToDefaults_workbench.
  - apply handleImportThemes_changes.
  - apply handleRemoveThemes_changes.
  - apply handleListThemes_files.
  - apply handleRepairContributions_changes.
  - apply handleRestorePackageJsonBackup_changes.
Qed.

(** The paths of two runs: the import of [/home/me/night.jsonc] and the
    removal of the theme [a.json]. *)
Lemma above_demo_themes p :
  at_or_above Demo.host Demo.themesDir p ->
  p = Demo.themesDir \/ p = Demo.extensionRoot \/ path_dirname Demo.host p = p.
Proof.
  intros [n ->].
  assert (Hroot : forall n, Nat.iter n (path_dirname Demo.host) (lit "/") = lit "/").
  { clear n. induction n as [|n IH]; [done|]. by rewrite Nat.iter_succ, IH. }
  destruct n as [|[|n]]; [by left | by right; left |].
  right; right. rewrite !Nat.iter_succ_r.
  change (path_dirname Demo.host (path_dirname Demo.host Demo.themesDir)) with (lit "/").
  by rewrite Hroot.
Qed.

Lemma import_paths_demo p :
  import_paths Demo.host Demo.extensionRoot Demo.importing_jsonc p ->
  p = Demo.themesDir \/ p = lit "/ext/themes/night.json".
Proof.
  intros [(Habove & Hnone & Hroot)|(uris & rest & uri & Hans & Huri & ->)].
  - apply above_demo_themes in Habove as [->|[->|Hp]]; [by left | | done].
    vm_compute in Hnone. discriminate.
  - injection Hans as <- <-. apply list_elem_of_singleton in Huri as ->. by right.
Qed.

Lemma removal_paths_demo p :
  removal_paths Demo.host Demo.extensionRoot Demo.removing p -> p = lit "/ext/themes/a.json".
Proof.
  intros (themes & ixs & rest & i & theme & Hthemes & Hans & Hi & Hth & -> & _).
  injection Hans as <- <-. apply list_elem_of_singleton in Hi as ->.
  assert (Hscan : fst (readImportedThemesFromDisk Demo.host Demo.extensionRoot Demo.removing)
                  = Ok Demo.syncing_themes) by (vm_compute; reflexivity).
  rewrite Hscan in Hthemes. injection Hthemes as <-.
  by injection Hth as <-.
Qed.

Lemma operations_touch_only_their_files_witness :
  let imported := snd (handleImportThemes Demo.host Demo.extensionRoot Demo.importing_jsonc) in
  let removed := snd (handleRemoveThemes Demo.host Demo.extensionRoot Demo.removing) in
  (files imported !! lit "/etc/passwd" = files Demo.importing_jsonc !! lit "/etc/passwd"
   /\ files imported !! lit "/ext/themes-old/x.json"
      = files Demo.importing_jsonc !! lit "/ext/themes-old/x.json"
   /\ files imported !! lit "/ext/themes/night.json"
      <> files Demo.importing_jsonc !! lit "/ext/themes/night.json")
  /\ (files removed !! lit "/etc/passwd" = files Demo.removing !! lit "/etc/passwd"
      /\ files removed !! lit "/ext/themes-old/x.json"
         = files Demo.removing !! lit "/ext/themes-old/x.json"
      /\ files removed !! lit "/ext/themes/a.json"
         <> files Demo.removing !! lit "/ext/themes/a.json").
Proof.
  cbv zeta.
  destruct (operations_touch_only_their_files Demo.host Demo.extensionRoot)
    as (_ & Himport & Hremove & _).
  assert (Hpkg : forall p, package_paths Demo.host Demo.extensionRoot p ->
                   p = Demo.pkgPath \/ p = Demo.backupPath).
  { intros p [-> | ->]; [by left | by right]. }
  split; (split; [|split; [|vm_compute; discriminate]]).
  - apply Himport. intros [Hp|Hp]; [apply import_paths_demo in Hp | apply Hpkg in Hp];
      by destruct Hp.
  - apply Himport. intros [Hp|Hp]; [apply import_paths_demo in Hp | apply Hpkg in Hp];
      by destruct Hp.
  - apply Hremove. intros [Hp|Hp]; [by apply removal_paths_demo in Hp | apply Hpkg in Hp].
    by destruct Hp.
  - apply Hremove. intros [Hp|Hp]; [by apply removal_paths_demo in Hp | apply Hpkg in Hp].
    by destruct Hp.
Defined.
(** ** The backup of package.json *)

Lemma is_Some_file {A} (o : option A) a : o = Some a -> bool_decide (is_Some o) = true.
Proof. intros ->. by apply bool_decide_eq_true_2. Qed.

Lemma is_Some_none {A} (o : option A) : o = None -> bool_decide (is_Some o) = false.
Proof. intros ->. apply bool_decide_eq_false_2. by intros [? ?]. Qed.

Lemma bool_decide_same {A} `{EqDecision A} (x : A) : bool_decide (x = x) = true.
Proof. by apply bool_decide_eq_true_2. Qed.

Lemma theme_showReloadNotification_run message w :
  exists w', theme_showReloadNotification message w = (Ok tt, w') /\ files w' = files w
             /\ shown w' = (Information, message) :: shown w.
Proof.
  unfold theme_showReloadNotification, bind. rewrite showMessage_ask. cbn zeta.
  destruct (answers w) as [|a r]; cbn.
  - by eexists.
  - destruct (bool_decide _); by eexists.
Qed.

Section Backup.
Context (h : host) (extensionRoot : str).

Let pkgPath := path_join h extensionRoot (lit "package.json").
Let backupPath := path_join h extensionRoot PACKAGE_JSON_BACKUP.

Lemma writePackageJson_first_backup pkg w old :
  files w !! pkgPath = Some (File old) ->
  files w !! backupPath = None ->
  writable h (files w) backupPath = true ->
  let w' := snd (writePackageJson h extensionRoot pkg w) in
  files w' !! backupPath = Some (File old)
  /\ files w' !! pkgPath = Some (File (JSON_stringify h pkg)).
Proof.
  intros Hpkg Hbak Hwr. cbv zeta.
  assert (Hne : backupPath <> pkgPath) by congruence.
  unfold writePackageJson. fold pkgPath backupPath.
  erewrite bind_run; [|unfold existsSync; by rewrite (is_Some_none _ Hbak)].
  erewrite bind_run; [|unfold existsSync; by rewrite (is_Some_file _ _ Hpkg)].
  cbn [negb andb].
  erewrite bind_run.
  2:{ unfold copyFileSync.
      erewrite bind_run; [|unfold readFileSync; by rewrite Hpkg].
      unfold writeFileSync. by rewrite Hwr. }
  unfold writeFileSync, writable. cbn [files with_files].
  rewrite lookup_insert_ne, Hpkg by done. cbn [snd files with_files].
  split.
  - rewrite lookup_insert_ne by done. apply lookup_insert_eq.
  - apply lookup_insert_eq.
Qed.

Lemma writePackageJson_keeps_backup pkg w :
  is_Some (files w !! backupPath) -> backupPath <> pkgPath ->
  files (snd (writePackageJson h extensionRoot pkg w)) !! backupPath = files w !! backupPath.
Proof.
  intros Hbak Hne.
  unfold writePackageJson. fold pkgPath backupPath.
  erewrite bind_run; [|unfold existsSync; by rewrite (bool_decide_eq_true_2 _ Hbak)].
  erewrite bind_run; [|reflexivity].
  cbn [negb andb].
  erewrite bind_run; [|reflexivity].
  unfold writeFileSync. destruct (writable _ _ _); [|done].
  cbn [snd files with_files]. apply lookup_insert_ne. congruence.
Qed.

Lemma restore_overwrites w backup rest :
  files w !! backupPath = Some (File backup) ->
  answers w = Button (lit "Restore") :: rest ->
  writable h (files w) pkgPath = true ->
  files (snd (handleRestorePackageJsonBackup h extensionRoot w)) !! pkgPath
  = Some (File backup).
Proof.
  intros Hbak Hans Hwr.
  unfold handleRestorePackageJsonBackup. fold pkgPath backupPath.
  erewrite bind_run; [|unfold existsSync; by rewrite (is_Some_file _ _ Hbak)].
  cbn [negb].
  erewrite bind_run; [|rewrite showMessage_ask, Hans; reflexivity].
  cbv beta iota.
  rewrite elem_of_singleton_button, !bool_decide_same. cbn [negb].
  set (w1 := with_answers _ rest).
  set (w2 := with_files w1 (<[pkgPath := File backup]> (files w1))).
  destruct (theme_showReloadNotification_run
    (lit "Sh1ffy: package.json restored from backup. Reload the window to apply changes.") w2)
    as (w3 & E & Hf & _).
  erewrite try_catch_run.
  2:{ erewrite bind_run; [|unfold readFileSync; subst w1; cbn [files with_answers with_shown];
                           by rewrite Hbak].
      erewrite bind_run; [exact E|].
      unfold writeFileSync. subst w1. cbn [files with_answers with_shown]. by rewrite Hwr. }
  cbn [snd]. rewrite Hf. subst w2. cbn [files with_files]. apply lookup_insert_eq.
Qed.

Lemma restore_failure_shows_error w rest :
  files w !! backupPath = Some Dir ->
  answers w = Button (lit "Restore") :: rest ->
  let w' := snd (handleRestorePackageJsonBackup h extensionRoot w) in
  files w' = files w
  /\ exists text confirm, shown w' = (Error, text) :: (Warning, confirm) :: shown w.
Proof.
  intros Hbak Hans. cbv zeta.
  unfold handleRestorePackageJsonBackup. fold pkgPath backupPath.
  erewrite bind_run; [|unfold existsSync; by rewrite (is_Some_file _ _ Hbak)].
  cbn [negb].
  erewrite bind_run; [|rewrite showMessage_ask, Hans; reflexivity].
  cbv beta iota.
  rewrite elem_of_singleton_button, !bool_decide_same. cbn [negb].
  erewrite try_catch_run_throw.
  2:{ erewrite bind_run_throw; [reflexivity|].
      unfold readFileSync. cbn [files with_answers with_shown]. by rewrite Hbak. }
  erewrite bind_run; [|apply showMessage_plain].
  cbn [snd ret files shown with_shown with_answers]. split; [done|]. by eexists _, _.
Qed.

End Backup.

(** C8 (amended).  No font operation writes any path other than
    workbench.html, so no copy of it is kept and nothing restores it.
    For package.json a backup is kept and can be restored:
    [writePackageJson] copies the current package.json to
    package.json.sh1ffy.bak before rewriting it when no backup exists,
    and leaves an existing backup as it is;
    [handleRestorePackageJsonBackup], once the user answers "Restore",
    overwrites package.json with the contents of the backup, and when
    the backup cannot be read it shows an error message and changes no
    file. *)
Theorem package_json_is_backed_up_and_restored (h : host) (extensionRoot : str) :
  let pkgPath := path_join h extensionRoot (lit "package.json") in
  let backupPath := path_join h extensionRoot PACKAGE_JSON_BACKUP in
  (keeps (only_touches_workbench h) (handleSetCustomFont h)
   /\ keeps (only_touches_workbench h) (handleEnableCustomFont h)
   /\ keeps (only_touches_workbench h) (handleDisableCustomFont h)
   /\ keeps (only_touches_workbench h) (handleReloadFontConfiguration h)
   /\ keeps (only_touches_workbench h) (handleResetToDefaults h))
  /\ (forall pkg w old,
        files w !! pkgPath = Some (File old) ->
        files w !! backupPath = None ->
        writable h (files w) backupPath = true ->
        let w' := snd (writePackageJson h extensionRoot pkg w) in
        files w' !! backupPath = Some (File old)
        /\ files w' !! pkgPath = Some (File (JSON_stringify h pkg)))
  /\ (forall pkg w,
        is_Some (files w !! backupPath) -> backupPath <> pkgPath ->
        files (snd (writePackageJson h extensionRoot pkg w)) !! backupPath
        = files w !! backupPath)
  /\ (forall w backup rest,
        files w !! backupPath = Some (File backup) ->
        answers w = Button (lit "Restore") :: rest ->
        writable h (files w) pkgPath = true ->
        files (snd (handleRestorePackageJsonBackup h extensionRoot w)) !! pkgPath
        = Some (File backup))
  /\ (forall w rest,
        files w !! backupPath = Some Dir ->
        answers w = Button (lit "Restore") :: rest ->
        let w' := snd (handleRestorePackageJsonBackup h extensionRoot w) in
        files w' = files w
        /\ exists text confirm, shown w' = (Error, text) :: (Warning, confirm) :: shown w).
Proof.
  cbv zeta. split; [|split; [|split; [|split]]].
  - repeat lazymatch goal with |- _ /\ _ => split end.
    + apply handleSetCustomFont_workbench.
    + apply handleEnableCustomFont_workbench.
    + apply handleDisableCustomFont_workbench.
    + apply handleReloadFontConfiguration_workbench.
    + apply handleResetToDefaults_workbench.
  - apply writePackageJson_first_backup.
  - apply writePackageJson_keeps_backup.
  - apply restore_overwrites.
  - apply restore_failure_shows_error.
Qed.

Lemma package_json_is_backed_up_and_restored_witness :
  let w1 := snd (writePackageJson Demo.host Demo.extensionRoot (JObj []) Demo.repairing) in
  let w2 := snd (handleRestorePackageJsonBackup Demo.host Demo.extensionRoot Demo.restoring) in
  (files Demo.repairing !! Demo.backupPath = None
   /\ files w1 !! Demo.backupPath = Some (File Demo.package_text)
   /\ files w1 !! Demo.pkgPath = Some (File (JSON_stringify Demo.host (JObj []))))
  /\ (files Demo.restoring !! Demo.backupPath = Some (File Demo.package_text)
      /\ files w2 !! Demo.pkgPath = Some (File Demo.package_text)).
Proof.
  cbv zeta. split.
  - split; [reflexivity|].
    apply (proj1 (proj2 (package_json_is_backed_up_and_restored
                           Demo.host Demo.extensionRoot))
             (JObj []) Demo.repairing Demo.package_text);
      vm_compute; reflexivity.
  - split; [vm_compute; reflexivity|].
    apply (proj1 (proj2 (proj2 (proj2 (package_json_is_backed_up_and_restored
                                          Demo.host Demo.extensionRoot))))
             Demo.restoring Demo.package_text []);
      vm_compute; reflexivity.
Defined.
(** ** Synchronising package.json *)

Lemma lookup_set_field k v fields :
  Json.lookup_field k (Json.set_field k v fields) = Some v.
Proof.
  induction fields as [|[k' v'] r IH]; cbn.
  - by rewrite bool_decide_same.
  - destruct (bool_decide_reflect (k = k')) as [->|Hne]; cbn.
    + by rewrite bool_decide_same.
    + by rewrite bool_decide_eq_false_2.
Qed.

Lemma set_field_twice k v v' fields :
  Json.set_field k v (Json.set_field k v' fields) = Json.set_field k v fields.
Proof.
  induction fields as [|[k' x] r IH]; cbn.
  - by rewrite bool_decide_same.
  - destruct (bool_decide_reflect (k = k')) as [->|Hne]; cbn.
    + by rewrite bool_decide_same.
    + rewrite bool_decide_eq_false_2 by done. by rewrite IH.
Qed.

Lemma keep_entry_spec entry :
  keep_entry entry = Json.truthy entry && negb (carries_tag entry).
Proof.
  unfold keep_entry, carries_tag, Json.get.
  destruct entry as [|b|n|s|items|fields]; cbn [Json.truthy andb negb];
    rewrite ?andb_true_r; try done.
  by destruct (Json.lookup_field _ fields) as [[| | |t| |]|].
Qed.

Lemma keep_entry_contribution theme : keep_entry (contribution theme) = false.
Proof. reflexivity. Qed.

Lemma filter_keep_contributions themes :
  List.filter keep_entry (map contribution themes) = [].
Proof. induction themes as [|t r IH]; [done|]. cbn [map List.filter]. by rewrite keep_entry_contribution. Qed.

Lemma filter_keep_twice (l : list json) :
  List.filter keep_entry (List.filter keep_entry l) = List.filter keep_entry l.
Proof.
  induction l as [|x l IH]; [done|]. cbn [List.filter].
  destruct (keep_entry x) eqn:E; [|done]. cbn [List.filter]. by rewrite E, IH.
Qed.

Lemma rebuild_package_themes fields cfields existing themesOnDisk :
  Json.lookup_field (lit "contributes") fields = Some (JObj cfields) ->
  Json.lookup_field (lit "themes") cfields = Some (JArr existing) ->
  exists pkg',
    rebuild_package (JObj fields) themesOnDisk = Some pkg'
    /\ themes_of pkg'
       = List.filter (fun e => Json.truthy e && negb (carries_tag e)) existing
         ++ map contribution themesOnDisk.
Proof.
  intros Hc Ht. eexists. split.
  - unfold rebuild_package. rewrite Hc. cbn [Json.truthy]. by rewrite Ht.
  - unfold themes_of. rewrite lookup_set_field, lookup_set_field.
    f_equal. apply filter_ext. intros e. apply keep_entry_spec.
Qed.

Lemma rebuild_package_idempotent pkg themesOnDisk pkg' :
  rebuild_package pkg themesOnDisk = Some pkg' ->
  rebuild_package pkg' themesOnDisk = Some pkg'.
Proof.
  unfold rebuild_package at 1.
  destruct pkg as [|b|n|s|items|fields]; try done.
  { by intros [= <-]. }
  set (c := match Json.lookup_field (lit "contributes") fields with
            | Some c => if Json.truthy c then c else JObj []
            | None => JObj []
            end).
  destruct c as [|b|n|s|items|cfields] eqn:Ec; try done.
  - intros [= <-]. unfold rebuild_package. fold c. by rewrite Ec.
  - intros [= <-]. unfold rebuild_package.
    rewrite lookup_set_field. cbn [Json.truthy]. rewrite lookup_set_field.
    rewrite List.filter_app, filter_keep_twice, filter_keep_contributions, app_nil_r.
    by rewrite !set_field_twice.
Qed.

Section SyncRuns.
Context (h : host) (extensionRoot : str).

Let pkgPath := path_join h extensionRoot (lit "package.json").
Let backupPath := path_join h extensionRoot PACKAGE_JSON_BACKUP.

Lemma sync_run w pkg themes pkg1 :
  fst (readPackageJson h extensionRoot w) = Ok pkg ->
  fst (readImportedThemesFromDisk h extensionRoot w) = Ok themes ->
  rebuild_package pkg themes = Some pkg1 ->
  syncPackageJsonThemes h extensionRoot w = writePackageJson h extensionRoot pkg1 w.
Proof.
  intros Hp Ht Hr. unfold syncPackageJsonThemes.
  erewrite bind_run; [|rewrite (reads_run _ w (readPackageJson_reads h extensionRoot)), Hp; reflexivity].
  erewrite bind_run;
    [|rewrite (reads_run _ w (readImportedThemesFromDisk_reads h extensionRoot)), Ht; reflexivity].
  by rewrite Hr.
Qed.

Lemma writeFileSync_lookup p data w :
  fst (writeFileSync h p data w) = Ok tt ->
  files (snd (writeFileSync h p data w)) !! p = Some (File data).
Proof.
  unfold writeFileSync. destruct (writable _ _ _); [|done].
  intros _. cbn [snd files with_files]. apply lookup_insert_eq.
Qed.

Lemma bind_ok_inv {A B} (m : M A) (k : A -> M B) w b :
  fst (bind m k w) = Ok b -> exists a w', m w = (Ok a, w') /\ bind m k w = k a w'.
Proof. unfold bind. destruct (m w) as [[a|e] w']; [by eexists _, _ | done]. Qed.

Lemma writePackageJson_writes pkg w :
  fst (writePackageJson h extensionRoot pkg w) = Ok tt ->
  files (snd (writePackageJson h extensionRoot pkg w)) !! pkgPath
  = Some (File (JSON_stringify h pkg)).
Proof.
  unfold writePackageJson. fold pkgPath backupPath.
  erewrite bind_run; [|reflexivity]. erewrite bind_run; [|reflexivity].
  intros Hok. destruct (bind_ok_inv _ _ _ _ Hok) as ([] & w1 & E1 & E2).
  rewrite E2 in *. by apply writeFileSync_lookup.
Qed.

Lemma writePackageJson_again pkg w :
  files w !! pkgPath = Some (File (JSON_stringify h pkg)) ->
  files (snd (writePackageJson h extensionRoot pkg w)) !! pkgPath
  = Some (File (JSON_stringify h pkg)).
Proof.
  intros Hpkg.
  unfold writePackageJson. fold pkgPath backupPath.
  erewrite bind_run; [|reflexivity]. erewrite bind_run; [|reflexivity].
  rewrite (is_Some_file _ _ Hpkg), andb_true_r.
  destruct (bool_decide (is_Some (files w !! backupPath))) eqn:Hb; cbn [negb].
  - erewrite bind_run; [|reflexivity].
    unfold writeFileSync, writable. rewrite Hpkg. cbn [snd files with_files].
    apply lookup_insert_eq.
  - assert (Hne : backupPath <> pkgPath).
    { intros E. rewrite E, (is_Some_file _ _ Hpkg) in Hb. done. }
    unfold copyFileSync.
    unfold bind at 1. erewrite bind_run; [|unfold readFileSync; by rewrite Hpkg].
    unfold writeFileSync at 1. destruct (writable h (files w) backupPath); [|done].
    unfold writeFileSync, writable. cbn [files with_files].
    rewrite lookup_insert_ne, Hpkg by done. cbn [snd files with_files].
    apply lookup_insert_eq.
Qed.

Lemma sync_twice w pkg themes pkg1 :
  fst (readPackageJson h extensionRoot w) = Ok pkg ->
  fst (readImportedThemesFromDisk h extensionRoot w) = Ok themes ->
  rebuild_package pkg themes = Some pkg1 ->
  fst (syncPackageJsonThemes h extensionRoot w) = Ok tt ->
  let w1 := snd (syncPackageJsonThemes h extensionRoot w) in
  fst (readImportedThemesFromDisk h extensionRoot w1) = Ok themes ->
  JSON_parse h (JSON_stringify h pkg1) = Some pkg1 ->
  let w2 := snd (syncPackageJsonThemes h extensionRoot w1) in
  files w1 !! pkgPath = Some (File (JSON_stringify h pkg1))
  /\ files w2 !! pkgPath = files w1 !! pkgPath.
Proof.
  intros Hp Ht Hr Hok w1 Ht1 Hround w2.
  assert (H1 : files w1 !! pkgPath = Some (File (JSON_stringify h pkg1))).
  { subst w1. rewrite (sync_run _ _ _ _ Hp Ht Hr) in *. by apply writePackageJson_writes. }
  split; [done|]. rewrite H1. subst w2.
  assert (Hp1 : fst (readPackageJson h extensionRoot w1) = Ok pkg1).
  { unfold readPackageJson. fold pkgPath.
    erewrite bind_run; [|unfold readFileSync; by rewrite H1].
    unfold parse_json. by rewrite Hround. }
  rewrite (sync_run _ _ _ _ Hp1 Ht1 (rebuild_package_idempotent _ _ _ Hr)).
  by apply writePackageJson_again.
Qed.

End SyncRuns.

(** C10 (amended).  [syncPackageJsonThemes] keeps, in their original
    order, the entries of [contributes.themes] that are truthy (every
    object is) and do not carry the Sh1ffy tag, drops the tagged entries
    and the falsy ones ([null], [false], [0], the empty string), and
    appends one tagged entry per theme found in the themes directory;
    run again with the themes directory unchanged, it writes the same
    package.json content. *)
Theorem sync_keeps_foreign_entries_and_is_idempotent (h : host) (extensionRoot : str) :
  (forall fields cfields existing themesOnDisk,
      Json.lookup_field (lit "contributes") fields = Some (JObj cfields) ->
      Json.lookup_field (lit "themes") cfields = Some (JArr existing) ->
      exists pkg',
        rebuild_package (JObj fields) themesOnDisk = Some pkg'
        /\ themes_of pkg'
           = List.filter (fun e => Json.truthy e && negb (carries_tag e)) existing
             ++ map contribution themesOnDisk)
  /\ (forall w pkg themes pkg1,
        fst (readPackageJson h extensionRoot w) = Ok pkg ->
        fst (readImportedThemesFromDisk h extensionRoot w) = Ok themes ->
        rebuild_package pkg themes = Some pkg1 ->
        fst (syncPackageJsonThemes h extensionRoot w) = Ok tt ->
        let w1 := snd (syncPackageJsonThemes h extensionRoot w) in
        fst (readImportedThemesFromDisk h extensionRoot w1) = Ok themes ->
        JSON_parse h (JSON_stringify h pkg1) = Some pkg1 ->
        let w2 := snd (syncPackageJsonThemes h extensionRoot w1) in
        let pkgPath := path_join h extensionRoot (lit "package.json") in
        files w1 !! pkgPath = Some (File (JSON_stringify h pkg1))
        /\ files w2 !! pkgPath = files w1 !! pkgPath).
Proof.
  split.
  - apply rebuild_package_themes.
  - intros w pkg themes pkg1. apply sync_twice.
Qed.

Lemma sync_keeps_foreign_entries_and_is_idempotent_witness :
  let w1 := snd (syncPackageJsonThemes Demo.host Demo.extensionRoot Demo.syncing) in
  let w2 := snd (syncPackageJsonThemes Demo.host Demo.extensionRoot w1) in
  fst (syncPackageJsonThemes Demo.host Demo.extensionRoot Demo.syncing) = Ok tt
  /\ files w1 !! Demo.pkgPath = Some (File (JSON_stringify Demo.host Demo.syncing_pkg1))
  /\ files w2 !! Demo.pkgPath = files w1 !! Demo.pkgPath.
Proof.
  cbv zeta. split; [vm_compute; reflexivity|].
  apply (proj2 (sync_keeps_foreign_entries_and_is_idempotent Demo.host Demo.extensionRoot)
           Demo.syncing Demo.syncing_pkg Demo.syncing_themes Demo.syncing_pkg1);
    vm_compute; reflexivity.
Defined.

(** ** Removing the injected style *)

(** *** The pattern as a search in three stages *)

Lemma startsWith_unfold_nil p : startsWith [] p = match p with [] => true | _ => false end.
Proof. by destruct p. Qed.

Lemma after_first_unfold p s :
  after_first p s
  = if startsWith s p then Some (drop (length p) s)
    else match s with [] => None | _ :: s' => after_first p s' end.
Proof. by destruct s. Qed.

Lemma re_star_lazy_any p s :
  Regex.re_star_lazy (fun _ => true) s (fun s6 => Regex.re_lit p s6 Some) = after_first p s.
Proof.
  induction s as [|c s IH]; cbn [Regex.re_star_lazy after_first]; unfold Regex.re_lit at 1.
  - by destruct (startsWith [] p).
  - destruct (startsWith (c :: s) p); [done|]. exact IH.
Qed.

Lemma re_lit_single x c s (k : str -> option (list N)) :
  Regex.re_lit [x] (c :: s) k = if (x =? c)%N then k s else None.
Proof. unfold Regex.re_lit. cbn [startsWith length drop]. by rewrite andb_true_r. Qed.

Lemma re_star_not_gt s (k : str -> option (list N)) :
  Regex.re_star (fun c => negb (c =? ch_gt)%N) s (fun s4 => Regex.re_lit (lit ">") s4 k)
  = match after_gt s with Some s5 => k s5 | None => None end.
Proof.
  change (lit ">") with [ch_gt].
  induction s as [|c s IH]; cbn [Regex.re_star after_gt].
  - reflexivity.
  - rewrite re_lit_single, (N.eqb_sym ch_gt c).
    destruct (c =? ch_gt)%N; cbn [negb]; [done|].
    rewrite IH. destruct (after_gt s) as [s5|]; [|done]. by destruct (k s5).
Qed.

Lemma re_lit_attr_space c s (k : str -> option (list N)) :
  isSpace c = true -> Regex.re_lit STYLE_ATTR (c :: s) k = None.
Proof.
  intros Hc. unfold Regex.re_lit.
  change STYLE_ATTR with (105%N :: lit "d=" ++ quoted STYLE_ID). cbn [startsWith].
  destruct (N.eqb_spec 105 c) as [<-|]; [discriminate|reflexivity].
Qed.

Lemma re_star_space s (k : str -> option (list N)) :
  Regex.re_star isSpace s (fun s2 => Regex.re_lit STYLE_ATTR s2 k)
  = Regex.re_lit STYLE_ATTR (trimStart s) k.
Proof.
  induction s as [|c s IH]; cbn [Regex.re_star trimStart]; [done|].
  destruct (isSpace c) eqn:Hc; [|done].
  rewrite IH. destruct (Regex.re_lit STYLE_ATTR (trimStart s) k); [done|].
  by apply re_lit_attr_space.
Qed.

Lemma style_pattern_match_style s : style_pattern s Some = match_style s.
Proof.
  unfold style_pattern, match_style, after_open, Regex.re_seq.
  unfold Regex.re_lit at 1. change (length (lit "<style")) with 6%nat.
  destruct (startsWith s (lit "<style")); [|done].
  unfold Regex.re_plus. destruct (drop 6 s) as [|c s1]; [done|].
  destruct (isSpace c); [|done].
  rewrite re_star_space. unfold Regex.re_lit at 1.
  change (lit "id=" ++ quoted STYLE_ID) with STYLE_ATTR.
  destruct (startsWith (trimStart s1) STYLE_ATTR); [|done].
  rewrite re_star_not_gt. cbv zeta.
  destruct (after_gt _) as [s5|]; [|done].
  apply re_star_lazy_any.
Qed.

(** *** Searching in a concatenation *)

Lemma startsWith_true s p : startsWith s p = true <-> exists rest, s = p ++ rest.
Proof.
  split; [apply startsWith_inv|]. intros [rest ->]. apply startsWith_app.
Qed.

Lemma startsWith_app_l u y p : startsWith u p = true -> startsWith (u ++ y) p = true.
Proof.
  intros H. apply startsWith_inv in H as [rest ->]. rewrite <- app_assoc. apply startsWith_app.
Qed.

Lemma startsWith_drop_app u y p :
  startsWith u p = true -> drop (length p) (u ++ y) = drop (length p) u ++ y.
Proof.
  intros H. apply startsWith_inv in H as [rest ->].
  by rewrite <- app_assoc, !drop_app_length.
Qed.

(** A pattern found at the start of [u ++ y] lies in [u] or runs over
    into [y]. *)
Lemma startsWith_app_inv p : forall u y,
  startsWith (u ++ y) p = true ->
  startsWith u p = true \/ exists k, k <> [] /\ p = u ++ k /\ startsWith y k = true.
Proof.
  induction p as [|x p IH]; intros u y H; [by left|].
  destruct u as [|c u].
  - right. exists (x :: p). by split.
  - cbn [app startsWith] in *. apply andb_true_iff in H as [Hx H].
    rewrite Hx. cbn [andb].
    destruct (IH u y H) as [|(k & Hk & -> & Hy)]; [by left|].
    right. exists k. split; [done|]. split; [|done].
    apply N.eqb_eq in Hx as ->. done.
Qed.

Lemma startsWith_app_no_overrun p u y :
  u <> [] -> no_overrun p y ->
  startsWith (u ++ y) p = startsWith u p.
Proof.
  intros Hu Hy. destruct (startsWith (u ++ y) p) eqn:E.
  - apply startsWith_app_inv in E as [E|(k & Hk & -> & Hyk)]; [done|].
    exfalso. destruct k as [|c k]; [done|]. destruct y as [|c' y]; [done|].
    cbn [startsWith] in Hyk. apply andb_true_iff in Hyk as [Hc _].
    apply N.eqb_eq in Hc as ->. cbn in Hy. apply Hy.
    destruct u as [|x u]; [done|]. cbn [app tail].
    apply elem_of_app. right. by left.
  - destruct (startsWith u p) eqn:E'; [|done].
    by rewrite (startsWith_app_l _ y _ E') in E.
Qed.

Lemma after_first_occurs p s r :
  after_first p s = Some r -> exists f, s = f ++ p ++ r.
Proof.
  revert r. induction s as [|c s IH]; intros r; rewrite after_first_unfold.
  - destruct (startsWith [] p) eqn:E; [|done]. intros [= <-].
    apply startsWith_inv in E as [rest E]. exists []. cbn [app]. rewrite E at 1.
    by rewrite E, drop_app_length.
  - destruct (startsWith (c :: s) p) eqn:E.
    + intros [= <-]. apply startsWith_inv in E as [rest E]. exists []. cbn [app].
      rewrite E at 1. by rewrite E, drop_app_length.
    + intros H. destruct (IH _ H) as [f ->]. by exists (c :: f).
Qed.

Lemma occurs_after_first p s : occurs p s -> is_Some (after_first p s).
Proof.
  intros (pre & post & ->). induction pre as [|c pre IH]; rewrite after_first_unfold.
  - cbn [app]. by rewrite startsWith_app.
  - destruct (startsWith _ p); [done|]. exact IH.
Qed.

Lemma after_first_app_found p u y r :
  after_first p u = Some r -> after_first p (u ++ y) = Some (r ++ y).
Proof.
  revert r. induction u as [|c u IH]; intros r.
  - rewrite (after_first_unfold p []), (after_first_unfold p ([] ++ y)).
    destruct (startsWith [] p) eqn:E; [|done]. intros [= <-].
    rewrite (startsWith_app_l _ y _ E). by rewrite (startsWith_drop_app _ _ _ E).
  - rewrite (after_first_unfold p (c :: u)), (after_first_unfold p ((c :: u) ++ y)).
    destruct (startsWith (c :: u) p) eqn:E.
    + intros [= <-]. rewrite (startsWith_app_l _ y _ E).
      by rewrite (startsWith_drop_app _ _ _ E).
    + intros H. cbn [app].
      destruct (startsWith (c :: u ++ y) p) eqn:E2; [|by apply IH].
      exfalso.
      apply (startsWith_app_inv p (c :: u) y) in E2 as [E2|(k & Hk & Hp & _)]; [congruence|].
      destruct (after_first_occurs _ _ _ H) as [f Hf].
      apply (f_equal length) in Hp, Hf. rewrite !length_app in *. cbn [length] in Hp.
      destruct k; [done|]. cbn [length] in Hp. lia.
Qed.

(** Nothing of [p] in [u], and no occurrence can run over into [y]:
    the search goes on in [y]. *)
Lemma after_first_app_skip p u y :
  after_first p u = None -> no_overrun p y ->
  after_first p (u ++ y) = after_first p y.
Proof.
  intros Hu Hy. induction u as [|c u IH]; [done|].
  rewrite after_first_unfold in Hu.
  destruct (startsWith (c :: u) p) eqn:E; [done|].
  cbn [app]. rewrite after_first_unfold.
  change (c :: u ++ y) with ((c :: u) ++ y).
  rewrite (startsWith_app_no_overrun p (c :: u) y) by done.
  rewrite E. by apply IH.
Qed.

(** A text without the first character of [p] is skipped. *)
Lemma after_first_app_absent p0 p u y :
  p0 ∉ u -> after_first (p0 :: p) (u ++ y) = after_first (p0 :: p) y.
Proof.
  intros Hu. induction u as [|c u IH]; [done|].
  cbn [app]. rewrite after_first_unfold. cbn [startsWith].
  destruct (N.eqb_spec p0 c) as [->|Hne].
  - exfalso. apply Hu. by left.
  - cbn [andb]. apply IH. intros H. apply Hu. by right.
Qed.

Lemma after_gt_app_found u y r :
  after_gt u = Some r -> after_gt (u ++ y) = Some (r ++ y).
Proof.
  induction u as [|c u IH]; [done|]. cbn [app after_gt].
  destruct (c =? ch_gt)%N; [by intros [= <-] | exact IH].
Qed.

Lemma after_gt_app_skip u y : after_gt u = None -> after_gt (u ++ y) = after_gt y.
Proof.
  induction u as [|c u IH]; [done|]. cbn [app after_gt].
  destruct (c =? ch_gt)%N; [done | exact IH].
Qed.

Lemma after_gt_suffix s r : after_gt s = Some r -> exists g, s = g ++ ch_gt :: r.
Proof.
  induction s as [|c s IH]; [done|]. cbn [after_gt].
  destruct (N.eqb_spec c ch_gt) as [->|Hne].
  - intros [= <-]. by exists [].
  - intros H. destruct (IH H) as [g ->]. by exists (c :: g).
Qed.

Lemma after_gt_app_some o s r :
  after_gt s = Some r -> exists x, after_gt (o ++ s) = Some (x ++ r).
Proof.
  intros H. induction o as [|c o IH]; [by exists []|].
  cbn [app after_gt]. destruct (c =? ch_gt)%N; [|exact IH].
  destruct (after_gt_suffix _ _ H) as [g ->].
  exists (o ++ g ++ [ch_gt]). by rewrite <- !app_assoc.
Qed.

(** *** The opening of the style element *)

Lemma trimStart_app s y : trimStart s <> [] -> trimStart (s ++ y) = trimStart s ++ y.
Proof.
  induction s as [|c s IH]; [done|]. cbn [app trimStart].
  destruct (isSpace c); [exact IH | done].
Qed.

Lemma trimStart_app_nil s y : trimStart s = [] -> trimStart (s ++ y) = trimStart y.
Proof.
  induction s as [|c s IH]; [done|]. cbn [app trimStart].
  destruct (isSpace c); [exact IH | done].
Qed.

Lemma trimStart_suffix s : exists w, s = w ++ trimStart s.
Proof.
  induction s as [|c s [w IH]]; [by exists []|]. cbn [trimStart].
  destruct (isSpace c); [|by exists []]. exists (c :: w). cbn [app]. by rewrite <- IH.
Qed.

Lemma startsWith_nonempty s p : p <> [] -> startsWith s p = true -> s <> [].
Proof. intros Hp H ->. by destruct p. Qed.

Lemma after_open_app_found u y r :
  after_open u = Some r -> after_open (u ++ y) = Some (r ++ y).
Proof.
  unfold after_open.
  destruct (startsWith u (lit "<style")) eqn:E; [|done].
  rewrite (startsWith_app_l _ y _ E).
  change 6%nat with (length (lit "<style")). rewrite (startsWith_drop_app _ y _ E).
  destruct (drop _ u) as [|c s1]; [done|]. cbn [app].
  destruct (isSpace c); [|done]. cbv zeta.
  destruct (startsWith (trimStart s1) STYLE_ATTR) eqn:E2; [|done].
  intros [= <-].
  rewrite trimStart_app by (by eapply startsWith_nonempty; [|exact E2]).
  by rewrite (startsWith_app_l _ y _ E2), (startsWith_drop_app _ y _ E2).
Qed.

Lemma after_open_app_inv u y s3 :
  u <> [] -> follows_cleanly y ->
  after_open (u ++ y) = Some s3 ->
  exists r, after_open u = Some r /\ s3 = r ++ y.
Proof.
  intros Hu (Ho & Ha & Ht). unfold after_open.
  rewrite (startsWith_app_no_overrun _ u y Hu Ho).
  destruct (startsWith u (lit "<style")) eqn:E; [|done].
  change 6%nat with (length (lit "<style")). rewrite (startsWith_drop_app _ y _ E).
  destruct (drop _ u) as [|c s1].
  - cbn [app]. destruct y as [|c s1]; [done|].
    destruct (isSpace c) eqn:Hc; [|done]. cbv zeta.
    cbn [trimStart] in Ht. rewrite Hc in Ht. by rewrite Ht.
  - cbn [app]. destruct (isSpace c); [|done]. cbv zeta.
    destruct (trimStart s1) as [|d s2] eqn:Es.
    + rewrite (trimStart_app_nil _ _ Es), Ht. done.
    + rewrite trimStart_app by (by rewrite Es). rewrite Es.
      rewrite (startsWith_app_no_overrun _ (d :: s2) y) by done.
      destruct (startsWith (d :: s2) STYLE_ATTR) eqn:E2; [|done].
      intros H. eexists. split; [done|].
      assert (Hs3 : s3 = drop (length STYLE_ATTR) ((d :: s2) ++ y)) by congruence.
      rewrite Hs3. by rewrite (startsWith_drop_app _ y _ E2).
Qed.

Lemma after_open_suffix s s3 :
  after_open s = Some s3 -> exists o, o <> [] /\ s = o ++ s3.
Proof.
  unfold after_open.
  destruct (startsWith s (lit "<style")) eqn:E; [|done].
  apply startsWith_inv in E as [rest ->].
  change (drop 6 (lit "<style" ++ rest)) with rest.
  destruct rest as [|c s1]; [done|]. destruct (isSpace c); [|done]. cbv zeta.
  destruct (startsWith (trimStart s1) STYLE_ATTR) eqn:E2; [|done].
  intros H. assert (Hs3 : s3 = drop (length STYLE_ATTR) (trimStart s1)) by congruence.
  clear H. subst s3. apply startsWith_inv in E2 as [rest2 E2].
  destruct (trimStart_suffix s1) as [w Hw]. rewrite E2 in Hw |- *.
  rewrite drop_app_length.
  exists (lit "<style" ++ c :: w ++ STYLE_ATTR). split; [done|].
  rewrite Hw at 1. rewrite <- app_assoc. cbn [app]. by rewrite <- app_assoc.
Qed.

(** *** A match: where it can lie *)

Lemma match_style_app_found u y r :
  match_style u = Some r -> match_style (u ++ y) = Some (r ++ y).
Proof.
  unfold match_style.
  destruct (after_open u) as [u3|] eqn:E1; [|done].
  rewrite (after_open_app_found _ y _ E1).
  destruct (after_gt u3) as [u5|] eqn:E2; [|done].
  rewrite (after_gt_app_found _ y _ E2).
  apply after_first_app_found.
Qed.

(** A match that starts in [u] either lies in [u], or ends where the
    first closing tag of [y] (after its first bracket, if the opening
    tag is not closed in [u]) ends. *)
Lemma match_style_app u y :
  u <> [] -> follows_cleanly y -> no_overrun (lit "</style>") y ->
  match_style (u ++ y)
  = match after_open u with
    | None => None
    | Some u3 =>
        match after_gt u3 with
        | Some u5 =>
            match after_first (lit "</style>") u5 with
            | Some r => Some (r ++ y)
            | None => after_first (lit "</style>") y
            end
        | None =>
            match after_gt y with
            | Some y5 => after_first (lit "</style>") y5
            | None => None
            end
        end
    end.
Proof.
  intros Hu Hy Hc. unfold match_style.
  destruct (after_open (u ++ y)) as [s3|] eqn:E.
  - destruct (after_open_app_inv _ _ _ Hu Hy E) as (u3 & -> & ->).
    destruct (after_gt u3) as [u5|] eqn:E2.
    + rewrite (after_gt_app_found _ y _ E2).
      destruct (after_first (lit "</style>") u5) as [r|] eqn:E3.
      * by apply after_first_app_found.
      * by apply after_first_app_skip.
    + by rewrite (after_gt_app_skip _ y E2).
  - destruct (after_open u) as [u3|] eqn:E1; [|done].
    by rewrite (after_open_app_found _ y _ E1) in E.
Qed.

(** Before an unclosed opening tag, a match begins earlier. *)
Lemma match_style_after_unclosed s r :
  match_style s = Some r -> is_Some (match_style (STYLE_TAG_UNCLOSED ++ s)).
Proof.
  unfold match_style at 1.
  destruct (after_open s) as [s3|] eqn:E1; [|done].
  destruct (after_gt s3) as [s5|] eqn:E2; [|done]. intros E3.
  destruct (after_open_suffix _ _ E1) as (o & _ & ->).
  destruct (after_gt_app_some o _ _ E2) as [x Hx].
  assert (Ho : after_open (STYLE_TAG_UNCLOSED ++ o ++ s3) = Some (o ++ s3)) by reflexivity.
  unfold match_style. rewrite Ho, Hx.
  apply occurs_after_first.
  destruct (after_first_occurs _ _ _ E3) as [f ->].
  exists (x ++ f), r. by rewrite <- app_assoc.
Qed.

Lemma match_style_shorter s r : match_style s = Some r -> (length r < length s)%nat.
Proof.
  unfold match_style.
  destruct (after_open s) as [s3|] eqn:E1; [|done].
  destruct (after_gt s3) as [s5|] eqn:E2; [|done]. intros E3.
  destruct (after_open_suffix _ _ E1) as (o & Ho & ->).
  destruct (after_gt_suffix _ _ E2) as [g ->].
  destruct (after_first_occurs _ _ _ E3) as [f ->].
  rewrite !length_app. cbn [length]. rewrite !length_app. lia.
Qed.

(** *** The leftmost match *)

Lemma replace_first_least (m : Regex.matcher) s :
  ((forall i, (i <= length s)%nat -> m (drop i s) Some = None)
   /\ Regex.replace_first m [] s = s)
  \/ (exists p r, (p <= length s)%nat
        /\ (forall i, (i < p)%nat -> m (drop i s) Some = None)
        /\ m (drop p s) Some = Some r
        /\ Regex.replace_first m [] s = take p s ++ r).
Proof.
  induction s as [|c s IH]; cbn [Regex.replace_first].
  - destruct (m [] Some) as [r|] eqn:E.
    + right. exists O, r. repeat split; [lia | lia | done].
    + left. split; [|done]. intros i Hi. by rewrite drop_nil.
  - destruct (m (c :: s) Some) as [r|] eqn:E.
    + right. exists O, r. repeat split; [cbn; lia | lia | done].
    + destruct IH as [[Hnone ->]|(p & r & Hp & Hnone & Hm & ->)].
      * left. split; [|done]. intros [|i] Hi; [done|]. apply Hnone. cbn in Hi. lia.
      * right. exists (S p), r. repeat split; [cbn; lia| |done].
        intros [|i] Hi; [done|]. apply Hnone. lia.
Qed.

Lemma removeStyle_unchanged html :
  removeStyle html = html -> forall i, match_style (drop i html) = None.
Proof.
  intros Hsame i. unfold removeStyle in Hsame.
  destruct (replace_first_least style_pattern html)
    as [[Hnone _]|(p & r & Hp & _ & Hm & Hr)].
  - destruct (le_lt_dec i (length html)) as [Hi|Hi].
    + rewrite <- style_pattern_match_style. by apply Hnone.
    + by rewrite drop_ge by lia.
  - exfalso. rewrite style_pattern_match_style in Hm.
    apply match_style_shorter in Hm. rewrite Hsame in Hr.
    apply (f_equal length) in Hr. rewrite length_app, length_take in Hr.
    rewrite length_drop in Hm. lia.
Qed.

(** *** Occurrences in a concatenation *)

Lemma occurs_app_l p x y : occurs p x -> occurs p (x ++ y).
Proof. intros (a & b & ->). exists a, (b ++ y). by rewrite <- !app_assoc. Qed.

Lemma occurs_app_r p x y : occurs p y -> occurs p (x ++ y).
Proof. intros (a & b & ->). exists (x ++ a), b. by rewrite <- !app_assoc. Qed.

Lemma occurs_nil p : occurs p [] -> p = [].
Proof. intros (a & b & H). symmetry in H. apply app_eq_nil in H as [_ H]. by apply app_eq_nil in H as [-> _]. Qed.

(** An occurrence cannot contain a character that the pattern has not. *)
Lemma occurs_split_at p x c z :
  c ∉ p -> occurs p (x ++ c :: z) -> occurs p x \/ occurs p z.
Proof.
  intros Hc (pre & post & E).
  destruct (app_eq_app _ _ _ _ E) as [l [[-> E2]|[-> E2]]].
  - destruct (app_eq_app _ _ _ _ E2) as [l' [[-> E3]|[-> E3]]].
    + destruct l' as [|d l'].
      * left. exists pre, []. by rewrite !app_nil_r.
      * cbn [app] in E3. injection E3 as <- _. exfalso. apply Hc.
        apply elem_of_app. right. by left.
    + left. by exists pre, l'.
  - destruct l as [|d l].
    + cbn [app] in E2. destruct p as [|d p].
      * left. exists x, []. by rewrite !app_nil_r.
      * cbn [app] in E2. injection E2 as <- _. exfalso. apply Hc. by left.
    + cbn [app] in E2. injection E2 as <- ->. right. by exists l, post.
Qed.

Lemma occurs_snoc p e x c :
  e <> c -> occurs (p ++ [e]) (x ++ [c]) -> occurs (p ++ [e]) x.
Proof.
  intros Hne (pre & post & E).
  destruct post as [|d post _] using rev_ind.
  - rewrite app_nil_r, app_assoc in E. apply app_inj_tail in E as [_ E]. congruence.
  - rewrite !app_assoc in E. apply app_inj_tail in E as [-> _].
    exists pre, post. by rewrite <- !app_assoc.
Qed.

Lemma not_elem_of_forallb (c : N) l :
  forallb (fun x => negb (x =? c)%N) l = true -> c ∉ l.
Proof.
  induction l as [|x l IH]; cbn [forallb]; [intros _ H; by apply elem_of_nil in H|].
  intros H. apply andb_true_iff in H as [Hx Hl]. intros Hin.
  apply elem_of_cons in Hin as [->|Hin]; [by rewrite N.eqb_refl in Hx | by apply IH].
Qed.

(** *** Escaped quotes *)

Lemma escape_quotes_escaped font : quotes_escaped (escape_quotes font).
Proof.
  induction font as [|c font IH]; intros a b E.
  - by destruct a.
  - cbn [escape_quotes flat_map] in E. fold (escape_quotes font) in E.
    revert E. destruct (N.eqb_spec c ch_quote) as [->|Hne]; intros E.
    + cbn [app] in E. destruct a as [|x a]; [done|]. injection E as <- E.
      destruct a as [|y a]; [by exists []|]. injection E as <- E.
      destruct (IH _ _ E) as [a' ->]. by exists (ch_backslash :: ch_quote :: a').
    + cbn [app] in E. destruct a as [|x a]; [by injection E as E1 _|]. injection E as <- E.
      destruct (IH _ _ E) as [a' ->]. by exists (c :: a').
Qed.

Lemma quotes_escaped_after_close s rest :
  quotes_escaped s -> after_first (lit "</style>") s = Some rest -> quotes_escaped rest.
Proof.
  intros Hs Hrest a b E.
  destruct (after_first_occurs _ _ _ Hrest) as [f Hf].
  destruct (Hs (f ++ lit "</style>" ++ a) b) as [a' Ha'].
  { rewrite Hf, E. by rewrite <- !app_assoc. }
  destruct a as [|x a _] using rev_ind.
  - rewrite app_nil_r in Ha'. change (lit "</style>") with (lit "</style" ++ [ch_gt]) in Ha'.
    rewrite app_assoc in Ha'. apply app_inj_tail in Ha' as [_ Ha']. discriminate.
  - rewrite !app_assoc in Ha'. apply app_inj_tail in Ha' as [_ ->]. by exists a.
Qed.

(** The marker in [x ++ rest], where the quotes of [rest] are escaped:
    it lies in [x], or [x] ends with the unclosed marker and [rest]
    brings the bracket. *)
Lemma occurs_marker_escaped x rest :
  quotes_escaped rest ->
  occurs STYLE_TAG_OPEN (x ++ rest) ->
  occurs STYLE_TAG_OPEN x
  \/ exists x0 rest', x = x0 ++ STYLE_TAG_UNCLOSED /\ rest = ch_gt :: rest'.
Proof.
  intros Hq (pre & post & E).
  change STYLE_TAG_OPEN with (STYLE_TAG_UNCLOSED ++ [ch_gt]) in *.
  rewrite <- !app_assoc in E. rewrite (app_assoc pre) in E.
  destruct (app_eq_app _ _ _ _ E) as [l [[-> E2]|[E1 ->]]].
  - destruct l as [|d l].
    + right. exists pre, post. rewrite app_nil_r. split; [done|exact (eq_sym E2)].
    + cbn [app] in E2. injection E2 as <- ->. left. exists pre, l. by rewrite <- !app_assoc.
  - destruct l as [|d l _] using rev_ind.
    + right. exists pre, post. rewrite app_nil_r in E1. by split.
    + exfalso.
      change STYLE_TAG_UNCLOSED with (lit "<style id=" ++ [ch_quote] ++ lit "sh1ffy-tweak"
                                      ++ [115%N] ++ [ch_quote]) in E1.
      rewrite !app_assoc in E1. apply app_inj_tail in E1 as [E1 <-].
      destruct (Hq l (ch_gt :: post)) as [l' ->]; [by rewrite <- !app_assoc|].
      rewrite !app_assoc in E1. apply app_inj_tail in E1 as [_ E1]. discriminate.
Qed.

(** *** The injected block under the pattern *)

Lemma occurs_length p s : occurs p s -> (length p <= length s)%nat.
Proof. intros (pre & post & ->). rewrite !length_app. lia. Qed.

(** From the end of the opening tag of the injected block, the first
    closing tag is the one in the font name, if it has one, and the
    block's own otherwise. *)
Lemma markup_first_close safeFont T :
  after_first (lit "</style>")
              ([ch_lf] ++ css_rule safeFont ++ [ch_lf] ++ lit "</style>" ++ T)
  = Some (leftover safeFont ++ T).
Proof.
  unfold css_rule, leftover. rewrite <- !app_assoc.
  change (lit "</style>") with (60%N :: lit "/style>") at 1.
  rewrite (after_first_app_absent 60%N (lit "/style>") [ch_lf])
    by (apply not_elem_of_forallb; reflexivity).
  rewrite (after_first_app_absent 60%N (lit "/style>") css_before)
    by (apply not_elem_of_forallb; reflexivity).
  change (60%N :: lit "/style>") with (lit "</style>").
  destruct (after_first (lit "</style>") safeFont) as [rest|] eqn:E.
  - rewrite (after_first_app_found _ _ (css_after ++ [ch_lf] ++ lit "</style>" ++ T) _ E).
    by rewrite <- !app_assoc.
  - rewrite after_first_app_skip;
      [|done|cbn; apply not_elem_of_forallb; reflexivity].
    rewrite (app_assoc css_after).
    change (lit "</style>") with (60%N :: lit "/style>") at 1.
    rewrite (after_first_app_absent 60%N (lit "/style>") (css_after ++ [ch_lf]))
      by (apply not_elem_of_forallb; reflexivity).
    change (60%N :: lit "/style>") with (lit "</style>").
    rewrite after_first_unfold, startsWith_app. by rewrite drop_app_length.
Qed.

Lemma match_style_markup font T :
  match_style (getStyleMarkup font ++ T) = Some (leftover (escape_quotes font) ++ T).
Proof.
  rewrite getStyleMarkup_eq, <- !app_assoc. unfold match_style.
  set (rest := [ch_lf] ++ _).
  assert (Ho : after_open (STYLE_TAG_OPEN ++ rest) = Some (ch_gt :: rest)) by reflexivity.
  rewrite Ho. cbn [after_gt]. rewrite N.eqb_refl. apply markup_first_close.
Qed.

Lemma inserted_follows_cleanly gap T :
  is_gap gap ->
  follows_cleanly (gap ++ STYLE_TAG_OPEN ++ T)
  /\ no_overrun (lit "</style>") (gap ++ STYLE_TAG_OPEN ++ T).
Proof.
  intros [->| ->]; (split; [split; [|split]|]);
    try (cbn; apply not_elem_of_forallb; reflexivity); reflexivity.
Qed.

Lemma inserted_first_close gap font T :
  is_gap gap ->
  after_first (lit "</style>") (gap ++ getStyleMarkup font ++ T)
  = Some (leftover (escape_quotes font) ++ T).
Proof.
  intros Hgap. rewrite getStyleMarkup_eq, <- !app_assoc.
  rewrite (app_assoc gap).
  rewrite after_first_app_skip.
  - apply markup_first_close.
  - destruct Hgap as [->| ->]; reflexivity.
  - cbn; apply not_elem_of_forallb; reflexivity.
Qed.

Lemma inserted_first_bracket gap font T :
  is_gap gap ->
  after_gt (gap ++ getStyleMarkup font ++ T)
  = Some ([ch_lf] ++ css_rule (escape_quotes font) ++ [ch_lf] ++ lit "</style>" ++ T).
Proof.
  intros Hgap. rewrite getStyleMarkup_eq, <- !app_assoc.
  rewrite (app_assoc gap).
  apply (after_gt_app_found (gap ++ STYLE_TAG_OPEN) _ []).
  destruct Hgap as [->| ->]; reflexivity.
Qed.

(** A match that begins before the inserted block, in HTML where
    nothing matched, ends in the inserted block as the block's own
    match does. *)
Lemma match_style_before_inserted u gap font T post r :
  u <> [] -> is_gap gap ->
  match_style (u ++ post) = None ->
  match_style (u ++ gap ++ getStyleMarkup font ++ T) = Some r ->
  r = leftover (escape_quotes font) ++ T.
Proof.
  intros Hu Hgap Hnone.
  assert (Hun : match_style u = None).
  { destruct (match_style u) as [x|] eqn:E; [|done].
    by rewrite (match_style_app_found _ post _ E) in Hnone. }
  assert (HY : follows_cleanly (gap ++ getStyleMarkup font ++ T)
               /\ no_overrun (lit "</style>") (gap ++ getStyleMarkup font ++ T)).
  { rewrite getStyleMarkup_eq, <- !app_assoc. by apply inserted_follows_cleanly. }
  destruct HY as [HY1 HY2].
  rewrite (match_style_app _ _ Hu HY1 HY2).
  unfold match_style in Hun.
  destruct (after_open u) as [u3|]; [|done].
  destruct (after_gt u3) as [u5|].
  - rewrite Hun, inserted_first_close by done. by intros [= <-].
  - rewrite inserted_first_bracket, markup_first_close by done. by intros [= <-].
Qed.

(** Where the leftmost match begins, no unclosed opening tag ends. *)
Lemma no_unclosed_before s p r x0 :
  (p <= length s)%nat ->
  (forall i, (i < p)%nat -> match_style (drop i s) = None) ->
  match_style (drop p s) = Some r ->
  take p s <> x0 ++ STYLE_TAG_UNCLOSED.
Proof.
  intros Hp Hmin Hm Hx.
  destruct (match_style_after_unclosed _ _ Hm) as [x Hsome].
  assert (Hlen : length (take p s) = p) by (rewrite length_take; lia).
  rewrite Hx, length_app in Hlen.
  assert (Hpos : (0 < length STYLE_TAG_UNCLOSED)%nat) by (cbn; lia).
  assert (Hd : drop (length x0) s = STYLE_TAG_UNCLOSED ++ drop p s).
  { rewrite <- (take_drop p s) at 1. by rewrite Hx, <- app_assoc, drop_app_length. }
  rewrite <- Hd, Hmin in Hsome by lia. discriminate.
Qed.

(** *** Removal after insertion *)

(** In HTML [pre ++ post] where the pattern matches nowhere, after the
    block is inserted between [pre] and [post], [removeStyle] cuts from
    some point of [pre] (or from the block's beginning) to the first
    closing tag after the block's opening tag, and the text kept before
    the cut does not end with an unclosed opening tag. *)
Lemma removeStyle_after_insert pre gap post font :
  is_gap gap ->
  (forall i, match_style (drop i (pre ++ post)) = None) ->
  exists x x',
    pre ++ gap = x ++ x'
    /\ removeStyle (pre ++ gap ++ getStyleMarkup font ++ [ch_lf] ++ post)
       = x ++ leftover (escape_quotes font) ++ [ch_lf] ++ post
    /\ forall x0, x <> x0 ++ STYLE_TAG_UNCLOSED.
Proof.
  intros Hgap Hnone.
  set (T := [ch_lf] ++ post). set (MK := getStyleMarkup font).
  set (s := pre ++ gap ++ MK ++ T).
  assert (Hq : match_style (drop (length (pre ++ gap)) s)
               = Some (leftover (escape_quotes font) ++ T)).
  { unfold s. rewrite (app_assoc pre), drop_app_length. apply match_style_markup. }
  assert (Hlen : (length (pre ++ gap) <= length s)%nat).
  { unfold s. rewrite !length_app. lia. }
  unfold removeStyle.
  destruct (replace_first_least style_pattern s)
    as [[Hno _]|(p & r & Hp & Hmin & Hm & ->)].
  - specialize (Hno _ Hlen). rewrite style_pattern_match_style, Hq in Hno. discriminate.
  - rewrite style_pattern_match_style in Hm.
    assert (Hmin' : forall i, (i < p)%nat -> match_style (drop i s) = None).
    { intros i Hi. rewrite <- style_pattern_match_style. by apply Hmin. }
    assert (Hpq : (p <= length (pre ++ gap))%nat).
    { destruct (decide (p <= length (pre ++ gap))%nat); [done|].
      rewrite Hmin' in Hq by lia. discriminate. }
    assert (Hclean : forall x0, take p s <> x0 ++ STYLE_TAG_UNCLOSED).
    { intros x0. by eapply no_unclosed_before. }
    destruct (decide (p < length pre)%nat) as [Hlt|Hge].
    + exists (take p pre), (drop p pre ++ gap).
      assert (Htk : take p s = take p pre) by (unfold s; by rewrite take_app_le by lia).
      assert (Hdr : drop p s = drop p pre ++ gap ++ MK ++ T)
        by (unfold s; by rewrite drop_app_le by lia).
      rewrite Htk in *. split; [by rewrite app_assoc, take_drop|]. split; [|done].
      rewrite Hdr in Hm. f_equal.
      apply (match_style_before_inserted (drop p pre) gap font T post); [|done| |exact Hm].
      * intros E. apply (f_equal length) in E. rewrite length_drop in E. cbn in E. lia.
      * rewrite <- drop_app_le by lia. apply Hnone.
    + assert (Hpeq : p = length (pre ++ gap)).
      { destruct Hgap as [->| ->].
        - rewrite app_nil_r in *. lia.
        - rewrite length_app in *. cbn [length] in *.
          destruct (decide (p = length pre)) as [->|]; [|lia].
          exfalso. unfold s in Hm. by rewrite drop_app_length in Hm. }
      subst p. rewrite Hq in Hm. injection Hm as <-.
      assert (Htk : take (length (pre ++ gap)) s = pre ++ gap).
      { unfold s. by rewrite (app_assoc pre), take_app_length. }
      rewrite Htk in *. exists (pre ++ gap), []. by rewrite app_nil_r.
Qed.

(** C3, amended.  For HTML that holds no Sh1ffy marker and in which
    [removeStyle]'s pattern matches nothing (so [removeStyle] leaves it
    as it is), and every font family name, the marker does not occur in
    [removeStyle (injectStyle html (getStyleMarkup font))]. *)
Theorem remove_after_inject_clears_marker (html font : str) :
  ~ occurs STYLE_TAG_OPEN html ->
  removeStyle html = html ->
  ~ occurs STYLE_TAG_OPEN (removeStyle (injectStyle html (getStyleMarkup font))).
Proof.
  intros Hfree Hsame.
  destruct (injectStyle_inserts html (getStyleMarkup font))
    as (pre & post & gap & Hhtml & -> & Hgap).
  assert (Hg : is_gap gap) by (destruct Hgap as [->|[-> _]]; [by left | by right]).
  destruct (removeStyle_after_insert pre gap post font Hg) as (x & x' & Hx & -> & Hclean).
  { rewrite <- Hhtml. by apply removeStyle_unchanged. }
  assert (Hpre : ~ occurs STYLE_TAG_OPEN pre).
  { intros H. apply Hfree. rewrite Hhtml. by apply occurs_app_l. }
  assert (Hpost : ~ occurs STYLE_TAG_OPEN post).
  { intros H. apply Hfree. rewrite Hhtml. by apply occurs_app_r. }
  assert (Hlf : ch_lf ∉ STYLE_TAG_OPEN) by (apply not_elem_of_forallb; reflexivity).
  assert (Hxfree : ~ occurs STYLE_TAG_OPEN x).
  { intros H. apply (occurs_app_l _ _ x') in H. rewrite <- Hx in H.
    destruct Hg as [->| ->]; [by rewrite app_nil_r in H|].
    apply Hpre. change STYLE_TAG_OPEN with (STYLE_TAG_UNCLOSED ++ [ch_gt]) in *.
    by apply occurs_snoc in H. }
  change ([ch_lf] ++ post) with (ch_lf :: post). rewrite app_assoc.
  intros Hocc. apply occurs_split_at in Hocc as [Hocc|Hocc]; [|done|done].
  unfold leftover in Hocc.
  destruct (after_first (lit "</style>") (escape_quotes font)) as [rest|] eqn:E.
  - assert (Hform : x ++ rest ++ css_after ++ ch_lf :: lit "</style>"
                    = ((x ++ rest) ++ [ch_quote] ++ [59%N])
                        ++ ch_lf :: (lit "}" ++ ch_lf :: lit "</style>"))
      by (rewrite <- !app_assoc; reflexivity).
    rewrite Hform in Hocc. apply occurs_split_at in Hocc as [Hocc|Hocc]; [| |done].
    + change STYLE_TAG_OPEN with (STYLE_TAG_UNCLOSED ++ [ch_gt]) in Hocc.
      rewrite app_assoc in Hocc.
      apply occurs_snoc in Hocc; [|discriminate].
      apply occurs_snoc in Hocc; [|discriminate].
      change (STYLE_TAG_UNCLOSED ++ [ch_gt]) with STYLE_TAG_OPEN in Hocc.
      apply occurs_marker_escaped in Hocc as [Hocc|(x0 & rest' & Hx0 & _)].
      * done.
      * by apply (Hclean x0).
      * eapply quotes_escaped_after_close; [apply escape_quotes_escaped | exact E].
    + apply occurs_length in Hocc. cbn in Hocc. lia.
  - by rewrite app_nil_r in Hocc.
Qed.

Lemma remove_after_inject_clears_marker_witness :
  let html := lit "<html><head><title>Workbench</title></head><body></body></html>" in
  let font := lit "Fira Code" in
  removeStyle html = html
  /\ ~ occurs STYLE_TAG_OPEN (removeStyle (injectStyle html (getStyleMarkup font))).
Proof.
  cbv zeta. split; [reflexivity|].
  apply remove_after_inject_clears_marker; [|reflexivity].
  apply includes_false. reflexivity.
Defined.
(** ** Runs on concrete worlds *)

(** C4 at a failing input.  Importing [Night.JSON] (a file holding
    [{}]) succeeds: the normalised theme is written to
    [themes/Night.JSON] and the user is told it was imported, but the
    rewritten package.json has no entry for it. *)
Theorem import_uppercase_extension_not_registered :
  let r := handleImportThemes Demo.host Demo.extensionRoot Demo.importing_uppercase in
  fst r = Ok tt
  /\ files (snd r) !! lit "/ext/themes/Night.JSON"
     = Some (File (Reference.stringify
                     (JObj [ (lit "name", JStr (THEME_LABEL_PREFIX ++ lit "Night"));
                             (lit "type", JStr (lit "dark")) ])))
  /\ shown (snd r)
     = [ (Information,
          lit "Sh1ffy: Imported theme " ++ quoted (THEME_LABEL_PREFIX ++ lit "Night") ++ lit ".") ]
  /\ files (snd r) !! Demo.pkgPath
     = Some (File (Reference.stringify
                     (JObj [ (lit "name", JStr (lit "sh1ffy"));
                             (lit "contributes", JObj [ (lit "themes", JArr []) ]) ]))).
Proof. vm_compute. repeat split. Qed.

(** C9 at a failing input.  The themes directory holds a file named
    [..\themes-old\x.json]; removing that theme deletes
    [/ext/themes-old/x.json], which is not in the themes directory, and
    leaves the theme file where it is. *)
Theorem remove_deletes_outside_themes_directory :
  let w := Demo.removing_outside in
  let w' := snd (handleRemoveThemes Demo.host Demo.extensionRoot w) in
  let victim := lit "/ext/themes-old/x.json" in
  files w !! victim = Some (File (lit "{}"))
  /\ files w' !! victim = None
  /\ Reference.dirname victim = lit "/ext/themes-old"
  /\ startsWith victim Demo.themesDir = true
  /\ files w' !! lit "/ext/themes/..\themes-old\x.json" = Some (File (lit "{}")).
Proof. vm_compute. repeat split. Qed.

(** C7 as stated fails: importing a theme creates the themes directory,
    a theme file in it and the backup of package.json. *)
Lemma import_writes_beyond_two_files :
  let w := Demo.importing_jsonc in
  let w' := snd (handleImportThemes Demo.host Demo.extensionRoot w) in
  let p := lit "/ext/themes/night.json" in
  p <> Demo.pkgPath
  /\ p <> workbenchPathOf Demo.host w
  /\ files w !! p = None
  /\ is_Some (files w' !! p)
  /\ files w !! Demo.themesDir = None
  /\ files w' !! Demo.themesDir = Some Dir
  /\ files w !! Demo.backupPath = None
  /\ files w' !! Demo.backupPath = Some (File Demo.package_text).
Proof.
  cbv zeta. split; [by vm_compute|]. split; [by vm_compute|].
  vm_compute. repeat split. by eexists.
Qed.

(** C8 as stated fails: repairing the contributions keeps a copy of the
    package.json it rewrites, and restoring puts that copy back. *)
Lemma repair_keeps_backup_and_restore_uses_it :
  let w := Demo.repairing in
  let w1 := snd (handleRepairContributions Demo.host Demo.extensionRoot w) in
  let w2 := snd (handleRestorePackageJsonBackup Demo.host Demo.extensionRoot Demo.restoring) in
  files w !! Demo.pkgPath = Some (File Demo.package_text)
  /\ files w1 !! Demo.pkgPath <> files w !! Demo.pkgPath
  /\ files w !! Demo.backupPath = None
  /\ files w1 !! Demo.backupPath = Some (File Demo.package_text)
  /\ files w2 !! Demo.pkgPath = Some (File Demo.package_text).
Proof.
  cbv zeta. split; [by vm_compute|]. split; [by vm_compute|].
  vm_compute. repeat split.
Qed.

(** C10 as stated fails: a [null] entry does not carry the tag, and the
    synchronisation removes it. *)
Lemma sync_drops_untagged_null_entry :
  let w := Demo.repairing_null_entry in
  let w' := snd (handleRepairContributions Demo.host Demo.extensionRoot w) in
  carries_tag JNull = false
  /\ (exists before, files w !! Demo.pkgPath = Some (File before)
                     /\ themes_of <$> Reference.parse before = Some [JNull])
  /\ (exists after, files w' !! Demo.pkgPath = Some (File after)
                    /\ themes_of <$> Reference.parse after = Some []).
Proof.
  cbv zeta. split; [done|]. split; eexists; split; vm_compute; reflexivity.
Qed.

(** C3 as stated fails: the HTML does not contain the marker, yet after
    injecting and removing, the marker is there (the pattern removed the
    style element that was in the HTML, written with a space before the
    bracket). *)
Lemma remove_after_inject_can_leave_marker :
  let html := Demo.html_with_variant_tag in
  includes html STYLE_TAG_OPEN = false
  /\ includes (removeStyle (injectStyle html (getStyleMarkup (lit "Fira Code")))) STYLE_TAG_OPEN
     = true
  /\ removeStyle (injectStyle html (getStyleMarkup (lit "Fira Code")))
     = [ch_lf] ++ getStyleMarkup (lit "Fira Code") ++ [ch_lf].
Proof. vm_compute. repeat split. Qed.

(** ** More on the comment stripper *)

Section StripMore.
Import Strip Lexical.

Lemma scan_sublist n : forall rest before m,
  (length rest <= n)%nat -> scan before rest m `sublist_of` rest.
Proof.
  induction n as [|n IH]; intros rest before m Hn.
  - destruct rest; [|cbn in Hn; lia]. rewrite scan_nil. constructor.
  - destruct rest as [|ch r]; [rewrite scan_nil; constructor|].
    cbn [length] in Hn.
    assert (Hr : forall b m', scan b r m' `sublist_of` r) by (intros; apply IH; lia).
    destruct m as [|q| |].
    + destruct r as [|c2 r2]; [rewrite scan_neutral_1; reflexivity|].
      rewrite scan_neutral_2.
      assert (Hr2 : forall b m', scan b r2 m' `sublist_of` r2)
        by (intros; apply IH; cbn [length] in Hn; lia).
      destruct ((ch =? ch_slash)%N && (c2 =? ch_slash)%N);
        [by do 2 apply sublist_cons|].
      destruct ((ch =? ch_slash)%N && (c2 =? ch_star)%N);
        [by do 2 apply sublist_cons|].
      destruct (is_quote ch); by apply sublist_skip.
    + rewrite scan_string.
      destruct (is_quote ch && (ch =? q)%N && _); by apply sublist_skip.
    + rewrite scan_line. destruct (is_newline ch); [by apply sublist_skip | by apply sublist_cons].
    + destruct r as [|c2 r2]; [rewrite scan_block_1; apply sublist_nil_l|].
      rewrite scan_block_2.
      assert (Hr2 : forall b m', scan b r2 m' `sublist_of` r2)
        by (intros; apply IH; cbn [length] in Hn; lia).
      destruct ((ch =? ch_star)%N && (c2 =? ch_slash)%N);
        [by do 2 apply sublist_cons | by apply sublist_cons].
Qed.

(** X1.  The stripper only deletes: its output is the input with some
    characters left out, in the same order. *)
Theorem stripJsonComments_only_deletes (input : str) :
  stripJsonComments input `sublist_of` input
  /\ (length (stripJsonComments input) <= length input)%nat.
Proof.
  assert (H : stripJsonComments input `sublist_of` input).
  { rewrite stripJsonComments_scan. by apply (scan_sublist (length input)). }
  split; [exact H | by apply sublist_length].
Qed.

Lemma source_nil segs : source segs = [] -> segs = [].
Proof. destruct segs as [|s r]; [done|]. by destruct s. Qed.

Lemma segment_ok_plain_other c rest rest' :
  (c =? ch_slash)%N = false ->
  segment_ok (Plain c) rest = segment_ok (Plain c) rest'.
Proof. intros H. cbn [segment_ok]. by rewrite H. Qed.

(** Leaving the comments out of a lexical segmentation gives a lexical
    segmentation of what is kept. *)
Lemma lexical_without_comments segs :
  lexical segs = true ->
  let segs' := List.filter (fun s => negb (is_comment s)) segs in
  lexical segs' = true /\ source segs' = kept segs.
Proof.
  cbv zeta. induction segs as [|s r IH]; [done|].
  cbn [lexical]. intros H. apply andb_true_iff in H as [Hs Hr].
  destruct (IH Hr) as [IH1 IH2].
  destruct s as [c|q body closed|body|body closed]; cbn [List.filter is_comment negb].
  - split; [|unfold source, kept in *; cbn [flat_map]; by rewrite IH2].
    cbn [lexical]. rewrite IH1, andb_true_r.
    destruct (c =? ch_slash)%N eqn:Hc;
      [|by rewrite <- (segment_ok_plain_other c (source r) _ Hc)].
    destruct r as [|s' r']; [done|].
    destruct s' as [c'|q' body' closed'|body'|body' closed'];
      cbn [List.filter is_comment negb]; try exact Hs.
    + cbn [segment_ok] in Hs. rewrite Hc in Hs. cbn in Hs.
      by rewrite andb_false_r in Hs.
    + cbn [segment_ok] in Hs. rewrite Hc in Hs. cbn in Hs.
      by rewrite andb_false_r in Hs.
  - split; [|unfold source, kept in *; cbn [flat_map kept_of]; by rewrite IH2].
    cbn [lexical]. rewrite IH1, andb_true_r.
    cbn [segment_ok] in *. destruct closed; [exact Hs|].
    apply andb_true_iff in Hs as [Hs1 Hs2]. cbn [orb] in Hs2.
    destruct (source r) eqn:E; [|done].
    apply source_nil in E. subst r. cbn [List.filter]. by rewrite Hs1.
  - split; [exact IH1|]. unfold source, kept in *. cbn [flat_map kept_of app]. exact IH2.
  - split; [exact IH1|]. unfold source, kept in *. cbn [flat_map kept_of app]. exact IH2.
Qed.

(** X2.  Stripping what has been stripped changes nothing. *)
Theorem stripJsonComments_idempotent (input : str) :
  stripJsonComments (stripJsonComments input) = stripJsonComments input.
Proof.
  destruct (lexical_total (length input) input) as (segs & Hlex & <-); [lia|].
  rewrite (stripJsonComments_scan (source segs)), (scan_lexical segs [] Hlex).
  destruct (lexical_without_comments segs Hlex) as [Hlex' Hsrc].
  rewrite <- Hsrc, stripJsonComments_scan, (scan_lexical _ [] Hlex').
  apply kept_no_comment.
  apply forallb_forall. intros s Hs. by apply List.filter_In in Hs as [_ ->].
Qed.

End StripMore.

(** ** Identifiers of themes *)

Lemma occurs_cons_inv p c s :
  occurs p (c :: s) -> (exists post, c :: s = p ++ post) \/ occurs p s.
Proof.
  intros ([|x pre] & post & E).
  - left. by exists post.
  - right. injection E as -> ->. by exists pre, post.
Qed.

Lemma dash_runs_chars b s : Forall (fun c => is_id_char c = true) (dash_runs b s).
Proof.
  revert b. induction s as [|c r IH]; intros b; cbn [dash_runs]; [constructor|].
  destruct (is_safe_char c) eqn:E.
  - constructor; [unfold is_id_char; by rewrite E | apply IH].
  - destruct b; [apply IH|]. constructor; [done | apply IH].
Qed.

Lemma dash_runs_head s : head (dash_runs true s) <> Some 45%N.
Proof.
  induction s as [|c r IH]; cbn [dash_runs]; [done|].
  destruct (is_safe_char c) eqn:E; [|exact IH].
  cbn. intros [= ->]. discriminate E.
Qed.

Lemma dash_runs_single b s : ~ occurs [45%N; 45%N] (dash_runs b s).
Proof.
  revert b. induction s as [|c r IH]; intros b; cbn [dash_runs].
  - intros H. by apply occurs_nil in H.
  - destruct (is_safe_char c) eqn:E.
    + intros H. apply occurs_cons_inv in H as [[post H]|H]; [|by apply IH in H].
      injection H as -> _. discriminate E.
    + destruct b; [apply IH|].
      intros H. apply occurs_cons_inv in H as [[post H]|H]; [|by apply IH in H].
      injection H as H. pose proof (dash_runs_head r) as Hh. rewrite H in Hh. by apply Hh.
Qed.

(** [drop_dashes] removes a prefix of dashes. *)
Lemma drop_dashes_split s :
  exists d, s = d ++ drop_dashes s /\ Forall (fun c => c = 45%N) d.
Proof.
  induction s as [|c r (d & IH & Hd)]; [by exists []|]. cbn [drop_dashes].
  destruct (N.eqb_spec c 45) as [->|Hne].
  - exists (45%N :: d). split; [cbn; by rewrite <- IH | by constructor].
  - by exists [].
Qed.

Lemma drop_dashes_head s : head (drop_dashes s) <> Some 45%N.
Proof.
  induction s as [|c r IH]; [done|]. cbn [drop_dashes].
  destruct (N.eqb_spec c 45) as [->|Hne]; [exact IH|]. cbn. congruence.
Qed.

Lemma drop_dashes_id s : head s <> Some 45%N -> drop_dashes s = s.
Proof.
  destruct s as [|c r]; [done|]. cbn. intros H.
  destruct (N.eqb_spec c 45) as [->|Hne]; [done|done].
Qed.

Lemma drop_dashes_all s : Forall (fun c => c = 45%N) s -> drop_dashes s = [].
Proof. induction 1 as [|c r -> _ IH]; [done|]. exact IH. Qed.

(** [trim_dashes s] is [s] without the dashes at its two ends. *)
Lemma trim_dashes_split s :
  exists d1 d2, s = d1 ++ trim_dashes s ++ d2
    /\ Forall (fun c => c = 45%N) d1 /\ Forall (fun c => c = 45%N) d2.
Proof.
  unfold trim_dashes.
  destruct (drop_dashes_split s) as (d1 & H1 & Hd1).
  destruct (drop_dashes_split (rev (drop_dashes s))) as (d2 & H2 & Hd2).
  exists d1, (rev d2). split; [|split; [done|]].
  - rewrite <- rev_app_distr, <- H2, rev_involutive. exact H1.
  - apply Forall_forall. intros x Hx. rewrite list_elem_of_In, <- in_rev, <- list_elem_of_In in Hx.
    by apply (proj1 (Forall_forall _ _) Hd2).
Qed.

Lemma trim_dashes_last s : last (trim_dashes s) <> Some 45%N.
Proof.
  unfold trim_dashes.
  pose proof (drop_dashes_head (rev (drop_dashes s))) as H.
  destruct (drop_dashes (rev (drop_dashes s))) as [|c r]; [done|].
  cbn [rev]. rewrite last_snoc. exact H.
Qed.

Lemma trim_dashes_head s : head (trim_dashes s) <> Some 45%N.
Proof.
  pose proof (drop_dashes_head s) as H.
  unfold trim_dashes.
  destruct (drop_dashes_split (rev (drop_dashes s))) as (d2 & H2 & _).
  apply (f_equal (@rev _)) in H2. rewrite rev_involutive, rev_app_distr in H2.
  rewrite H2 in H.
  destruct (rev (drop_dashes (rev (drop_dashes s)))) as [|c r]; [done|exact H].
Qed.

Lemma trim_dashes_id s :
  head s <> Some 45%N -> last s <> Some 45%N -> trim_dashes s = s.
Proof.
  intros Hh Hl. unfold trim_dashes. rewrite (drop_dashes_id s Hh).
  rewrite drop_dashes_id; [apply rev_involutive|].
  destruct s as [|c r _] using rev_ind; [done|].
  rewrite rev_app_distr. cbn. rewrite last_snoc in Hl. exact Hl.
Qed.

Lemma trimmed_runs_chars l :
  Forall (fun c => is_id_char c = true) (trim_dashes (dash_runs false l)).
Proof.
  destruct (trim_dashes_split (dash_runs false l)) as (d1 & d2 & Hs & _ & _).
  pose proof (dash_runs_chars false l) as H.
  rewrite Hs in H. apply Forall_app in H as [_ H]. by apply Forall_app in H as [H _].
Qed.

Lemma trimmed_runs_single l : ~ occurs [45%N; 45%N] (trim_dashes (dash_runs false l)).
Proof.
  destruct (trim_dashes_split (dash_runs false l)) as (d1 & d2 & Hs & _ & _).
  intros H. apply (dash_runs_single false l).
  rewrite Hs. apply occurs_app_r. by apply occurs_app_l.
Qed.

(** X3.  What [toSafeId] returns, for any input and any lower-casing: only
    lower-case letters, digits and dashes, no dash at either end and no
    two dashes in a row. *)
Theorem toSafeId_safe (h : host) (input : str) : safe_id (toSafeId h input).
Proof.
  unfold toSafeId, safe_id.
  split; [apply trimmed_runs_chars|].
  split; [apply trim_dashes_head|].
  split; [apply trim_dashes_last|].
  apply trimmed_runs_single.
Qed.

Lemma dash_runs_keeps b s c : is_safe_char c = true -> c ∈ s -> c ∈ dash_runs b s.
Proof.
  intros Hc. revert b. induction s as [|x r IH]; intros b Hin; [by apply elem_of_nil in Hin|].
  cbn [dash_runs]. apply elem_of_cons in Hin as [<-|Hin].
  - rewrite Hc. by left.
  - destruct (is_safe_char x); [right; by apply IH|].
    destruct b; [by apply IH | right; by apply IH].
Qed.

Lemma dash_runs_dashes b s :
  forallb (fun c => negb (is_safe_char c)) s = true ->
  Forall (fun c => c = 45%N) (dash_runs b s).
Proof.
  revert b. induction s as [|x r IH]; intros b; cbn [forallb dash_runs]; [constructor|].
  intros H. apply andb_true_iff in H as [Hx Hr]. apply negb_true_iff in Hx. rewrite Hx.
  destruct b; [by apply IH|]. constructor; [done | by apply IH].
Qed.

(** X4.  The identifier is empty exactly when the lower-cased input has no
    letter [a-z] and no digit. *)
Theorem toSafeId_empty (h : host) (input : str) :
  toSafeId h input = []
  <-> forallb (fun c => negb (is_safe_char c)) (toLowerCase h input) = true.
Proof.
  unfold toSafeId. set (l := toLowerCase h input). split.
  - intros He. apply forallb_forall. intros c Hc. apply negb_true_iff.
    destruct (is_safe_char c) eqn:E; [exfalso|done].
    apply list_elem_of_In in Hc. apply (dash_runs_keeps false l c E) in Hc.
    destruct (trim_dashes_split (dash_runs false l)) as (d1 & d2 & Hs & Hd1 & Hd2).
    rewrite He, app_nil_l in Hs. rewrite Hs in Hc.
    assert (Hall : Forall (fun c => c = 45%N) (d1 ++ d2)) by (by apply Forall_app).
    apply (proj1 (Forall_forall _ _) Hall) in Hc. subst c. discriminate E.
  - intros H. apply (dash_runs_dashes false) in H.
    unfold trim_dashes. by rewrite (drop_dashes_all _ H).
Qed.

Lemma dash_runs_id b s :
  Forall (fun c => is_id_char c = true) s ->
  ~ occurs [45%N; 45%N] s ->
  (b = true -> head s <> Some 45%N) ->
  dash_runs b s = s.
Proof.
  intros Hall. revert b. induction Hall as [|c r Hc Hr IH]; intros b Hdd Hb; [done|].
  cbn [dash_runs]. unfold is_id_char in Hc.
  assert (Hr' : ~ occurs [45%N; 45%N] r).
  { intros H. apply Hdd. by apply (occurs_app_r _ [c]). }
  destruct (is_safe_char c) eqn:E.
  - f_equal. apply IH; [done|]. discriminate.
  - cbn [orb] in Hc. apply N.eqb_eq in Hc. subst c.
    destruct b; [exfalso; by apply Hb|].
    f_equal. apply IH; [done|]. intros _ Hh.
    destruct r as [|x r']; [done|]. cbn in Hh. injection Hh as ->.
    apply Hdd. by exists [], r'.
Qed.

(** X5.  An identifier that [toSafeId] has made is kept as it is, when the
    lower-casing leaves lower-case letters, digits and dashes alone. *)
Theorem toSafeId_idempotent (h : host) (input : str) :
  (forall s, Forall (fun c => is_id_char c = true) s -> toLowerCase h s = s) ->
  toSafeId h (toSafeId h input) = toSafeId h input.
Proof.
  intros Hlow.
  unfold toSafeId at 1. unfold toSafeId.
  set (l := toLowerCase h input).
  rewrite (Hlow _ (trimmed_runs_chars l)).
  rewrite dash_runs_id;
    [|apply trimmed_runs_chars|apply trimmed_runs_single|done].
  apply trim_dashes_id; [apply trim_dashes_head | apply trim_dashes_last].
Qed.

Lemma lower_id_chars s :
  Forall (fun c => is_id_char c = true) s -> Reference.lower s = s.
Proof.
  induction 1 as [|c r Hc _ IH]; [done|]. unfold Reference.lower in *. cbn [map].
  rewrite IH. f_equal.
  destruct ((65 <=? c) && (c <=? 90))%N eqn:E; [|done].
  apply andb_true_iff in E as [E1 E2]. apply N.leb_le in E1, E2.
  unfold is_id_char, is_safe_char in Hc.
  rewrite !orb_true_iff, !andb_true_iff, !N.leb_le, N.eqb_eq in Hc. lia.
Qed.

Lemma toSafeId_idempotent_witness :
  toSafeId Reference.posix (toSafeId Reference.posix (lit "My Theme (v2)!"))
  = toSafeId Reference.posix (lit "My Theme (v2)!")
  /\ toSafeId Reference.posix (lit "My Theme (v2)!") = lit "my-theme-v2".
Proof.
  split; [|reflexivity].
  apply toSafeId_idempotent. intros s Hs. by apply lower_id_chars.
Defined.

(** ** Normalising a theme object *)

Lemma lookup_set_field_ne k k' v fields :
  k <> k' -> Json.lookup_field k (Json.set_field k' v fields) = Json.lookup_field k fields.
Proof.
  intros Hne. induction fields as [|[k0 v0] r IH]; cbn.
  - by rewrite bool_decide_eq_false_2.
  - destruct (bool_decide_reflect (k' = k0)) as [<-|Hne0]; cbn.
    + by rewrite !bool_decide_eq_false_2.
    + by rewrite IH.
Qed.

Lemma set_field_same k v fields :
  Json.lookup_field k fields = Some v -> Json.set_field k v fields = fields.
Proof.
  induction fields as [|[k0 v0] r IH]; cbn; [done|].
  destruct (bool_decide_reflect (k = k0)) as [<-|Hne]; [by intros [= ->]|].
  intros H. by rewrite IH.
Qed.

Lemma trimStart_snoc_keep l c : isSpace c = false -> trimStart (l ++ [c]) <> [].
Proof.
  intros Hc. induction l as [|x l IH]; cbn [app trimStart].
  - by rewrite Hc.
  - by destruct (isSpace x).
Qed.

(** A name with the Sh1ffy prefix is not blank. *)
Lemma trim_prefixed name :
  startsWith name THEME_LABEL_PREFIX = true -> trim name <> [].
Proof.
  intros H. apply startsWith_inv in H as [rest ->].
  change (THEME_LABEL_PREFIX ++ rest)
    with (115%N :: (lit "h1ffy " ++ [8226%N] ++ lit " ") ++ rest).
  set (t := _ ++ rest). unfold trim, trimEnd. cbn [trimStart isSpace].
  change (isSpace 115) with false. cbn [rev].
  intros E. apply (f_equal (@rev _)) in E. rewrite rev_involutive in E.
  by apply (trimStart_snoc_keep (rev t) 115%N).
Qed.

Section Normalize.

Variables (themeObject : json) (fileName : str).

Let originalName : str :=
  name_or (Json.lookup_field (lit "name") (spread themeObject)) (strip_ext fileName).

Let prefixedName : str :=
  if startsWith originalName THEME_LABEL_PREFIX then originalName
  else THEME_LABEL_PREFIX ++ originalName.

Lemma prefixedName_prefixed : startsWith prefixedName THEME_LABEL_PREFIX = true.
Proof.
  unfold prefixedName.
  destruct (startsWith originalName THEME_LABEL_PREFIX) eqn:E; [done|].
  apply startsWith_app.
Qed.

Lemma normalizeThemeObject_name :
  Json.lookup_field (lit "name") (normalizeThemeObject themeObject fileName)
  = Some (JStr prefixedName).
Proof.
  unfold normalizeThemeObject. fold originalName. fold prefixedName.
  destruct (_ && _); [rewrite lookup_set_field_ne by done|]; apply lookup_set_field.
Qed.

Lemma normalizeThemeObject_typed :
  Json.truthy_opt (Json.lookup_field (lit "type") (normalizeThemeObject themeObject fileName))
  || Json.truthy_opt (Json.lookup_field (lit "uiTheme")
                        (normalizeThemeObject themeObject fileName)) = true.
Proof.
  unfold normalizeThemeObject. fold originalName. fold prefixedName.
  destruct (_ && _) eqn:E.
  - by rewrite lookup_set_field.
  - apply andb_false_iff in E as [E|E]; apply negb_false_iff in E; rewrite E;
      [done | apply orb_true_r].
Qed.

End Normalize.

(** X6.  The object written for an imported theme has a string [name] that
    begins with the Sh1ffy prefix and a truthy [type] or [uiTheme];
    every other property is the one of the imported object. *)
Theorem normalizeThemeObject_branded (themeObject : json) (fileName : str) :
  let theme := normalizeThemeObject themeObject fileName in
  (exists name, Json.lookup_field (lit "name") theme = Some (JStr name)
                /\ startsWith name THEME_LABEL_PREFIX = true)
  /\ Json.truthy_opt (Json.lookup_field (lit "type") theme)
     || Json.truthy_opt (Json.lookup_field (lit "uiTheme") theme) = true
  /\ (forall k, k <> lit "name" -> k <> lit "type" ->
        Json.lookup_field k theme = Json.lookup_field k (spread themeObject)).
Proof.
  cbv zeta. split; [|split].
  - eexists. split; [apply normalizeThemeObject_name | apply prefixedName_prefixed].
  - apply normalizeThemeObject_typed.
  - intros k Hname Htype. unfold normalizeThemeObject.
    destruct (_ && _); by rewrite !lookup_set_field_ne.
Qed.

(** X7.  Normalising a normalised theme object, under any file name, gives
    the same object: the prefix is not added twice. *)
Theorem normalizeThemeObject_idempotent (themeObject : json) (fileName fileName' : str) :
  normalizeThemeObject (JObj (normalizeThemeObject themeObject fileName)) fileName'
  = normalizeThemeObject themeObject fileName.
Proof.
  set (theme := normalizeThemeObject themeObject fileName).
  pose proof (normalizeThemeObject_name themeObject fileName) as Hname.
  pose proof (prefixedName_prefixed themeObject fileName) as Hpre.
  pose proof (normalizeThemeObject_typed themeObject fileName) as Htyped.
  cbv zeta in Hname, Hpre. fold theme in Hname, Htyped.
  set (name := if startsWith _ _ then _ else _) in Hname, Hpre.
  unfold normalizeThemeObject at 1. cbn [spread]. rewrite Hname. cbn [name_or].
  pose proof (trim_prefixed name Hpre) as Htrim.
  destruct (trim name) as [|c t]; [done|].
  rewrite Hpre, (set_field_same _ _ _ Hname).
  apply orb_true_iff in Htyped as [H|H]; rewrite H; [done | by rewrite andb_false_r].
Qed.

(** ** Enabling and disabling the font: the HTML *)

Lemma after_open_occurs s r : after_open s = Some r -> occurs STYLE_ATTR s.
Proof.
  unfold after_open.
  destruct (startsWith s (lit "<style")) eqn:E; [|done].
  apply startsWith_inv in E as [rest ->].
  change (drop 6 (lit "<style" ++ rest)) with rest.
  destruct rest as [|c s1]; [done|].
  destruct (isSpace c); [|done]. cbv zeta.
  destruct (trimStart_suffix s1) as [w Hw].
  destruct (startsWith (trimStart s1) STYLE_ATTR) eqn:E2; [|done]. intros _.
  apply startsWith_inv in E2 as [rest2 E2].
  exists (lit "<style" ++ c :: w), rest2.
  rewrite Hw at 1. rewrite E2. by rewrite <- !app_assoc.
Qed.

(** Where [injectStyle] puts the markup depends on the HTML only. *)
Lemma injectStyle_inserts_any html :
  exists pre post gap,
    html = pre ++ post
    /\ is_gap gap
    /\ forall m, injectStyle html m = pre ++ gap ++ m ++ [ch_lf] ++ post.
Proof.
  unfold injectStyle, indexOf.
  destruct (indexOf_from html (lit "</head>") 0 =? -1) eqn:E.
  - exists html, [], [ch_lf]. split; [by rewrite app_nil_r|]. split; [by right|].
    intros m. by rewrite app_nil_r.
  - apply Z.eqb_neq in E.
    destruct (indexOf_from_range (lit "</head>") html 0) as [|Hge]; [done|].
    set (i := indexOf_from html (lit "</head>") 0) in *.
    exists (slice html 0 (Some i)), (slice html i None), [].
    split; [|split; [by left | done]].
    unfold slice, clamp_index.
    replace (i <? 0) with false by (symmetry; apply Z.ltb_ge; lia).
    cbn [Z.ltb Z.compare]. rewrite (Z.min_l 0) by lia. change (Z.to_nat 0) with O.
    rewrite drop_0, Z.sub_0_r.
    rewrite (take_ge (drop _ html)) by (rewrite length_drop; lia).
    by rewrite take_drop.
Qed.

Lemma startsWith_escape_quotes p : forall s,
  ch_quote ∉ p -> ch_backslash ∉ p ->
  startsWith (escape_quotes s) p = true -> startsWith s p = true.
Proof.
  induction p as [|x p IH]; intros s Hq Hb; [done|].
  apply not_elem_of_cons in Hq as [Hxq Hq]. apply not_elem_of_cons in Hb as [Hxb Hb].
  destruct s as [|c s]; [done|].
  cbn [escape_quotes flat_map]. fold (escape_quotes s).
  destruct (N.eqb_spec c ch_quote) as [->|Hne]; cbn [app startsWith].
  - destruct (N.eqb_spec x ch_backslash) as [->|]; [done|done].
  - intros H. apply andb_true_iff in H as [-> H]. cbn [andb]. by apply IH.
Qed.

(** Text without quotes and backslashes that occurs in the escaped
    font name occurs in the font name. *)
Lemma occurs_escape_quotes p s :
  ch_quote ∉ p -> ch_backslash ∉ p ->
  occurs p (escape_quotes s) -> occurs p s.
Proof.
  intros Hq Hb. destruct p as [|x p]; [intros _; by exists [], s|].
  induction s as [|c s IH]; [done|].
  cbn [escape_quotes flat_map]. fold (escape_quotes s).
  assert (Hhead : forall t, startsWith (escape_quotes t) (x :: p) = true -> occurs (x :: p) t).
  { intros t H. apply startsWith_escape_quotes in H; [|done|done].
    apply startsWith_inv in H as [rest ->]. by exists [], rest. }
  destruct (N.eqb_spec c ch_quote) as [->|Hne]; cbn [app].
  - intros H. apply (occurs_app_r _ [ch_quote]).
    apply occurs_cons_inv in H as [[post H]|H].
    { injection H as <- _. exfalso. apply Hb. by left. }
    apply occurs_cons_inv in H as [[post H]|H]; [|by apply IH].
    injection H as <- _. exfalso. apply Hq. by left.
  - intros H. apply occurs_cons_inv in H as [[post H]|H].
    + apply (Hhead (c :: s)). cbn [escape_quotes flat_map]. fold (escape_quotes s).
      apply N.eqb_neq in Hne. rewrite Hne. cbn [app]. rewrite H. apply startsWith_app.
    + apply (occurs_app_r _ [c]). by apply IH.
Qed.

Lemma leftover_plain font :
  ~ occurs (lit "</style>") font -> leftover (escape_quotes font) = [].
Proof.
  intros H. unfold leftover.
  destruct (after_first (lit "</style>") (escape_quotes font)) as [rest|] eqn:E; [|done].
  exfalso. apply H. apply after_first_occurs in E as [f E].
  apply occurs_escape_quotes; [apply not_elem_of_forallb; reflexivity ..|].
  by exists f, rest.
Qed.

(** With no id attribute of the Sh1ffy style element in the HTML, the
    first match of the removal pattern in the HTML with the block
    inserted is the block. *)
Lemma removeStyle_injectStyle html font :
  ~ occurs STYLE_ATTR html ->
  removeStyle (injectStyle html (getStyleMarkup font))
  = injectStyle html (leftover (escape_quotes font)).
Proof.
  intros Hfree.
  destruct (injectStyle_inserts_any html) as (pre & post & gap & Hhtml & Hgap & Hinj).
  rewrite !Hinj.
  set (T := [ch_lf] ++ post). set (MK := getStyleMarkup font).
  set (s := pre ++ gap ++ MK ++ T).
  assert (Hq : match_style (drop (length (pre ++ gap)) s)
               = Some (leftover (escape_quotes font) ++ T)).
  { unfold s. rewrite (app_assoc pre), drop_app_length. apply match_style_markup. }
  assert (Hlen : (length (pre ++ gap) <= length s)%nat).
  { unfold s. rewrite !length_app. lia. }
  assert (Hnone : forall i, (i < length (pre ++ gap))%nat -> match_style (drop i s) = None).
  { intros i Hi. destruct (decide (i < length pre)%nat) as [Hlt|Hge].
    - unfold s. rewrite drop_app_le by lia. unfold match_style.
      destruct (after_open (drop i pre ++ gap ++ MK ++ T)) as [s3|] eqn:E; [|done].
      exfalso. apply Hfree.
      apply after_open_app_inv in E as (r & Hr & _).
      + rewrite Hhtml. apply occurs_app_l.
        rewrite <- (take_drop i pre). apply occurs_app_r. by eapply after_open_occurs.
      + intros E0. apply (f_equal length) in E0. rewrite length_drop in E0. cbn in E0. lia.
      + unfold MK. rewrite getStyleMarkup_eq, <- !app_assoc.
        by apply inserted_follows_cleanly.
    - destruct Hgap as [->| ->]; [rewrite app_nil_r in Hi; lia|].
      rewrite length_app in Hi. cbn [length] in Hi.
      replace i with (length pre) by lia.
      unfold s. by rewrite drop_app_length. }
  unfold removeStyle.
  destruct (replace_first_least style_pattern s)
    as [[Hno _]|(p & r & Hp & Hmin & Hm & ->)].
  - specialize (Hno _ Hlen). rewrite style_pattern_match_style, Hq in Hno. discriminate.
  - rewrite style_pattern_match_style in Hm.
    assert (p = length (pre ++ gap)) as ->.
    { destruct (lt_eq_lt_dec p (length (pre ++ gap))) as [[Hlt|Heq]|Hgt]; [|done|].
      - rewrite Hnone in Hm by done. discriminate.
      - specialize (Hmin _ Hgt). rewrite style_pattern_match_style, Hq in Hmin. discriminate. }
    rewrite Hq in Hm. injection Hm as <-.
    unfold s. rewrite (app_assoc pre), take_app_length. by rewrite <- !app_assoc.
Qed.

Lemma injectStyle_longer html m : injectStyle html m <> html.
Proof.
  destruct (injectStyle_inserts_any html) as (pre & post & gap & Hhtml & _ & Hinj).
  rewrite Hinj. intros E. apply (f_equal length) in E.
  rewrite Hhtml, !length_app in E. cbn [length] in E. lia.
Qed.

(** X8.  [removeStyle] after [injectStyle], in HTML that does not mention
    the id attribute of the Sh1ffy style element: the result is
    [injectStyle html r], where [r] is what the removal leaves of the
    injected block.  The removal ends at the first closing style tag
    after the opening tag of the block.  When the font name holds no
    closing style tag, that is the end of the block and [r] is empty.
    When it holds one, [r] is the text after the first closing style tag
    of the escaped font name followed by the rest of the block: the
    closing double quote and the semicolon, a line feed, the closing
    brace, a line feed and the closing style tag of the block.  The line
    feed that [injectStyle] adds stays in every case, so the result is
    never the original HTML. *)
Theorem removeStyle_after_injectStyle (html font : str) :
  ~ occurs STYLE_ATTR html ->
  removeStyle (injectStyle html (getStyleMarkup font))
  = injectStyle html (leftover (escape_quotes font))
  /\ (~ occurs (lit "</style>") font ->
      removeStyle (injectStyle html (getStyleMarkup font)) = injectStyle html [])
  /\ (forall rest,
        after_first (lit "</style>") (escape_quotes font) = Some rest ->
        removeStyle (injectStyle html (getStyleMarkup font))
        = injectStyle html
            (rest ++ [ch_quote] ++ lit ";" ++ [ch_lf] ++ lit "}" ++ [ch_lf] ++ lit "</style>"))
  /\ removeStyle (injectStyle html (getStyleMarkup font)) <> html.
Proof.
  intros Hfree. pose proof (removeStyle_injectStyle html font Hfree) as Hmain.
  split; [exact Hmain|]. split; [|split].
  - intros Hfont. by rewrite Hmain, leftover_plain.
  - intros rest Hrest. rewrite Hmain. unfold leftover. by rewrite Hrest.
  - rewrite Hmain. apply injectStyle_longer.
Qed.

Lemma removeStyle_after_injectStyle_witness :
  let html := lit "<html><head></head><body></body></html>" in
  (removeStyle (injectStyle html (getStyleMarkup (lit "Fira Code")))
   = lit "<html><head>" ++ [ch_lf] ++ lit "</head><body></body></html>"
   /\ removeStyle (injectStyle html (getStyleMarkup (lit "Fira Code"))) <> html)
  /\ removeStyle (injectStyle html (getStyleMarkup (lit "x</style>y")))
     = lit "<html><head>y" ++ [ch_quote] ++ lit ";" ++ [ch_lf] ++ lit "}" ++ [ch_lf]
       ++ lit "</style>" ++ [ch_lf] ++ lit "</head><body></body></html>".
Proof.
  cbv zeta.
  assert (Hfree : ~ occurs STYLE_ATTR (lit "<html><head></head><body></body></html>"))
    by (apply includes_false; reflexivity).
  split.
  - destruct (removeStyle_after_injectStyle
                (lit "<html><head></head><body></body></html>") (lit "Fira Code") Hfree)
      as (_ & H2 & _ & H4).
    split; [|exact H4].
    rewrite H2; [reflexivity|]. apply includes_false. reflexivity.
  - destruct (removeStyle_after_injectStyle
                (lit "<html><head></head><body></body></html>") (lit "x</style>y") Hfree)
      as (_ & _ & H3 & _).
    rewrite (H3 (lit "y")); reflexivity.
Defined.

(** ** The font handlers, step by step *)

Lemma font_showReloadNotification_effect message w :
  exists w',
    font_showReloadNotification message w = (Ok tt, w')
    /\ files w' = files w /\ appRoot w' = appRoot w
    /\ cachedWorkbenchPath w' = cachedWorkbenchPath w
    /\ workbenchFont w' = workbenchFont w
    /\ shown w' = (Information, message) :: shown w.
Proof.
  unfold font_showReloadNotification, bind. rewrite showMessage_ask. cbn zeta.
  destruct (answers w) as [|a r]; cbn.
  - by eexists.
  - destruct (bool_decide _); by eexists.
Qed.

Lemma getWorkbenchHtml_fails h w :
  (forall content, files w !! workbenchPathOf h w <> Some (File content)) ->
  getWorkbenchHtml h w = (Throw (IOError (workbenchPathOf h w)), cache_path h w).
Proof.
  intros H. unfold getWorkbenchHtml, bind. rewrite getWorkbenchPath_run.
  unfold readFileSync. cbn [files cache_path with_cachedWorkbenchPath].
  destruct (files w !! workbenchPathOf h w) as [[content|]|] eqn:E; [|done|done].
  by destruct (H content).
Qed.

(** Writing workbench.html does not move it. *)
Lemma workbenchPathOf_saved h w w' x :
  is_Some (files w !! workbenchPathOf h w) ->
  files w' = <[workbenchPathOf h w := x]> (files w) ->
  appRoot w' = appRoot w ->
  cachedWorkbenchPath w' = Some (workbenchPathOf h w) ->
  workbenchPathOf h w' = workbenchPathOf h w.
Proof.
  intros Hsome Hf Ha Hc. unfold workbenchPathOf at 1. rewrite Hc.
  destruct (workbenchPathOf h w) as [|c p] eqn:E; [|done].
  rewrite Hf, Ha. unfold workbenchPathOf in E.
  assert (Hdom : forall q, is_Some (<[[] := x]> (files w) !! q) <-> is_Some (files w !! q)).
  { intros q. destruct (decide (q = [])) as [->|Hne].
    - rewrite lookup_insert_eq. split; [done | by eexists].
    - by rewrite lookup_insert_ne. }
  destruct (cachedWorkbenchPath w) as [[|? ?]|]; try done.
  all: rewrite (bool_decide_ext _ _ (Hdom _)); exact E.
Qed.

Section FontRuns.

Variables (h : host) (w : world) (html : str).
Hypothesis Hhtml : files w !! workbenchPathOf h w = Some (File html).

(** [getWorkbenchHtml] and then [saveWorkbenchHtml]. *)
Lemma saveWorkbenchHtml_after_read newHtml :
  saveWorkbenchHtml h newHtml (cache_path h w)
  = (Ok tt, with_files (cache_path h w) (<[workbenchPathOf h w := File newHtml]> (files w))).
Proof.
  rewrite (saveWorkbenchHtml_run h (cache_path h w) html)
    by (by rewrite workbenchPathOf_cached).
  unfold cache_path at 1. rewrite (workbenchPathOf_cached h w). reflexivity.
Qed.

Lemma handleDisableCustomFont_run :
  includes html STYLE_TAG_OPEN = true ->
  exists w',
    handleDisableCustomFont h w = (Ok tt, w')
    /\ files w' = <[workbenchPathOf h w := File (removeStyle html)]> (files w)
    /\ workbenchFont w' = workbenchFont w.
Proof.
  intros Hinc. unfold handleDisableCustomFont.
  set (w1 := with_files (cache_path h w)
               (<[workbenchPathOf h w := File (removeStyle html)]> (files w))).
  destruct (font_showReloadNotification_effect
              (lit "Sh1ffy: Workbench font tweaks removed. Reload the window to revert the UI.")
              w1) as (w2 & E & Hf & _ & _ & Hfont & _).
  exists w2. split; [|by split].
  erewrite try_catch_run; [reflexivity|].
  rewrite (bind_run _ _ _ _ _ (getWorkbenchHtml_run _ _ _ Hhtml)). rewrite Hinc. cbn [negb].
  erewrite bind_run; [exact E|]. apply saveWorkbenchHtml_after_read.
Qed.

Lemma enableCustomFont_run onSetFont c f :
  workbenchFont w = Some (c :: f) ->
  includes html STYLE_TAG_OPEN = false ->
  exists w',
    enableCustomFont h onSetFont w = (Ok tt, w')
    /\ files w' = <[workbenchPathOf h w
                    := File (injectStyle html (getStyleMarkup (c :: f)))]> (files w)
    /\ appRoot w' = appRoot w
    /\ cachedWorkbenchPath w' = Some (workbenchPathOf h w)
    /\ workbenchFont w' = workbenchFont w.
Proof.
  intros Hfont Hinc. unfold enableCustomFont.
  assert (E1 : getWorkbenchFont w = (Ok (Some (c :: f)), w))
    by (unfold getWorkbenchFont; by rewrite Hfont).
  rewrite (bind_run _ _ _ _ _ E1). cbv beta iota.
  set (w1 := with_files (cache_path h w)
               (<[workbenchPathOf h w := File (injectStyle html (getStyleMarkup (c :: f)))]>
                  (files w))).
  destruct (font_showReloadNotification_effect
              (lit "Sh1ffy: Workbench font " ++ quoted (c :: f)
               ++ lit " enabled. Reload the window to apply it.") w1)
    as (w2 & E & Hf & Ha & Hc & Hfo & _).
  exists w2. split; [|by repeat split].
  erewrite try_catch_run; [reflexivity|].
  rewrite (bind_run _ _ _ _ _ (getWorkbenchHtml_run _ _ _ Hhtml)). rewrite Hinc.
  erewrite bind_run; [exact E|]. apply saveWorkbenchHtml_after_read.
Qed.

Lemma handleReloadFontConfiguration_run c f :
  workbenchFont w = Some (c :: f) ->
  exists w',
    handleReloadFontConfiguration h w = (Ok tt, w')
    /\ files w'
       = <[workbenchPathOf h w
           := File (injectStyle (if includes html STYLE_TAG_OPEN then removeStyle html else html)
                                (getStyleMarkup (c :: f)))]> (files w)
    /\ workbenchFont w' = workbenchFont w.
Proof.
  intros Hfont. unfold handleReloadFontConfiguration.
  assert (E1 : getWorkbenchFont w = (Ok (Some (c :: f)), w))
    by (unfold getWorkbenchFont; by rewrite Hfont).
  rewrite (bind_run _ _ _ _ _ E1). cbv beta iota zeta.
  set (newHtml := injectStyle _ _).
  set (w1 := with_files (cache_path h w) (<[workbenchPathOf h w := File newHtml]> (files w))).
  destruct (font_showReloadNotification_effect
              (lit "Sh1ffy: Workbench font reloaded with " ++ quoted (c :: f)
               ++ lit ". Reload the window to see the result.") w1)
    as (w2 & E & Hf & _ & _ & Hfo & _).
  exists w2. split; [|by split].
  erewrite try_catch_run; [reflexivity|].
  rewrite (bind_run _ _ _ _ _ (getWorkbenchHtml_run _ _ _ Hhtml)). cbv beta.
  erewrite bind_run; [exact E|]. apply saveWorkbenchHtml_after_read.
Qed.

End FontRuns.

Lemma occurs_trans p q s : occurs p q -> occurs q s -> occurs p s.
Proof.
  intros (a & b & ->) (c & d & ->). exists (c ++ a), (b ++ d). by rewrite <- !app_assoc.
Qed.

Lemma occurs_markup_injected html m : occurs m (injectStyle html m).
Proof.
  destruct (injectStyle_inserts_any html) as (pre & post & gap & _ & _ & Hinj).
  rewrite Hinj. exists (pre ++ gap), ([ch_lf] ++ post). by rewrite <- !app_assoc.
Qed.

Lemma occurs_marker_markup font : occurs STYLE_TAG_OPEN (getStyleMarkup font).
Proof. rewrite getStyleMarkup_eq. by exists [], ([ch_lf] ++ css_rule (escape_quotes font)
                                                  ++ [ch_lf] ++ lit "</style>"). Qed.

Lemma occurs_attr_marker : occurs STYLE_ATTR STYLE_TAG_OPEN.
Proof. by exists (lit "<style "), (lit ">"). Qed.

(** X9.  [handleDisableCustomFont] with a readable workbench.html: when the
    marker is in it, the file is rewritten with the first match of the
    removal pattern cut out; when it is not, no file changes and the
    user is told that the tweaks are already disabled. *)
Theorem handleDisableCustomFont_removes (h : host) (w : world) (html : str) :
  files w !! workbenchPathOf h w = Some (File html) ->
  let w' := snd (handleDisableCustomFont h w) in
  (occurs STYLE_TAG_OPEN html ->
   files w' = <[workbenchPathOf h w := File (removeStyle html)]> (files w))
  /\ (~ occurs STYLE_TAG_OPEN html ->
      files w' = files w
      /\ shown w' = (Information, lit "Sh1ffy: Workbench font tweaks are already disabled.")
                    :: shown w).
Proof.
  intros Hhtml. cbv zeta. split.
  - intros Hocc. apply includes_true in Hocc.
    destruct (handleDisableCustomFont_run h w html Hhtml Hocc) as (w' & -> & Hf & _).
    exact Hf.
  - intros Hno. apply includes_false in Hno. unfold handleDisableCustomFont.
    erewrite try_catch_run.
    2:{ rewrite (bind_run _ _ _ _ _ (getWorkbenchHtml_run _ _ _ Hhtml)). rewrite Hno.
        cbn [negb]. erewrite bind_run; [|apply showMessage_plain]. reflexivity. }
    by split.
Qed.

Lemma handleDisableCustomFont_removes_witness :
  let w := Demo.enabling in
  let w1 := snd (handleEnableCustomFont Demo.host w) in
  exists html,
    files w1 !! workbenchPathOf Demo.host w1 = Some (File html)
    /\ files (snd (handleDisableCustomFont Demo.host w1))
       = <[workbenchPathOf Demo.host w1 := File (removeStyle html)]> (files w1).
Proof.
  cbv zeta. eexists. split; [vm_compute; reflexivity|].
  eapply (proj1 (handleDisableCustomFont_removes Demo.host _ _ _)).
  apply includes_true. vm_compute. reflexivity.
  Unshelve. vm_compute. reflexivity.
Defined.

(** X10.  [handleReloadFontConfiguration] with a font configured and a
    readable workbench.html writes the HTML, without the first match of
    the removal pattern if the marker was in it, with the style block of
    the configured font inserted; the block is in the file written. *)
Theorem handleReloadFontConfiguration_rewrites (h : host) (w : world) (font html : str) :
  workbenchFont w = Some font -> font <> [] ->
  files w !! workbenchPathOf h w = Some (File html) ->
  let w' := snd (handleReloadFontConfiguration h w) in
  let base := if includes html STYLE_TAG_OPEN then removeStyle html else html in
  let newHtml := injectStyle base (getStyleMarkup font) in
  files w' = <[workbenchPathOf h w := File newHtml]> (files w)
  /\ occurs (getStyleMarkup font) newHtml
  /\ workbenchFont w' = Some font.
Proof.
  intros Hfont Hne Hhtml. cbv zeta. destruct font as [|c f]; [done|].
  destruct (handleReloadFontConfiguration_run h w html Hhtml c f Hfont) as (w' & -> & Hf & Hfo).
  cbn [snd]. split; [exact Hf|]. split; [apply occurs_markup_injected | congruence].
Qed.

Lemma handleReloadFontConfiguration_rewrites_witness :
  let w := Demo.enabling in
  let html := lit "<html><head></head><body></body></html>" in
  let newHtml := injectStyle html (getStyleMarkup (lit "Fira Code")) in
  files (snd (handleReloadFontConfiguration Demo.host w))
  = <[workbenchPathOf Demo.host w := File newHtml]> (files w)
  /\ occurs (getStyleMarkup (lit "Fira Code")) newHtml
  /\ workbenchFont (snd (handleReloadFontConfiguration Demo.host w)) = Some (lit "Fira Code").
Proof.
  cbv zeta.
  apply (handleReloadFontConfiguration_rewrites Demo.host Demo.enabling (lit "Fira Code")
           (lit "<html><head></head><body></body></html>"));
    [reflexivity | discriminate | vm_compute; reflexivity].
Defined.

(** X11.  Enabling and then disabling, from a workbench.html that does not
    mention the id attribute and with a font name without a closing
    style tag: the block is gone, and what is left is the original HTML
    with the line feed that [injectStyle] added. *)
Theorem handleDisableCustomFont_after_enable (h : host) (w : world) (font html : str) :
  workbenchFont w = Some font -> font <> [] ->
  files w !! workbenchPathOf h w = Some (File html) ->
  ~ occurs STYLE_ATTR html ->
  ~ occurs (lit "</style>") font ->
  let w1 := snd (handleEnableCustomFont h w) in
  let w2 := snd (handleDisableCustomFont h w1) in
  files w2 = <[workbenchPathOf h w := File (injectStyle html [])]> (files w)
  /\ files w2 !! workbenchPathOf h w <> files w !! workbenchPathOf h w.
Proof.
  intros Hfont Hne Hhtml Hattr Hclose. cbv zeta. destruct font as [|c f]; [done|].
  assert (Hinc : includes html STYLE_TAG_OPEN = false).
  { apply includes_false. intros H. apply Hattr.
    eapply occurs_trans; [apply occurs_attr_marker | exact H]. }
  destruct (enableCustomFont_run h w html Hhtml (handleSetCustomFont h) c f Hfont Hinc)
    as (w1 & E1 & Hf1 & Ha1 & Hc1 & _).
  unfold handleEnableCustomFont. rewrite E1. cbn [snd].
  assert (Hp : workbenchPathOf h w1 = workbenchPathOf h w).
  { eapply workbenchPathOf_saved; [by rewrite Hhtml | exact Hf1 | exact Ha1 | exact Hc1]. }
  set (newHtml := injectStyle html (getStyleMarkup (c :: f))) in *.
  assert (Hnew : files w1 !! workbenchPathOf h w1 = Some (File newHtml)).
  { rewrite Hp, Hf1. apply lookup_insert_eq. }
  assert (Hinc1 : includes newHtml STYLE_TAG_OPEN = true).
  { apply includes_true.
    eapply occurs_trans; [apply occurs_marker_markup | apply occurs_markup_injected]. }
  destruct (handleDisableCustomFont_run h w1 newHtml Hnew Hinc1) as (w2 & -> & Hf2 & _).
  cbn [snd]. rewrite Hf2, Hp, Hf1, insert_insert_eq.
  unfold newHtml. rewrite (removeStyle_injectStyle html (c :: f) Hattr).
  rewrite (leftover_plain (c :: f) Hclose).
  split; [done|]. rewrite lookup_insert_eq, Hhtml. intros [= E].
  by apply (injectStyle_longer html []).
Qed.

Lemma handleDisableCustomFont_after_enable_witness :
  let w := Demo.enabling in
  let w2 := snd (handleDisableCustomFont Demo.host (snd (handleEnableCustomFont Demo.host w))) in
  files w2 !! Demo.workbenchPath
  = Some (File (lit "<html><head>" ++ [ch_lf] ++ lit "</head><body></body></html>")).
Proof.
  cbv zeta.
  destruct (handleDisableCustomFont_after_enable Demo.host Demo.enabling (lit "Fira Code")
              (lit "<html><head></head><body></body></html>")) as [H _].
  - reflexivity.
  - discriminate.
  - vm_compute; reflexivity.
  - apply includes_false. reflexivity.
  - apply includes_false. reflexivity.
  - rewrite H. vm_compute. reflexivity.
Defined.

Lemma set_font_prompt_declined h w :
  (forall rest, answers w <> Button (lit "Set font") :: rest) ->
  let w' := snd (bind (showMessage Warning (lit "Sh1ffy: No workbench font is configured.")
                         [lit "Set font"])
                   (fun action =>
                      if bool_decide (action = Some (lit "Set font"))
                      then handleSetCustomFont h else ret tt) w) in
  files w' = files w /\ workbenchFont w' = workbenchFont w
  /\ cachedWorkbenchPath w' = cachedWorkbenchPath w
  /\ shown w' = (Warning, lit "Sh1ffy: No workbench font is configured.") :: shown w.
Proof.
  intros Hans. cbv zeta. unfold bind. rewrite showMessage_ask. cbv zeta.
  destruct (answers w) as [|a rest] eqn:Ea; [done|].
  destruct a as [|l| | |]; try done.
  rewrite elem_of_singleton_button.
  destruct (bool_decide_reflect (l = lit "Set font")) as [->|Hne].
  - by destruct (Hans rest).
  - by rewrite bool_decide_eq_false_2 by congruence.
Qed.

(** X12.  With no font configured (the setting is unset or empty),
    [handleReloadFontConfiguration] shows a warning and does nothing
    else, and [handleEnableCustomFont] does the same unless the user
    presses "Set font". *)
Theorem no_font_configured (h : host) (w : world) :
  no_font (workbenchFont w) = true ->
  handleReloadFontConfiguration h w
  = (Ok tt, with_shown w ((Warning, lit "Sh1ffy: No workbench font is configured. Set one first.")
                            :: shown w))
  /\ ((forall rest, answers w <> Button (lit "Set font") :: rest) ->
      let w' := snd (handleEnableCustomFont h w) in
      files w' = files w /\ workbenchFont w' = workbenchFont w
      /\ cachedWorkbenchPath w' = cachedWorkbenchPath w
      /\ shown w' = (Warning, lit "Sh1ffy: No workbench font is configured.") :: shown w).
Proof.
  intros Hno. split.
  - unfold handleReloadFontConfiguration, bind, getWorkbenchFont.
    destruct (workbenchFont w) as [[|c f]|]; done.
  - intros Hans. pose proof (set_font_prompt_declined h w Hans) as Hrun.
    unfold handleEnableCustomFont, enableCustomFont.
    assert (E1 : getWorkbenchFont w = (Ok (workbenchFont w), w)) by reflexivity.
    rewrite (bind_run _ _ _ _ _ E1).
    destruct (workbenchFont w) as [[|c f]|]; [exact Hrun | done | exact Hrun].
Qed.

Lemma no_font_configured_witness :
  let w := Demo.repairing in
  handleReloadFontConfiguration Demo.host w
  = (Ok tt, with_shown w ((Warning, lit "Sh1ffy: No workbench font is configured. Set one first.")
                            :: shown w))
  /\ files (snd (handleEnableCustomFont Demo.host w)) = files w.
Proof.
  cbv zeta.
  destruct (no_font_configured Demo.host Demo.repairing eq_refl) as [H1 H2].
  split; [exact H1|]. apply H2. intros rest. discriminate.
Defined.

(** X13.  When workbench.html cannot be read (it is at neither location, or a
    directory is there), the handlers that edit it write nothing and
    show their error message. *)
Theorem workbench_html_unreadable (h : host) (w : world) :
  (forall content, files w !! workbenchPathOf h w <> Some (File content)) ->
  (let w' := snd (handleDisableCustomFont h w) in
   files w' = files w
   /\ shown w' = (Error, lit "Sh1ffy: Failed to disable the workbench font. See logs for details.")
                 :: shown w)
  /\ (no_font (workbenchFont w) = false ->
      (let w' := snd (handleEnableCustomFont h w) in
       files w' = files w
       /\ shown w' = (Error, lit "Sh1ffy: Failed to enable the workbench font. See logs for details.")
                     :: shown w)
      /\ (let w' := snd (handleReloadFontConfiguration h w) in
          files w' = files w
          /\ shown w' = (Error, lit "Sh1ffy: Failed to reload the workbench font configuration.")
                        :: shown w)).
Proof.
  intros Hbad. pose proof (getWorkbenchHtml_fails h w Hbad) as Hfail. cbv zeta. split.
  - unfold handleDisableCustomFont.
    erewrite try_catch_run_throw; [|by erewrite bind_run_throw].
    unfold bind. by rewrite showMessage_plain.
  - intros Hfont. destruct (workbenchFont w) as [[|c f]|] eqn:Ef; try done.
    assert (E1 : getWorkbenchFont w = (Ok (Some (c :: f)), w))
      by (unfold getWorkbenchFont; by rewrite Ef).
    split.
    + unfold handleEnableCustomFont, enableCustomFont.
      rewrite (bind_run _ _ _ _ _ E1). cbv beta iota.
      erewrite try_catch_run_throw; [|by erewrite bind_run_throw].
      unfold bind. by rewrite showMessage_plain.
    + unfold handleReloadFontConfiguration.
      rewrite (bind_run _ _ _ _ _ E1). cbv beta iota.
      erewrite try_catch_run_throw; [|by erewrite bind_run_throw].
      unfold bind. by rewrite showMessage_plain.
Qed.

Lemma workbench_html_unreadable_witness :
  let w := Demo.world_of [ (lit "/ext", Dir) ] (Some (lit "Fira Code")) [] in
  files (snd (handleEnableCustomFont Demo.host w)) = files w
  /\ shown (snd (handleEnableCustomFont Demo.host w))
     = [ (Error, lit "Sh1ffy: Failed to enable the workbench font. See logs for details.") ].
Proof.
  cbv zeta.
  refine (proj1 (proj2 (workbench_html_unreadable Demo.host
                          (Demo.world_of [ (lit "/ext", Dir) ] (Some (lit "Fira Code")) []) _)
                   eq_refl)).
  intros content. vm_compute. discriminate.
Defined.

(** ** What the operations do to the settings *)

#[global] Instance same_font_preorder : PreOrder same_font.
Proof. split; [by intros w | intros w1 w2 w3 H1 H2; unfold same_font in *; congruence]. Qed.

#[global] Instance same_colorTheme_preorder : PreOrder same_colorTheme.
Proof. split; [by intros w | intros w1 w2 w3 H1 H2; unfold same_colorTheme in *; congruence]. Qed.

#[global] Instance same_settings_preorder : PreOrder same_settings.
Proof.
  split; [by intros w|].
  intros w1 w2 w3 [H1 H2] [H3 H4]. split; etransitivity; eassumption.
Qed.

Lemma settings_font {A} (m : M A) : keeps same_settings m -> keeps same_font m.
Proof. apply keeps_weaken. by intros w w' [H _]. Qed.

Lemma settings_colorTheme {A} (m : M A) : keeps same_settings m -> keeps same_colorTheme m.
Proof. apply keeps_weaken. by intros w w' [_ H]. Qed.

Lemma reads_settings {A} (m : M A) : keeps eq m -> keeps same_settings m.
Proof. apply keeps_weaken. intros w w' ->. reflexivity. Qed.

(** *** The file system and the user interface *)

Lemma writeFileSync_settings h p data : keeps same_settings (writeFileSync h p data).
Proof. intros w. unfold writeFileSync. by destruct (writable _ _ _). Qed.

Lemma unlinkSync_settings p : keeps same_settings (unlinkSync p).
Proof. intros w. unfold unlinkSync. by destruct (files w !! p) as [[]|]. Qed.

Lemma mkdirSync_settings h p : keeps same_settings (mkdirSync h p).
Proof. intros w. unfold mkdirSync. by destruct (mkdirp _ _ _ _). Qed.

Lemma copyFileSync_settings h src dst : keeps same_settings (copyFileSync h src dst).
Proof.
  unfold copyFileSync. keeps_step;
    [apply reads_settings, readFileSync_reads | apply writeFileSync_settings].
Qed.

Lemma next_answer_settings : keeps same_settings next_answer.
Proof. intros w. unfold next_answer. by destruct (answers w). Qed.

Lemma showMessage_settings sev text items : keeps same_settings (showMessage sev text items).
Proof.
  unfold showMessage. keeps_step; [by intros w|].
  destruct items; repeat keeps_step. apply next_answer_settings.
Qed.

Lemma showInputBox_settings : keeps same_settings showInputBox.
Proof. unfold showInputBox. repeat keeps_step. apply next_answer_settings. Qed.

Lemma showOpenDialog_settings : keeps same_settings showOpenDialog.
Proof. unfold showOpenDialog. repeat keeps_step. apply next_answer_settings. Qed.

Lemma showQuickPickMany_settings {A} (items : list A) :
  keeps same_settings (showQuickPickMany items).
Proof. unfold showQuickPickMany. repeat keeps_step. apply next_answer_settings. Qed.

Lemma showQuickPickOne_settings {A} (items : list A) :
  keeps same_settings (showQuickPickOne items).
Proof. unfold showQuickPickOne. repeat keeps_step. apply next_answer_settings. Qed.

Lemma reloadWindow_settings : keeps same_settings reloadWindow.
Proof. by intros w. Qed.

Lemma font_showReloadNotification_settings message :
  keeps same_settings (font_showReloadNotification message).
Proof.
  unfold font_showReloadNotification. repeat keeps_step;
    first [apply showMessage_settings | apply reloadWindow_settings].
Qed.

Lemma theme_showReloadNotification_settings message :
  keeps same_settings (theme_showReloadNotification message).
Proof.
  unfold theme_showReloadNotification. repeat keeps_step;
    first [apply showMessage_settings | apply reloadWindow_settings].
Qed.

Lemma getWorkbenchFont_settings : keeps same_settings getWorkbenchFont.
Proof. by intros w. Qed.

Lemma getWorkbenchPath_settings h : keeps same_settings (getWorkbenchPath h).
Proof. intros w. by rewrite getWorkbenchPath_run. Qed.

Lemma getWorkbenchHtml_settings h : keeps same_settings (getWorkbenchHtml h).
Proof.
  unfold getWorkbenchHtml. keeps_step;
    [apply getWorkbenchPath_settings | apply reads_settings, readFileSync_reads].
Qed.

Lemma saveWorkbenchHtml_settings h html : keeps same_settings (saveWorkbenchHtml h html).
Proof.
  unfold saveWorkbenchHtml. keeps_step;
    [apply getWorkbenchPath_settings | apply writeFileSync_settings].
Qed.

Lemma setWorkbenchFont_colorTheme font : keeps same_colorTheme (setWorkbenchFont font).
Proof. by intros w. Qed.

Lemma setColorThemeById_font themeId : keeps same_font (setColorThemeById themeId).
Proof. by intros w. Qed.

(** Steps that touch no setting. *)
Ltac settings_leaf :=
  first
    [ apply reads_settings;
      first [ apply existsSync_reads | apply readFileSync_reads | apply parse_json_reads
            | apply readPackageJson_reads | apply readImportedThemesFromDisk_reads ]
    | apply showMessage_settings | apply showInputBox_settings | apply showOpenDialog_settings
    | apply showQuickPickMany_settings | apply showQuickPickOne_settings
    | apply reloadWindow_settings | apply getWorkbenchFont_settings
    | apply getWorkbenchHtml_settings | apply saveWorkbenchHtml_settings
    | apply font_showReloadNotification_settings
    | apply theme_showReloadNotification_settings
    | apply writeFileSync_settings | apply copyFileSync_settings
    | apply mkdirSync_settings | apply unlinkSync_settings ].

Ltac settings_auto := repeat first [ keeps_step | settings_leaf ].

(** *** The handlers that touch no setting *)

Lemma handleReloadFontConfiguration_settings h :
  keeps same_settings (handleReloadFontConfiguration h).
Proof. unfold handleReloadFontConfiguration. settings_auto. Qed.

Lemma handleDisableCustomFont_settings h : keeps same_settings (handleDisableCustomFont h).
Proof. unfold handleDisableCustomFont. settings_auto. Qed.

Lemma enableCustomFont_settings h :
  keeps same_settings (enableCustomFont h (ret tt)).
Proof. unfold enableCustomFont. settings_auto. Qed.

Lemma writePackageJson_settings h root pkg : keeps same_settings (writePackageJson h root pkg).
Proof. unfold writePackageJson. settings_auto. Qed.

Lemma syncPackageJsonThemes_settings h root : keeps same_settings (syncPackageJsonThemes h root).
Proof. unfold syncPackageJsonThemes. settings_auto. apply writePackageJson_settings. Qed.

Lemma importThemeFile_settings h dir existingThemes uri :
  keeps same_settings (importThemeFile h dir existingThemes uri).
Proof. unfold importThemeFile. settings_auto. Qed.

Lemma importLoop_settings h dir existingThemes uris :
  keeps same_settings (importLoop h dir existingThemes uris).
Proof.
  induction uris as [|uri uris IH]; cbn [importLoop]; [keeps_step|].
  keeps_step.
  - settings_auto. apply importThemeFile_settings.
  - keeps_step; [exact IH | keeps_step].
Qed.

Lemma removeThemeFile_settings h root dir theme :
  keeps same_settings (removeThemeFile h root dir theme).
Proof. unfold removeThemeFile. settings_auto. Qed.

Lemma handleRemoveThemes_settings h root : keeps same_settings (handleRemoveThemes h root).
Proof.
  unfold handleRemoveThemes.
  keeps_step; [settings_leaf|].
  destruct a as [|t themes]; [settings_auto|].
  keeps_step; [settings_leaf|].
  destruct a as [[|p picks]|]; [keeps_step| |keeps_step].
  keeps_step; [settings_leaf|].
  keeps_step; [keeps_step|].
  keeps_step; [keeps_step; apply removeThemeFile_settings|].
  keeps_step; [apply syncPackageJsonThemes_settings|].
  settings_leaf.
Qed.

Lemma handleListThemes_settings h root : keeps same_settings (handleListThemes h root).
Proof. unfold handleListThemes. settings_auto. Qed.

Lemma handleRepairContributions_settings h root :
  keeps same_settings (handleRepairContributions h root).
Proof.
  unfold handleRepairContributions.
  keeps_step; [|settings_auto].
  keeps_step; [apply syncPackageJsonThemes_settings | settings_leaf].
Qed.

Lemma handleRestorePackageJsonBackup_settings h root :
  keeps same_settings (handleRestorePackageJsonBackup h root).
Proof. unfold handleRestorePackageJsonBackup. settings_auto. Qed.

(** *** The handlers that set one *)

Ltac colorTheme_auto :=
  repeat first [ keeps_step | apply setWorkbenchFont_colorTheme
               | apply settings_colorTheme; settings_leaf ].

Lemma handleSetCustomFont_colorTheme h : keeps same_colorTheme (handleSetCustomFont h).
Proof.
  unfold handleSetCustomFont, setCustomFont. colorTheme_auto.
  - apply settings_colorTheme, handleReloadFontConfiguration_settings.
  - apply settings_colorTheme, enableCustomFont_settings.
Qed.

Lemma handleEnableCustomFont_colorTheme h : keeps same_colorTheme (handleEnableCustomFont h).
Proof.
  unfold handleEnableCustomFont, enableCustomFont. colorTheme_auto.
  all: apply handleSetCustomFont_colorTheme.
Qed.

Lemma handleResetToDefaults_colorTheme h : keeps same_colorTheme (handleResetToDefaults h).
Proof. unfold handleResetToDefaults. colorTheme_auto. Qed.

Lemma handleImportThemes_font h root : keeps same_font (handleImportThemes h root).
Proof.
  unfold handleImportThemes.
  keeps_step; [apply settings_font; settings_leaf|].
  destruct a as [[|uri uris]|]; [keeps_step| |keeps_step].
  keeps_step; [apply settings_font; settings_leaf|].
  keeps_step; [destruct (negb a); [apply settings_font; settings_leaf | keeps_step]|].
  keeps_step; [apply settings_font; settings_leaf|].
  keeps_step; [apply settings_font, importLoop_settings|].
  keeps_step; [apply settings_font, syncPackageJsonThemes_settings|].
  keeps_step.
  - destruct (fst a2) as [|l1 [|l2 ls]];
      repeat first [ keeps_step | apply setColorThemeById_font
                   | apply settings_font; settings_leaf ].
  - destruct (snd a2); repeat first [ keeps_step | apply settings_font; settings_leaf ].
Qed.

(** X14.  The two managers keep to their own setting: no font operation
    changes [workbench.colorTheme] and no theme operation changes
    [sh1ffy.workbenchFont].  Of the font operations, disabling and
    reloading leave the font setting as it is; of the theme operations,
    only the import (its "Apply now" button) sets the colour theme. *)
Theorem settings_are_kept_apart (h : host) (extensionRoot : str) :
  (keeps same_colorTheme (handleSetCustomFont h)
   /\ keeps same_colorTheme (handleEnableCustomFont h)
   /\ keeps same_colorTheme (handleDisableCustomFont h)
   /\ keeps same_colorTheme (handleReloadFontConfiguration h)
   /\ keeps same_colorTheme (handleResetToDefaults h))
  /\ (keeps same_font (handleImportThemes h extensionRoot)
      /\ keeps same_font (handleRemoveThemes h extensionRoot)
      /\ keeps same_font (handleListThemes h extensionRoot)
      /\ keeps same_font (handleRepairContributions h extensionRoot)
      /\ keeps same_font (handleRestorePackageJsonBackup h extensionRoot))
  /\ (keeps same_font (handleDisableCustomFont h)
      /\ keeps same_font (handleReloadFontConfiguration h))
  /\ (keeps same_colorTheme (handleRemoveThemes h extensionRoot)
      /\ keeps same_colorTheme (handleListThemes h extensionRoot)
      /\ keeps same_colorTheme (handleRepairContributions h extensionRoot)
      /\ keeps same_colorTheme (handleRestorePackageJsonBackup h extensionRoot)).
Proof.
  split; [|split; [|split]].
  - repeat lazymatch goal with |- _ /\ _ => split end.
    + apply handleSetCustomFont_colorTheme.
    + apply handleEnableCustomFont_colorTheme.
    + apply settings_colorTheme, handleDisableCustomFont_settings.
    + apply settings_colorTheme, handleReloadFontConfiguration_settings.
    + apply handleResetToDefaults_colorTheme.
  - repeat lazymatch goal with |- _ /\ _ => split end.
    + apply handleImportThemes_font.
    + apply settings_font, handleRemoveThemes_settings.
    + apply settings_font, handleListThemes_settings.
    + apply settings_font, handleRepairContributions_settings.
    + apply settings_font, handleRestorePackageJsonBackup_settings.
  - split; apply settings_font;
      [apply handleDisableCustomFont_settings | apply handleReloadFontConfiguration_settings].
  - repeat lazymatch goal with |- _ /\ _ => split end; apply settings_colorTheme.
    + apply handleRemoveThemes_settings.
    + apply handleListThemes_settings.
    + apply handleRepairContributions_settings.
    + apply handleRestorePackageJsonBackup_settings.
Qed.

(** ** Setting and resetting the font *)

(** After a step that ends in world [w1], what follows keeps the font
    setting of [w1]. *)
Lemma workbenchFont_after {A} (k : M A) w1 :
  keeps same_font k -> workbenchFont (snd (k w1)) = workbenchFont w1.
Proof. intros H. apply H. Qed.

Lemma showInputBox_text v rest w :
  answers w = Text v :: rest -> showInputBox w = (Ok (Some v), with_answers w rest).
Proof. intros H. unfold showInputBox, bind, next_answer. by rewrite H. Qed.

Lemma showInputBox_cancelled w :
  (forall v rest, answers w <> Text v :: rest) ->
  exists w', showInputBox w = (Ok None, w')
             /\ files w' = files w /\ workbenchFont w' = workbenchFont w
             /\ shown w' = shown w.
Proof.
  intros H. unfold showInputBox, bind, next_answer.
  destruct (answers w) as [|a rest] eqn:E; [by eexists|].
  destruct a; try by eexists. by destruct (H value rest).
Qed.

(** X15.  [handleSetCustomFont]: when the input box is cancelled nothing
    changes; when the text is blank a warning is shown and the setting
    stays; otherwise the setting becomes the text without the white
    space around it, whatever the user does in the dialogs that follow. *)
Theorem handleSetCustomFont_stores_trimmed (h : host) (w : world) :
  let w' := snd (handleSetCustomFont h w) in
  ((forall v rest, answers w <> Text v :: rest) ->
   files w' = files w /\ workbenchFont w' = workbenchFont w /\ shown w' = shown w)
  /\ (forall v rest, answers w = Text v :: rest -> trim v = [] ->
        files w' = files w /\ workbenchFont w' = workbenchFont w
        /\ shown w' = (Warning, lit "Sh1ffy: Font name was empty. No changes were made.")
                      :: shown w)
  /\ (forall v rest, answers w = Text v :: rest -> trim v <> [] ->
        workbenchFont w' = Some (trim v)).
Proof.
  cbv zeta. unfold handleSetCustomFont, setCustomFont.
  assert (E1 : getWorkbenchFont w = (Ok (workbenchFont w), w)) by reflexivity.
  rewrite (bind_run _ _ _ _ _ E1).
  split; [|split].
  - intros Hans. destruct (showInputBox_cancelled w Hans) as (w' & E & Hf & Hfo & Hs).
    by rewrite (bind_run _ _ _ _ _ E).
  - intros v rest Hans Htrim.
    rewrite (bind_run _ _ _ _ _ (showInputBox_text v rest w Hans)). rewrite Htrim.
    unfold bind. by rewrite showMessage_plain.
  - intros v rest Hans Htrim.
    rewrite (bind_run _ _ _ _ _ (showInputBox_text v rest w Hans)).
    destruct (trim v) as [|c t]; [done|].
    unfold bind at 1, setWorkbenchFont, modify.
    rewrite workbenchFont_after; [done|].
    unfold same_font. apply settings_font. settings_auto.
    + apply handleReloadFontConfiguration_settings.
    + apply enableCustomFont_settings.
Qed.

Lemma handleSetCustomFont_stores_trimmed_witness :
  let w := Demo.world_of Demo.installed None [Text (lit "  Fira Code ")] in
  workbenchFont (snd (handleSetCustomFont Demo.host w)) = Some (lit "Fira Code").
Proof.
  cbv zeta.
  apply (proj2 (proj2 (handleSetCustomFont_stores_trimmed Demo.host
                         (Demo.world_of Demo.installed None [Text (lit "  Fira Code ")])))
           (lit "  Fira Code ") []); [reflexivity | discriminate].
Defined.

Lemma confirm_reset rest w :
  answers w = Button (lit "Reset") :: rest ->
  showMessage Warning (lit "Reset Sh1ffy workbench font configuration to defaults?")
              [lit "Reset"] w
  = (Ok (Some (lit "Reset")),
     with_answers (with_shown w ((Warning,
                                  lit "Reset Sh1ffy workbench font configuration to defaults?")
                                 :: shown w)) rest).
Proof. intros H. rewrite showMessage_ask, H. reflexivity. Qed.

Lemma decline_reset w :
  (forall rest, answers w <> Button (lit "Reset") :: rest) ->
  exists w',
    showMessage Warning (lit "Reset Sh1ffy workbench font configuration to defaults?")
                [lit "Reset"] w = (Ok None, w')
    /\ files w' = files w /\ workbenchFont w' = workbenchFont w.
Proof.
  intros H. rewrite showMessage_ask. cbv zeta.
  destruct (answers w) as [|a rest] eqn:E; [by eexists|].
  destruct a as [|l| | |]; try by eexists.
  rewrite elem_of_singleton_button.
  destruct (bool_decide_reflect (l = lit "Reset")) as [->|Hne]; [by destruct (H rest)|].
  by eexists.
Qed.

(** X16.  [handleResetToDefaults] does nothing to the files and the setting
    unless the user answers "Reset".  After "Reset" the font setting is
    unset in every case, also when workbench.html cannot be read or
    written; a readable workbench.html with the marker is rewritten
    without the first match of the removal pattern, and one without the
    marker is left as it is. *)
Theorem handleResetToDefaults_clears (h : host) (w : world) :
  let w' := snd (handleResetToDefaults h w) in
  ((forall rest, answers w <> Button (lit "Reset") :: rest) ->
   files w' = files w /\ workbenchFont w' = workbenchFont w)
  /\ (forall rest, answers w = Button (lit "Reset") :: rest ->
        workbenchFont w' = None
        /\ (forall html, files w !! workbenchPathOf h w = Some (File html) ->
              files w' = if includes html STYLE_TAG_OPEN
                         then <[workbenchPathOf h w := File (removeStyle html)]> (files w)
                         else files w)
        /\ ((forall content, files w !! workbenchPathOf h w <> Some (File content)) ->
            files w' = files w)).
Proof.
  cbv zeta. unfold handleResetToDefaults. split.
  - intros Hans. destruct (decline_reset w Hans) as (w' & E & Hf & Hfo).
    by rewrite (bind_run _ _ _ _ _ E).
  - intros rest Hans. rewrite (bind_run _ _ _ _ _ (confirm_reset rest w Hans)).
    rewrite bool_decide_same. cbn [negb].
    set (w1 := with_answers _ rest).
    set (w2 := with_workbenchFont w1 None).
    assert (Hp : workbenchPathOf h w2 = workbenchPathOf h w) by reflexivity.
    assert (Hstep : forall (K : M unit) H,
              try_catch (setWorkbenchFont None ;;; K) H w1 = try_catch K H w2) by reflexivity.
    rewrite Hstep. split; [|split].
    + rewrite workbenchFont_after; [done|].
      apply settings_font. settings_auto.
    + intros html Hhtml.
      assert (Hhtml2 : files w2 !! workbenchPathOf h w2 = Some (File html)) by exact Hhtml.
      destruct (includes html STYLE_TAG_OPEN) eqn:Hinc.
      * destruct (font_showReloadNotification_effect
                    (lit "Sh1ffy: Workbench font configuration reset. Reload the window to restore the default UI font.")
                    (with_files (cache_path h w2)
                       (<[workbenchPathOf h w2 := File (removeStyle html)]> (files w2))))
          as (w3 & E & Hf & _).
        erewrite try_catch_run; cycle 1.
        { erewrite bind_run; cycle 1.
          { erewrite try_catch_run; [reflexivity|].
            rewrite (bind_run _ _ _ _ _ (getWorkbenchHtml_run _ _ _ Hhtml2)). rewrite Hinc.
            erewrite bind_run; [reflexivity|].
            apply (saveWorkbenchHtml_after_read h w2 html Hhtml2). }
          exact E. }
        cbn [snd]. by rewrite Hf.
      * erewrite try_catch_run; cycle 1.
        { erewrite bind_run; cycle 1.
          { erewrite try_catch_run; [reflexivity|].
            rewrite (bind_run _ _ _ _ _ (getWorkbenchHtml_run _ _ _ Hhtml2)).
            rewrite Hinc. reflexivity. }
          cbv beta iota. unfold bind. rewrite showMessage_plain. reflexivity. }
        reflexivity.
    + intros Hbad.
      assert (Hbad2 : forall content, files w2 !! workbenchPathOf h w2 <> Some (File content))
        by exact Hbad.
      erewrite try_catch_run; cycle 1.
      { erewrite bind_run; cycle 1.
        { erewrite try_catch_run_throw; [reflexivity|].
          erewrite bind_run_throw; [reflexivity | by apply getWorkbenchHtml_fails]. }
        cbv beta iota. unfold bind. rewrite showMessage_plain. reflexivity. }
      reflexivity.
Qed.

Lemma handleResetToDefaults_clears_witness :
  let w := Demo.world_of Demo.installed (Some (lit "Fira Code")) [Button (lit "Reset")] in
  workbenchFont (snd (handleResetToDefaults Demo.host w)) = None.
Proof.
  cbv zeta.
  apply (proj2 (handleResetToDefaults_clears Demo.host
                  (Demo.world_of Demo.installed (Some (lit "Fira Code"))
                     [Button (lit "Reset")])) [] eq_refl).
Defined.

(** ** Scanning the themes directory *)

Lemma collect_total {A B} (f : A -> M B) :
  (forall x, keeps eq (f x)) ->
  forall xs w, exists l, collect xs f w = (Ok l, w).
Proof.
  intros Hf xs w. induction xs as [|x xs [l IH]]; [by exists []|].
  cbn [collect]. unfold bind at 1, try_catch, bind at 1.
  rewrite (reads_run (f x) w (Hf x)).
  destruct (fst (f x w)) as [b|e]; cbn; unfold bind; rewrite IH; by eexists.
Qed.





Section Scan.

Variables (h : host) (extensionRoot : str).

Let themesDir := path_join h extensionRoot THEMES_DIR_RELATIVE.

(** X17.  [readImportedThemesFromDisk] reads only, and a theme file that
    cannot be read or parsed is left out instead of making the scan
    fail: the scan returns a list unless the themes directory path is
    taken by a file, and the list is empty when the directory does not
    exist. *)
Theorem readImportedThemesFromDisk_total (w : world) :
  (forall content, files w !! themesDir <> Some (File content)) ->
  (exists themes, readImportedThemesFromDisk h extensionRoot w = (Ok themes, w))
  /\ (files w !! themesDir = None ->
      readImportedThemesFromDisk h extensionRoot w = (Ok [], w)).
Proof.
  intros Hdir. unfold readImportedThemesFromDisk. fold themesDir.
  unfold bind at 1, existsSync.
  destruct (files w !! themesDir) as [[content|]|] eqn:E.
  - by destruct (Hdir content).
  - rewrite bool_decide_eq_true_2 by (by eexists). cbn [negb].
    split; [|done]. unfold bind, readdirSync. rewrite E.
    apply collect_total. intros x. apply readThemeFile_reads.
  - rewrite bool_decide_eq_false_2 by (by intros [? ?]). cbn [negb].
    split; [by eexists|]. intros _. unfold bind. cbv beta. rewrite E.
    by rewrite bool_decide_eq_false_2 by (by intros [? ?]).
Qed.


End Scan.

Lemma readImportedThemesFromDisk_total_witness :
  readImportedThemesFromDisk Demo.host Demo.extensionRoot Demo.repairing
  = (Ok [], Demo.repairing).
Proof.
  apply (proj2 (readImportedThemesFromDisk_total Demo.host Demo.extensionRoot Demo.repairing
                  ltac:(intros content; vm_compute; discriminate))).
  vm_compute. reflexivity.
Defined.


(** ** The theme handlers at their edges *)

#[global] Instance only_talks_preorder : PreOrder only_talks.
Proof.
  split; [by intros w|].
  intros w1 w2 w3 (A1 & A2 & A3 & A4 & A5 & A6) (B1 & B2 & B3 & B4 & B5 & B6).
  repeat split; congruence.
Qed.

Lemma next_answer_talks : keeps only_talks next_answer.
Proof. intros w. unfold next_answer. by destruct (answers w). Qed.

Lemma showMessage_talks sev text items : keeps only_talks (showMessage sev text items).
Proof.
  unfold showMessage. keeps_step; [by intros w|].
  destruct items; repeat keeps_step. apply next_answer_talks.
Qed.

Lemma reads_talks {A} (m : M A) : keeps eq m -> keeps only_talks m.
Proof. apply keeps_weaken. intros w w' ->. reflexivity. Qed.

(** X19.  [handleListThemes] is read-only: whatever the themes directory
    holds and whatever the user does, it changes no file, no setting and
    reloads nothing. *)
Theorem handleListThemes_read_only (h : host) (extensionRoot : str) :
  keeps only_talks (handleListThemes h extensionRoot).
Proof.
  unfold handleListThemes.
  keeps_step; [apply reads_talks, readImportedThemesFromDisk_reads|].
  destruct a as [|t themes].
  - keeps_step; [apply showMessage_talks | keeps_step].
  - unfold showQuickPickOne. keeps_step; [apply next_answer_talks | keeps_step].
Qed.

Section ThemeEdges.

Variables (h : host) (extensionRoot : str).

Let pkgPath := path_join h extensionRoot (lit "package.json").
Let backupPath := path_join h extensionRoot PACKAGE_JSON_BACKUP.
Let themesDir := path_join h extensionRoot THEMES_DIR_RELATIVE.

(** X20.  Without a themes directory, listing and removing only tell the
    user that there are no imported themes; no answer is awaited. *)
Theorem no_imported_themes (w : world) :
  files w !! themesDir = None ->
  let told := with_shown w ((Information, lit "Sh1ffy: No imported themes found.") :: shown w) in
  handleListThemes h extensionRoot w = (Ok tt, told)
  /\ handleRemoveThemes h extensionRoot w = (Ok tt, told).
Proof.
  intros Hdir. cbv zeta.
  assert (E : readImportedThemesFromDisk h extensionRoot w = (Ok [], w)).
  { unfold readImportedThemesFromDisk. fold themesDir. unfold bind, existsSync.
    rewrite Hdir. by rewrite bool_decide_eq_false_2 by (by intros [? ?]). }
  split.
  - unfold handleListThemes. by rewrite (bind_run _ _ _ _ _ E).
  - unfold handleRemoveThemes. by rewrite (bind_run _ _ _ _ _ E).
Qed.

(** X21.  Without a backup, [handleRestorePackageJsonBackup] shows a warning
    and asks nothing. *)
Theorem restore_without_backup (w : world) :
  files w !! backupPath = None ->
  handleRestorePackageJsonBackup h extensionRoot w
  = (Ok tt, with_shown w ((Warning, lit "Sh1ffy: No package.json backup was found.")
                            :: shown w)).
Proof.
  intros Hb. unfold handleRestorePackageJsonBackup. fold backupPath.
  unfold bind at 1, existsSync. rewrite Hb.
  by rewrite bool_decide_eq_false_2 by (by intros [? ?]).
Qed.

(** X22.  When the open dialog is dismissed or nothing is selected,
    [handleImportThemes] does nothing: not even the themes directory is
    created. *)
Theorem import_without_selection (w : world) :
  (forall u us rest, answers w <> Uris (u :: us) :: rest) ->
  handleImportThemes h extensionRoot w = (Ok tt, with_answers w (tail (answers w))).
Proof.
  intros Hans. unfold handleImportThemes, bind at 1, showOpenDialog, bind, next_answer.
  destruct w as [fs font theme cache root ans sh rl]. cbn in *.
  destruct ans as [|a rest]; [done|].
  destruct a as [| | |[|u us]|]; try done. by destruct (Hans u us rest).
Qed.

(** X23.  A package.json that is missing, is not JSON, or holds a JSON value
    that is not an object or array: the repair writes nothing (no
    backup either) and shows its error message. *)
Theorem repair_with_unusable_package (w : world) :
  (forall content, files w !! pkgPath <> Some (File content))
  \/ (exists raw, files w !! pkgPath = Some (File raw)
                  /\ match JSON_parse h raw with
                     | Some pkg => is_object pkg = false
                     | None => True
                     end) ->
  let w' := snd (handleRepairContributions h extensionRoot w) in
  files w' = files w
  /\ shown w' = (Error, lit "Sh1ffy: Failed to repair theme contributions. See logs for details.")
                :: shown w
  /\ reloads w' = reloads w.
Proof.
  intros Hbad. cbv zeta.
  assert (Hsync : exists e, syncPackageJsonThemes h extensionRoot w = (Throw e, w)).
  { unfold syncPackageJsonThemes, readPackageJson. fold pkgPath.
    unfold bind at 1 2, readFileSync.
    destruct Hbad as [Hno|(raw & Hraw & Hparse)].
    - destruct (files w !! pkgPath) as [[content|]|] eqn:E; [|by eexists..].
      by destruct (Hno content).
    - rewrite Hraw. unfold parse_json.
      destruct (JSON_parse h raw) as [pkg|]; [|by eexists].
      unfold ret, bind.
      rewrite (reads_run _ w (readImportedThemesFromDisk_reads h extensionRoot)).
      destruct (fst _) as [themes|e]; [|by eexists].
      destruct pkg; try done; by eexists. }
  destruct Hsync as [e Hsync]. unfold handleRepairContributions.
  erewrite try_catch_run_throw; [|by erewrite bind_run_throw].
  unfold bind. by rewrite showMessage_plain.
Qed.

(** X24.  The import loop goes through every selected file: a file that
    fails is noted and the loop goes on.  It never throws, and every
    file gives at most one imported label or one failure. *)
Theorem importLoop_goes_on (existingThemes : list Sh1ffyThemeEntry) (uris : list (list N))
    (w : world) :
  exists names errors w',
    importLoop h themesDir existingThemes uris w = (Ok (names, errors), w')
    /\ errors `sublist_of` uris
    /\ (length names + length errors <= length uris)%nat.
Proof.
  revert w. induction uris as [|uri uris IH]; intros w.
  - exists [], [], w. by repeat split.
  - cbn [importLoop]. unfold bind at 1, try_catch, bind at 1.
    destruct (importThemeFile h themesDir existingThemes uri w) as [[l|e] w1];
      cbn [ret]; unfold bind;
      destruct (IH w1) as (names & errors & w2 & -> & Hsub & Hlen); cbn [ret fst snd].
    + destruct l as [label|].
      * exists (label :: names), errors, w2. split; [done|].
        split; [by apply sublist_cons | cbn; lia].
      * exists names, errors, w2. split; [done|].
        split; [by apply sublist_cons | cbn; lia].
    + exists names, (uri :: errors), w2. split; [done|].
      split; [by apply sublist_skip | cbn; lia].
Qed.

End ThemeEdges.

Lemma no_imported_themes_witness :
  handleListThemes Demo.host Demo.extensionRoot Demo.repairing
  = (Ok tt, with_shown Demo.repairing
              ((Information, lit "Sh1ffy: No imported themes found.")
               :: shown Demo.repairing)).
Proof.
  apply (proj1 (no_imported_themes Demo.host Demo.extensionRoot Demo.repairing eq_refl)).
Defined.

Lemma restore_without_backup_witness :
  handleRestorePackageJsonBackup Demo.host Demo.extensionRoot Demo.repairing
  = (Ok tt, with_shown Demo.repairing
              ((Warning, lit "Sh1ffy: No package.json backup was found.")
               :: shown Demo.repairing)).
Proof. apply (restore_without_backup Demo.host Demo.extensionRoot Demo.repairing eq_refl). Defined.

Lemma import_without_selection_witness :
  handleImportThemes Demo.host Demo.extensionRoot Demo.repairing
  = (Ok tt, with_answers Demo.repairing []).
Proof.
  apply (import_without_selection Demo.host Demo.extensionRoot Demo.repairing).
  intros u us rest. discriminate.
Defined.

Lemma repair_with_unusable_package_witness :
  let w := Demo.world_of [ (lit "/ext", Dir); (Demo.pkgPath, File (lit "{ not json")) ] None [] in
  let w' := snd (handleRepairContributions Demo.host Demo.extensionRoot w) in
  files w' = files w
  /\ shown w' = [ (Error, lit "Sh1ffy: Failed to repair theme contributions. See logs for details.") ]
  /\ reloads w' = 0%nat.
Proof.
  cbv zeta.
  apply (repair_with_unusable_package Demo.host Demo.extensionRoot
           (Demo.world_of [ (lit "/ext", Dir); (Demo.pkgPath, File (lit "{ not json")) ]
              None [])).
  right. exists (lit "{ not json"). split; vm_compute; done.
Defined.

(** ** Importing one theme file, and rebuilding package.json *)

Lemma showMessage_files sev text items w :
  files (snd (showMessage sev text items w)) = files w.
Proof. by destruct (showMessage_disk sev text items w) as [H _]. Qed.

(** X25.  When [importThemeFile] imports the file [uri], the label it
    returns begins with the Sh1ffy prefix, and the only change to the
    file system is one file written: at the themes directory joined with
    the target name of the base name of [uri] (the base name itself when
    its extension is [.json] in any letter case, else the base name with
    [.json] in place of its last extension), holding the JSON text of
    the normalized object read from [uri], whose [name] is that label. *)
Theorem importThemeFile_label (h : host) (themesDir : str)
    (existingThemes : list Sh1ffyThemeEntry) (uri : str) (w w' : world) (label : str) :
  importThemeFile h themesDir existingThemes uri w = (Ok (Some label), w') ->
  startsWith label THEME_LABEL_PREFIX = true
  /\ exists fileContent themeObject,
       files w !! uri = Some (File fileContent)
       /\ JSON_parse h (Strip.stripJsonComments fileContent) = Some themeObject
       /\ let originalFileName := path_basename h uri in
          let theme := normalizeThemeObject themeObject originalFileName in
          Json.lookup_field (lit "name") theme = Some (JStr label)
          /\ files w'
             = <[path_join h themesDir (targetFileName h originalFileName)
                 := File (JSON_stringify h (JObj theme))]> (files w).
Proof.
  unfold importThemeFile. unfold bind at 1, readFileSync at 1.
  destruct (files w !! uri) as [[fileContent|]|] eqn:Efile; [|done..].
  unfold bind at 1, parse_json at 1.
  destruct (JSON_parse h (Strip.stripJsonComments fileContent)) as [themeObject|] eqn:Eparse;
    [|done].
  unfold ret at 1. cbv beta iota.
  destruct (negb (is_object themeObject)); [done|]. cbv zeta.
  set (fileName := path_basename h uri).
  rewrite (normalizeThemeObject_name themeObject fileName).
  pose proof (prefixedName_prefixed themeObject fileName) as Hpre. cbv zeta in Hpre.
  set (name := if startsWith _ _ then _ else _) in *.
  change (path_join h themesDir _) with (path_join h themesDir (targetFileName h fileName)).
  set (target := path_join h themesDir _).
  set (theme := normalizeThemeObject themeObject fileName).
  assert (Hdone : forall w1, files w1 = files w ->
            (writeFileSync h target (JSON_stringify h (JObj theme)) ;;; ret (Some name)) w1
            = (Ok (Some label), w') ->
            startsWith label THEME_LABEL_PREFIX = true
            /\ exists fileContent' themeObject',
                 Some (File fileContent) = Some (File fileContent')
                 /\ JSON_parse h (Strip.stripJsonComments fileContent') = Some themeObject'
                 /\ Json.lookup_field (lit "name") (normalizeThemeObject themeObject' fileName)
                    = Some (JStr label)
                 /\ files w'
                    = <[target := File (JSON_stringify h
                                         (JObj (normalizeThemeObject themeObject' fileName)))]>
                        (files w)).
  { intros w1 Hw1. unfold bind, writeFileSync.
    destruct (writable h (files w1) target); [|done].
    intros [= <- <-]. split; [exact Hpre|].
    exists fileContent, themeObject. split; [done|]. split; [done|]. split.
    - apply normalizeThemeObject_name.
    - cbn [files with_files]. by rewrite Hw1. }
  destruct (List.find _ existingThemes) as [t|].
  - unfold bind at 1 2.
    pose proof (showMessage_files Warning
                  (lit "A Sh1ffy theme named " ++ quoted name
                   ++ lit " already exists. Overwrite its file and contribution entry?")
                  [lit "Overwrite"; lit "Skip"] w) as Hf.
    destruct (showMessage _ _ _ w) as [[decision|e] w1]; [|done]. cbn [snd] in Hf.
    unfold ret at 1. cbv beta iota.
    destruct (bool_decide (decision = _)); cbn [negb]; [by apply Hdone|].
    unfold ret. by intros [= ].
  - unfold bind at 1. unfold ret at 1. cbv beta iota. cbn [negb]. by apply Hdone.
Qed.

Lemma importThemeFile_label_witness :
  let w := Demo.world_of [ (lit "/ext", Dir); (Demo.themesDir, Dir);
                           (lit "/home/me/night.jsonc",
                            File (lit "{ /* mine */ } // end")) ] None [] in
  let r := importThemeFile Demo.host Demo.themesDir [] (lit "/home/me/night.jsonc") w in
  let label := THEME_LABEL_PREFIX ++ lit "night" in
  fst r = Ok (Some label)
  /\ startsWith label THEME_LABEL_PREFIX = true
  /\ path_join Demo.host Demo.themesDir
       (targetFileName Demo.host (path_basename Demo.host (lit "/home/me/night.jsonc")))
     = lit "/ext/themes/night.json"
  /\ exists fileContent themeObject,
       files w !! lit "/home/me/night.jsonc" = Some (File fileContent)
       /\ JSON_parse Demo.host (Strip.stripJsonComments fileContent) = Some themeObject
       /\ let theme := normalizeThemeObject themeObject (lit "night.jsonc") in
          Json.lookup_field (lit "name") theme = Some (JStr label)
          /\ files (snd r)
             = <[lit "/ext/themes/night.json"
                 := File (JSON_stringify Demo.host (JObj theme))]> (files w).
Proof.
  intros w r label. split; [vm_compute; reflexivity|].
  destruct (importThemeFile_label Demo.host Demo.themesDir [] (lit "/home/me/night.jsonc")
              w (snd r) label ltac:(vm_compute; reflexivity)) as [Hlabel Hfile].
  split; [exact Hlabel|]. split; [vm_compute; reflexivity|]. exact Hfile.
Defined.

Lemma keys_set_field k v fields :
  map fst (Json.set_field k v fields)
  = if bool_decide (is_Some (Json.lookup_field k fields))
    then map fst fields else map fst fields ++ [k].
Proof.
  induction fields as [|[k' v'] r IH]; cbn [Json.set_field Json.lookup_field].
  - case_bool_decide as H; [by destruct H | done].
  - destruct (bool_decide_reflect (k = k')) as [->|Hne]; cbn [map fst].
    + clear IH. by rewrite bool_decide_eq_true_2 by (by eexists).
    + rewrite IH. by case_bool_decide.
Qed.

(** X26.  What [syncPackageJsonThemes] writes for a package.json object keeps
    everything that is not the theme list: every other top-level
    property and every other property of [contributes] has its value,
    and the properties are in their order. *)
Theorem rebuild_package_keeps_rest (fields : list (list N * json))
    (themesOnDisk : list Sh1ffyThemeEntry) (pkg' : json) :
  rebuild_package (JObj fields) themesOnDisk = Some pkg' ->
  exists fields',
    pkg' = JObj fields'
    /\ (forall k, k <> lit "contributes" ->
          Json.lookup_field k fields' = Json.lookup_field k fields)
    /\ (forall cfields,
          Json.lookup_field (lit "contributes") fields = Some (JObj cfields) ->
          exists cfields',
            Json.lookup_field (lit "contributes") fields' = Some (JObj cfields')
            /\ (forall k, k <> lit "themes" ->
                  Json.lookup_field k cfields' = Json.lookup_field k cfields)
            /\ map fst cfields'
               = if bool_decide (is_Some (Json.lookup_field (lit "themes") cfields))
                 then map fst cfields else map fst cfields ++ [lit "themes"])
    /\ map fst fields'
       = if bool_decide (is_Some (Json.lookup_field (lit "contributes") fields))
         then map fst fields else map fst fields ++ [lit "contributes"].
Proof.
  unfold rebuild_package.
  assert (Hset : forall cfields', exists fields',
            JObj (Json.set_field (lit "contributes") (JObj cfields') fields) = JObj fields'
            /\ (forall k, k <> lit "contributes" ->
                  Json.lookup_field k fields' = Json.lookup_field k fields)
            /\ Json.lookup_field (lit "contributes") fields' = Some (JObj cfields')
            /\ map fst fields'
               = if bool_decide (is_Some (Json.lookup_field (lit "contributes") fields))
                 then map fst fields else map fst fields ++ [lit "contributes"]).
  { intros cfields'. eexists. split; [reflexivity|].
    split; [intros k Hk; by apply lookup_set_field_ne|].
    split; [apply lookup_set_field | apply keys_set_field]. }
  destruct (Json.lookup_field (lit "contributes") fields) as [c|] eqn:Ec.
  - assert (Hempty : Json.truthy c = false ->
              Some (JObj (Json.set_field (lit "contributes")
                            (JObj (Json.set_field (lit "themes")
                                     (JArr (List.filter keep_entry []
                                            ++ map contribution themesOnDisk)) []))
                            fields)) = Some pkg' ->
              (forall cfields, c <> JObj cfields) ->
              exists fields',
                pkg' = JObj fields'
                /\ (forall k, k <> lit "contributes" ->
                      Json.lookup_field k fields' = Json.lookup_field k fields)
                /\ (forall cfields, Some c = Some (JObj cfields) ->
                      exists cfields',
                        Json.lookup_field (lit "contributes") fields' = Some (JObj cfields')
                        /\ (forall k, k <> lit "themes" ->
                              Json.lookup_field k cfields' = Json.lookup_field k cfields)
                        /\ map fst cfields'
                           = if bool_decide (is_Some (Json.lookup_field (lit "themes") cfields))
                             then map fst cfields else map fst cfields ++ [lit "themes"])
                /\ map fst fields' = if bool_decide (is_Some (Some c))
                                     then map fst fields else map fst fields ++ [lit "contributes"]).
    { intros _ E Hc. apply (inj Some) in E.
      destruct (Hset (Json.set_field (lit "themes")
                        (JArr (List.filter keep_entry [] ++ map contribution themesOnDisk)) []))
        as (fields' & E' & Hk & _ & Hkeys).
      exists fields'. split; [rewrite <- E; exact E'|]. split; [exact Hk|]. split; [|exact Hkeys].
      intros cfields [= E0]. by destruct (Hc cfields). }
    destruct c as [|b|n|s|items|cfields]; cbn [Json.truthy].
    + intros E. by apply Hempty.
    + destruct b; [done|]. intros E. by apply Hempty.
    + destruct (n =? 0) eqn:En; cbn [negb]; [|done].
      intros E. apply Hempty; [cbn; by rewrite En | exact E | done].
    + destruct s; [|done]. intros E. by apply Hempty.
    + intros E. apply (inj Some) in E. exists fields. split; [done|].
      split; [done|]. split; [done|]. by rewrite bool_decide_eq_true_2 by (by eexists).
    + intros E. apply (inj Some) in E.
      destruct (Hset (Json.set_field (lit "themes")
                        (JArr (List.filter keep_entry
                                 match Json.lookup_field (lit "themes") cfields with
                                 | Some (JArr items) => items
                                 | _ => []
                                 end ++ map contribution themesOnDisk)) cfields))
        as (fields' & E' & Hk & Hc & Hkeys).
      exists fields'. split; [rewrite <- E; exact E'|]. split; [exact Hk|]. split; [|exact Hkeys].
      intros cf E0. apply (inj Some) in E0. assert (cf = cfields) as -> by congruence.
      eexists. split; [exact Hc|].
      split; [intros k Hk'; by apply lookup_set_field_ne | apply keys_set_field].
  - intros E. apply (inj Some) in E.
    destruct (Hset (Json.set_field (lit "themes")
                      (JArr (List.filter keep_entry [] ++ map contribution themesOnDisk)) []))
      as (fields' & E' & Hk & _ & Hkeys).
    exists fields'. split; [rewrite <- E; exact E'|]. split; [exact Hk|]. split; [done | exact Hkeys].
Qed.

Lemma rebuild_package_keeps_rest_witness :
  let fields := [ (lit "name", JStr (lit "sh1ffy")); (lit "version", JStr (lit "1.0.0")) ] in
  exists fields',
    rebuild_package (JObj fields) Demo.syncing_themes = Some (JObj fields')
    /\ Json.lookup_field (lit "version") fields' = Some (JStr (lit "1.0.0"))
    /\ map fst fields' = [ lit "name"; lit "version"; lit "contributes" ].
Proof.
  cbv zeta. eexists. split; [vm_compute; reflexivity|].
  destruct (rebuild_package_keeps_rest
              [ (lit "name", JStr (lit "sh1ffy")); (lit "version", JStr (lit "1.0.0")) ]
              Demo.syncing_themes _ eq_refl) as (fields' & E & Hk & _ & Hkeys).
  injection E as <-. split; [|exact Hkeys]. by rewrite Hk.
Defined.

(** ** The two commands *)

Lemma showQuickPick_picked {A} (items : list A) i rest w :
  answers w = Picked [i] :: rest ->
  showQuickPick items w = (Ok (items !! i), with_answers w rest).
Proof. intros H. unfold showQuickPick, bind, next_answer. by rewrite H. Qed.

Lemma showQuickPick_dismissed {A} (items : list A) w :
  (forall i rest, answers w <> Picked [i] :: rest) ->
  showQuickPick items w = (Ok None, with_answers w (tail (answers w))).
Proof.
  intros H. unfold showQuickPick, bind, next_answer.
  destruct w as [fs font theme cache root ans sh rl]. cbn in *.
  destruct ans as [|a rest]; [done|].
  destruct a as [| | | |[|i [|j ixs]]]; try done. by destruct (H i rest).
Qed.

Lemma showQuickPick_disk {A} (items : list A) : keeps same_disk (showQuickPick items).
Proof. unfold showQuickPick. repeat keeps_step. apply next_answer_disk. Qed.

Lemma workbenchFontActions_picked h i rest w :
  answers w = Picked [i] :: rest ->
  workbenchFontActions h w
  = match getFontActions h !! i with
    | Some action => font_action_handler action (with_answers w rest)
    | None => (Ok tt, with_answers w rest)
    end.
Proof.
  intros Hans. unfold workbenchFontActions. cbv zeta.
  rewrite (bind_run _ _ _ _ _ (showQuickPick_picked _ i rest w Hans)).
  rewrite list_lookup_fmap. by destruct (getFontActions h !! i).
Qed.

Lemma colorThemeActions_picked h root i rest w :
  answers w = Picked [i] :: rest ->
  colorThemeActions h root w
  = match getThemeActions h !! i with
    | Some action => theme_action_handler action root (with_answers w rest)
    | None => (Ok tt, with_answers w rest)
    end.
Proof.
  intros Hans. unfold colorThemeActions. cbv zeta.
  rewrite (bind_run _ _ _ _ _ (showQuickPick_picked _ i rest w Hans)).
  rewrite list_lookup_fmap. by destruct (getThemeActions h !! i).
Qed.

Lemma commands_dismissed h root w :
  (forall i rest, answers w <> Picked [i] :: rest) ->
  workbenchFontActions h w = (Ok tt, with_answers w (tail (answers w)))
  /\ colorThemeActions h root w = (Ok tt, with_answers w (tail (answers w))).
Proof.
  intros Hans. unfold workbenchFontActions, colorThemeActions. cbv zeta.
  by rewrite !(bind_run _ _ _ _ _ (showQuickPick_dismissed _ w Hans)).
Qed.

(** X27.  Each command runs the handler of the action the user picks, in the
    world where that answer is consumed, and nothing else; when the menu
    is dismissed, or the pick is not one of the five actions, it does
    nothing. *)
Theorem commands_run_the_picked_action (h : host) (extensionRoot : str) (w : world) :
  ((forall i rest, answers w <> Picked [i] :: rest) ->
   workbenchFontActions h w = (Ok tt, with_answers w (tail (answers w)))
   /\ colorThemeActions h extensionRoot w = (Ok tt, with_answers w (tail (answers w))))
  /\ (forall i rest, answers w = Picked [i] :: rest ->
        workbenchFontActions h w
        = match getFontActions h !! i with
          | Some action => font_action_handler action (with_answers w rest)
          | None => (Ok tt, with_answers w rest)
          end
        /\ colorThemeActions h extensionRoot w
           = match getThemeActions h !! i with
             | Some action => theme_action_handler action extensionRoot (with_answers w rest)
             | None => (Ok tt, with_answers w rest)
             end).
Proof.
  split.
  - apply commands_dismissed.
  - intros i rest Hans. split.
    + by apply workbenchFontActions_picked.
    + by apply colorThemeActions_picked.
Qed.

Lemma commands_run_the_picked_action_witness :
  let w := Demo.world_of Demo.installed (Some (lit "Fira Code")) [Picked [1%nat]] in
  workbenchFontActions Demo.host w
  = handleEnableCustomFont Demo.host (with_answers w []).
Proof.
  cbv zeta.
  apply (proj1 (proj2 (commands_run_the_picked_action Demo.host Demo.extensionRoot
                         (Demo.world_of Demo.installed (Some (lit "Fira Code"))
                            [Picked [1%nat]]))
                  1%nat [] eq_refl)).
Defined.

Lemma answers_cases w :
  (exists i rest, answers w = Picked [i] :: rest)
  \/ (forall i rest, answers w <> Picked [i] :: rest).
Proof.
  destruct (answers w) as [|a rest]; [by right|].
  destruct a as [| | | |[|i [|j ixs]]]; try (by right). left. by exists i, rest.
Qed.

Lemma with_answers_workbench h w a : only_touches_workbench h w (with_answers w a).
Proof. by apply same_disk_workbench. Qed.

(** X28.  The font command changes no path other than workbench.html,
    whatever the user picks and answers.  The theme command changes no
    file when its menu is dismissed; when the user picks the action at
    place [i], it changes no path other than those of that action, as
    the answers after the pick determine them. *)
Theorem commands_touch_only_their_files (h : host) (extensionRoot : str) :
  keeps (only_touches_workbench h) (workbenchFontActions h)
  /\ (forall w,
        (forall i rest, answers w <> Picked [i] :: rest) ->
        files (snd (colorThemeActions h extensionRoot w)) = files w)
  /\ (forall w i rest,
        answers w = Picked [i] :: rest ->
        changes_only (theme_action_paths h extensionRoot i (with_answers w rest))
                     w (snd (colorThemeActions h extensionRoot w))).
Proof.
  assert (Hfont : Forall (fun a => keeps (only_touches_workbench h) (font_action_handler a))
                    (getFontActions h)).
  { unfold getFontActions.
    apply Forall_cons; split; [apply handleSetCustomFont_workbench|].
    apply Forall_cons; split; [apply handleEnableCustomFont_workbench|].
    apply Forall_cons; split; [apply handleDisableCustomFont_workbench|].
    apply Forall_cons; split; [apply handleReloadFontConfiguration_workbench|].
    apply Forall_cons; split; [apply handleResetToDefaults_workbench|].
    by apply Forall_nil. }
  split; [|split].
  - intros w. destruct (answers_cases w) as [(i & rest & Hans)|Hans].
    + rewrite (workbenchFontActions_picked h i rest w Hans).
      destruct (getFontActions h !! i) as [action|] eqn:E;
        [|apply with_answers_workbench].
      transitivity (with_answers w rest); [apply with_answers_workbench|].
      apply (proj1 (Forall_lookup _ _) Hfont i action E).
    + destruct (commands_dismissed h extensionRoot w Hans) as [-> _].
      apply with_answers_workbench.
  - intros w Hans. by destruct (commands_dismissed h extensionRoot w Hans) as [_ ->].
  - intros w i rest Hans.
    rewrite (colorThemeActions_picked h extensionRoot i rest w Hans).
    set (w1 := with_answers w rest).
    assert (Hw1 : forall S, changes_only S w w1) by (intros S; by apply changes_only_files).
    destruct i as [|[|[|[|[|i]]]]]; cbn [getThemeActions lookup list_lookup theme_action_handler];
      (etransitivity; [apply Hw1|]).
    + apply handleImportThemes_changes.
    + apply handleRemoveThemes_changes.
    + apply changes_only_files, handleListThemes_files.
    + apply handleRepairContributions_changes.
    + apply handleRestorePackageJsonBackup_changes.
    + reflexivity.
Qed.

Lemma commands_touch_only_their_files_witness :
  let w := Demo.world_of (Demo.installed ++
                          [ (lit "/home/me", Dir);
                            (lit "/home/me/night.jsonc", File (lit "{}")) ])
             None [Picked [0%nat]; Uris [lit "/home/me/night.jsonc"]] in
  let w' := snd (colorThemeActions Demo.host Demo.extensionRoot w) in
  files w' !! lit "/home/me/night.jsonc" = files w !! lit "/home/me/night.jsonc"
  /\ files w' !! lit "/ext/themes/night.json" <> files w !! lit "/ext/themes/night.json".
Proof.
  intros w w'. split; [|vm_compute; discriminate].
  apply (proj2 (proj2 (commands_touch_only_their_files Demo.host Demo.extensionRoot))
           w 0%nat [Uris [lit "/home/me/night.jsonc"]] eq_refl).
  intros [[(_ & Hnone & _)|(uris & rest & uri & Hans & Huri & Hp)]|[Hp|Hp]].
  - vm_compute in Hnone. discriminate.
  - injection Hans as <- <-. apply list_elem_of_singleton in Huri as ->.
    vm_compute in Hp. discriminate.
  - vm_compute in Hp. discriminate.
  - vm_compute in Hp. discriminate.
Defined.

(** ** Removing themes *)

#[global] Instance only_deletes_preorder : PreOrder only_deletes.
Proof.
  split; [by intros w p n|].
  intros w1 w2 w3 H1 H2 p n Hp. by apply H1, H2.
Qed.

Section Removal.

Variables (h : host) (extensionRoot : str).

Let themesDir := path_join h extensionRoot THEMES_DIR_RELATIVE.

Lemma removeThemeFile_ok theme w :
  fst (removeThemeFile h extensionRoot themesDir theme w) = Ok tt.
Proof.
  unfold removeThemeFile, try_catch, bind, existsSync.
  destruct (_ && _); [|done]. unfold unlinkSync.
  by destruct (files w !! _) as [[]|].
Qed.

Lemma removeThemeFile_only_deletes theme :
  keeps only_deletes (removeThemeFile h extensionRoot themesDir theme).
Proof.
  intros w. unfold removeThemeFile, try_catch, bind, existsSync.
  destruct (_ && _); [|reflexivity]. unfold unlinkSync.
  destruct (files w !! _) as [[]|] eqn:E; try reflexivity.
  intros p n. cbn. intros Hp. by apply lookup_delete_Some in Hp as [_ Hp].
Qed.

Lemma removeThemeFile_gone theme w content :
  startsWith (path_join h extensionRoot (entry_path theme)) themesDir = true ->
  files (snd (removeThemeFile h extensionRoot themesDir theme w))
    !! path_join h extensionRoot (entry_path theme) <> Some (File content).
Proof.
  intros Hs. unfold removeThemeFile, try_catch, bind, existsSync. rewrite Hs. cbn [andb].
  case_bool_decide as Hfound.
  - unfold unlinkSync.
    destruct (files w !! _) as [[c|]|] eqn:E; cbn; [by rewrite lookup_delete_eq | by rewrite E..].
  - cbn. intros E. apply Hfound. by rewrite E.
Qed.

Lemma removal_loop_gone picks theme w content :
  theme ∈ picks ->
  startsWith (path_join h extensionRoot (entry_path theme)) themesDir = true ->
  files (snd (for_each picks (removeThemeFile h extensionRoot themesDir) w))
    !! path_join h extensionRoot (entry_path theme) <> Some (File content).
Proof.
  intros Hin Hs. revert w. induction picks as [|x picks IH]; intros w.
  - by apply elem_of_nil in Hin.
  - cbn [for_each]. unfold bind.
    pose proof (removeThemeFile_ok x w) as Hok.
    destruct (removeThemeFile h extensionRoot themesDir x w) as [r w1] eqn:E.
    cbn [fst] in Hok. subst r.
    apply elem_of_cons in Hin as [->|Hin]; [|by apply IH].
    intros Hfile.
    pose proof (keeps_for_each only_deletes picks _
                  removeThemeFile_only_deletes w1 _ _ Hfile) as Hbefore.
    pose proof (removeThemeFile_gone x w content Hs) as Hgone.
    rewrite E in Hgone. by apply Hgone.
Qed.

(** After the confirmed removal no file is left at the path recomputed
    from the entry of a picked theme, when that path passes the test. *)
Lemma removal_gone (w : world) (themes : list Sh1ffyThemeEntry)
    (ixs : list nat) (rest : list answer) :
  fst (readImportedThemesFromDisk h extensionRoot w) = Ok themes ->
  answers w = Picked ixs :: Button (lit "Remove") :: rest ->
  forall i theme content,
    i ∈ ixs -> themes !! i = Some theme ->
    let p := path_join h extensionRoot (entry_path theme) in
    startsWith p themesDir = true ->
    ~ package_paths h extensionRoot p ->
    files (snd (handleRemoveThemes h extensionRoot w)) !! p <> Some (File content).
Proof.
  intros Hthemes Hans i theme content Hi Hth. cbv zeta. intros Hs Hpkg.
  unfold handleRemoveThemes. fold themesDir.
  unfold bind at 1.
  rewrite (reads_run _ w (readImportedThemesFromDisk_reads h extensionRoot)), Hthemes.
  destruct themes as [|t ts] eqn:Et; [done|]. rewrite <- Et in *.
  assert (Hpick : theme ∈ omap (fun i => themes !! i) ixs).
  { apply list_elem_of_omap. by exists i. }
  unfold bind at 1, showQuickPickMany, bind at 1, next_answer. rewrite Hans. cbn [ret].
  destruct (omap _ ixs) as [|pk picks] eqn:Epicks; [by apply elem_of_nil in Hpick|].
  rewrite <- Epicks in *. clear Et.
  unfold bind at 1. rewrite showMessage_ask. cbn [answers with_answers with_shown].
  rewrite elem_of_singleton_button, bool_decide_same. cbn [negb].
  set (w2 := with_answers _ rest).
  unfold bind at 1.
  pose proof (removal_loop_gone (omap (fun i => themes !! i) ixs) theme w2 content Hpick Hs)
    as Hgone.
  destruct (for_each _ _ w2) as [[[]|e] w3]; cbn [snd] in Hgone; [|exact Hgone].
  assert (Hrest : keeps (changes_only (package_paths h extensionRoot))
            (syncPackageJsonThemes h extensionRoot ;;;
             theme_showReloadNotification
               (lit "Sh1ffy: Selected themes removed. Reload the window to update the Color Theme list."))).
  { keeps_step; [apply syncPackageJsonThemes_package|].
    apply disk_changes, theme_showReloadNotification_disk. }
  by rewrite (Hrest w3 _ Hpkg).
Qed.

(** What the scan returns was read from the files of the themes
    directory. *)
Lemma collect_from {A B} (f : A -> M B) (w : world) :
  (forall x, keeps eq (f x)) ->
  forall xs l w', collect xs f w = (Ok l, w') ->
  forall b, b ∈ l -> exists x, x ∈ xs /\ fst (f x w) = Ok b.
Proof.
  intros Hf xs. induction xs as [|x xs IH]; intros l w'.
  - intros [= <- _] b Hb. by apply elem_of_nil in Hb.
  - cbn [collect]. unfold bind at 1, try_catch, bind at 1.
    rewrite (reads_run (f x) w (Hf x)).
    destruct (fst (f x w)) as [b0|e] eqn:E; cbn; unfold bind;
      destruct (collect xs f w) as [[tl|e'] w2] eqn:E2; cbn; try done;
      intros [= <- _] b Hb.
    + apply elem_of_cons in Hb as [->|Hb]; [exists x; split; [by left|done]|].
      destruct (IH _ _ eq_refl b Hb) as (y & Hy & Hfy). exists y. split; [by right|done].
    + destruct (IH _ _ eq_refl b Hb) as (y & Hy & Hfy). exists y. split; [by right|done].
Qed.

Lemma scan_read_from (w : world) (themes : list Sh1ffyThemeEntry) theme :
  fst (readImportedThemesFromDisk h extensionRoot w) = Ok themes ->
  theme ∈ themes -> exists fileName, read_from h extensionRoot w theme fileName.
Proof.
  unfold readImportedThemesFromDisk. fold themesDir. unfold bind at 1, existsSync.
  destruct (bool_decide _); cbn [negb].
  2:{ intros [= <-] Hin. by apply elem_of_nil in Hin. }
  unfold bind, readdirSync.
  destruct (files w !! themesDir) as [[|]|]; try done.
  destruct (collect _ _ w) as [[l|e] w'] eqn:E; [|done]. cbn [fst]. intros Hl Hin.
  injection Hl as ->.
  destruct (collect_from _ w (readThemeFile_reads h themesDir) _ _ _ E theme Hin)
    as (fileName & _ & Hread).
  exists fileName. split; [|exact Hread]. fold themesDir.
  revert Hread. unfold readThemeFile, bind, readFileSync.
  destruct (files w !! path_join h themesDir fileName) as [[content|]|]; [|done..].
  intros _. by exists content.
Qed.

(** X29.  Once the removal is confirmed, every theme the user picked was
    read from a file of the themes directory, and such a file is not
    left as a file, when the path the handler recomputes from the entry
    is the path of that file, passes the handler's test (it starts with
    the themes directory path) and is not package.json or its backup. *)
Theorem handleRemoveThemes_deletes_picked (w : world) (themes : list Sh1ffyThemeEntry)
    (ixs : list nat) (rest : list answer) :
  fst (readImportedThemesFromDisk h extensionRoot w) = Ok themes ->
  answers w = Picked ixs :: Button (lit "Remove") :: rest ->
  let w' := snd (handleRemoveThemes h extensionRoot w) in
  forall i theme,
    i ∈ ixs -> themes !! i = Some theme ->
    (exists fileName, read_from h extensionRoot w theme fileName)
    /\ (forall fileName,
          read_from h extensionRoot w theme fileName ->
          let file := path_join h themesDir fileName in
          path_join h extensionRoot (entry_path theme) = file ->
          startsWith file themesDir = true ->
          ~ package_paths h extensionRoot file ->
          forall content, files w' !! file <> Some (File content)).
Proof.
  intros Hthemes Hans. cbv zeta. intros i theme Hi Hth. split.
  - apply (scan_read_from w themes theme Hthemes). by eapply list_elem_of_lookup_2.
  - intros fileName _ Hpath Hs Hpkg content. rewrite <- Hpath in *.
    by apply (removal_gone w themes ixs rest Hthemes Hans i theme content).
Qed.

End Removal.

Lemma handleRemoveThemes_deletes_picked_witness :
  let w := Demo.removing in
  let w' := snd (handleRemoveThemes Demo.host Demo.extensionRoot w) in
  files w !! lit "/ext/themes/a.json" = Some (File (lit "{}"))
  /\ exists theme,
       Demo.syncing_themes !! 0%nat = Some theme
       /\ read_from Demo.host Demo.extensionRoot w theme (lit "a.json")
       /\ files w' !! lit "/ext/themes/a.json" <> Some (File (lit "{}")).
Proof.
  cbv zeta. split; [vm_compute; reflexivity|].
  eexists. split; [reflexivity|].
  assert (Hfrom : read_from Demo.host Demo.extensionRoot Demo.removing
                    (mkEntry (lit "sh1ffy.a") (lit "a") (lit "vs-dark") (lit "themes/a.json")
                       (lit "Dark"))
                    (lit "a.json")).
  { split; [by exists (lit "{}")|]. vm_compute. reflexivity. }
  split; [exact Hfrom|].
  refine (proj2 (handleRemoveThemes_deletes_picked Demo.host Demo.extensionRoot Demo.removing
                   Demo.syncing_themes [0%nat] [] _ eq_refl 0%nat _ _ eq_refl)
            (lit "a.json") Hfrom _ eq_refl _ (lit "{}")).
  - vm_compute. reflexivity.
  - by left.
  - vm_compute. reflexivity.
  - intros [Hp|Hp]; vm_compute in Hp; discriminate.
Defined.
